(** * Readout: a shallow embedding of the producer and dispatcher core

    The development follows the C++ sources of the readout process:
    - [ReadoutUtils]      : ReadoutUtils.cxx (configuration strings: byte
                            sizes, key=value options, item lists, URIs);
    - [FMQStats]          : ConsumerFMQchannel.cxx, page accounting kept in
                            [DataBlock.userSpace];
    - [Equipment]         : ReadoutEquipment.cxx (timeframe identification,
                            RDH stream checks, readout loop, output FIFO
                            and rate limit);
    - [Dispatcher]        : ConsumerFMQchannel.cxx (STF header, HBF slicing
                            and repacking, worker pool and sender thread).

    Machine integers are carried as [Z] with the wrap-around of their C type
    written out where the code can reach it.  The doubles of the rate limit
    are IEEE 754 binary64 values, rounded as the hardware rounds them. *)

From Stdlib Require Import ZArith List Lia Bool QArith Qround String Ascii Sorted.
From Stdlib Require SpecFloat.
Import ListNotations.

Local Open Scope Z_scope.

(** ** Fixed-width arithmetic *)

Definition wrap (w : Z) (x : Z) : Z := x mod 2 ^ w.
Definition u8 (x : Z) : Z := wrap 8 x.
Definition u16 (x : Z) : Z := wrap 16 x.
Definition u32 (x : Z) : Z := wrap 32 x.
Definition u64 (x : Z) : Z := wrap 64 x.

Definition in_u (w : Z) (x : Z) : Prop := 0 <= x < 2 ^ w.

Lemma wrap_range w x : 0 <= w -> in_u w (wrap w x).
Proof.
  intros Hw. unfold in_u, wrap. apply Z.mod_pos_bound.
  apply Z.pow_pos_nonneg; lia.
Qed.

Lemma wrap_small w x : in_u w x -> wrap w x = x.
Proof. unfold in_u, wrap. intros H. now apply Z.mod_small. Qed.

Lemma u64_small x : 0 <= x < 2 ^ 64 -> u64 x = x.
Proof. apply wrap_small. Qed.

Lemma u32_small x : 0 <= x < 2 ^ 32 -> u32 x = x.
Proof. apply wrap_small. Qed.

(** Truncation toward zero of a rational. *)
Definition truncQ (x : Q) : Z := Z.quot (Qnum x) (Z.pos (Qden x)).

(** [r] is [x] with its fraction discarded. *)
Definition truncationOf (r : Z) (x : Q) : Prop :=
  ((0 <= x)%Q -> (inject_Z r <= x)%Q /\ (x < inject_Z r + 1)%Q) /\
  ((x <= 0)%Q -> (inject_Z r - 1 < x)%Q /\ (x <= inject_Z r)%Q).

Lemma quot_bounds (n d : Z) :
  0 < d ->
  (0 <= n -> Z.quot n d * d <= n < (Z.quot n d + 1) * d) /\
  (n <= 0 -> (Z.quot n d - 1) * d < n <= Z.quot n d * d).
Proof.
  intros Hd. pose proof (Z.quot_rem' n d) as E.
  split; intros Hn.
  - pose proof (Z.rem_bound_pos n d Hn Hd). nia.
  - pose proof (Z.rem_bound_pos_neg n d Hd Hn). nia.
Qed.

Lemma truncQ_truncationOf (x : Q) : truncationOf (truncQ x) x.
Proof.
  destruct x as [n d].
  destruct (quot_bounds n (Z.pos d) ltac:(lia)) as [Hp Hn].
  unfold truncationOf, truncQ, Qle, Qlt, Qplus, Qminus, Qopp, inject_Z.
  cbn [Qnum Qden]. rewrite ?Pos.mul_1_r, ?Z.mul_1_r, ?Z.mul_0_l.
  split; intros H.
  - specialize (Hp H). cbn -[Z.quot Z.mul Z.add]. lia.
  - specialize (Hn H). cbn -[Z.quot Z.mul Z.add Z.sub]. lia.
Qed.

(** ** Doubles

    IEEE 754 binary64 as the Standard Library specifies it: a double is a
    signed zero, an infinity, a NaN or a finite number [(-1)^s * m * 2^e];
    products, differences, quotients and the conversion of an integer round
    to nearest, ties to even. *)
Definition double : Type := SpecFloat.spec_float.

Definition double_mul : double -> double -> double := SpecFloat.SFmul 53 1024.
Definition double_sub : double -> double -> double := SpecFloat.SFsub 53 1024.
Definition double_div : double -> double -> double := SpecFloat.SFdiv 53 1024.

(** The conversion of an integer operand to double. *)
Definition double_of_Z (z : Z) : double :=
  SpecFloat.binary_normalize 53 1024 z 0 false.

(** [x > 0]; false on a NaN. *)
Definition double_gt_zero (x : double) : bool :=
  SpecFloat.SFltb (SpecFloat.S754_zero false) x.

(** The rational a finite double denotes. *)
Definition double_value (x : double) : option Q :=
  match x with
  | SpecFloat.S754_zero _ => Some 0%Q
  | SpecFloat.S754_finite s m e =>
      let a := match e with
               | Z.neg k => Qmake (Z.pos m) (2 ^ k)
               | _ => inject_Z (Z.pos m * 2 ^ e)
               end in
      Some (if s then Qopp a else a)
  | _ => None
  end.

(** The integral part of a finite double, the fraction discarded. *)
Definition double_trunc (x : double) : option Z :=
  match x with
  | SpecFloat.S754_zero _ => Some 0
  | SpecFloat.S754_finite s m e =>
      let a := Z.shiftl (Z.pos m) e in
      Some (if s then - a else a)
  | _ => None
  end.

(** The conversion of a double to [int] is defined when the integral part
    fits the type. *)
Definition fitsInt (x : double) : bool :=
  match double_trunc x with
  | Some z => (- 2 ^ 31 <=? z) && (z <? 2 ^ 31)
  | None => false
  end.

(** [(int)x].  Where the conversion is not defined the value is the one the
    conversion instruction of x86-64 leaves, [INT_MIN]. *)
Definition toInt (x : double) : Z :=
  match double_trunc x with
  | Some z => if (- 2 ^ 31 <=? z) && (z <? 2 ^ 31) then z else - 2 ^ 31
  | None => - 2 ^ 31
  end.

Lemma truncationOf_opp (r : Z) (x : Q) :
  truncationOf r x -> truncationOf (- r) (- x).
Proof.
  destruct x as [n d].
  unfold truncationOf, Qle, Qlt, Qplus, Qminus, Qopp, inject_Z.
  cbn [Qnum Qden]. rewrite ?Pos.mul_1_r, ?Z.mul_1_r, ?Z.mul_0_l.
  cbn -[Z.mul Z.add Z.sub Z.opp].
  intros [H1 H2]. split; intros H.
  - destruct H2 as [H2 H2']; [lia|]. split; lia.
  - destruct H1 as [H1 H1']; [lia|]. split; lia.
Qed.

Lemma truncationOf_inject (z : Z) : truncationOf z (inject_Z z).
Proof.
  unfold truncationOf, Qle, Qlt, Qplus, Qminus, Qopp, inject_Z.
  cbn [Qnum Qden]. cbn -[Z.mul Z.add Z.sub Z.opp]. lia.
Qed.

(** [double_trunc] discards the fraction of the value. *)
Lemma double_trunc_value (x : double) (z : Z) :
  double_trunc x = Some z ->
  exists q, double_value x = Some q /\ truncationOf z q.
Proof.
  destruct x as [s| | |s m e]; cbn [double_trunc double_value];
    try discriminate.
  - intros [= <-]. exists 0%Q. split; [reflexivity|].
    apply (truncationOf_inject 0).
  - intros [= <-]. eexists. split; [reflexivity|].
    assert (H : truncationOf (Z.shiftl (Z.pos m) e)
                  (match e with
                   | Z.neg k => Qmake (Z.pos m) (2 ^ k)
                   | _ => inject_Z (Z.pos m * 2 ^ e)
                   end)).
    { destruct e as [|k|k].
      - cbn [Z.shiftl]. rewrite Z.pow_0_r, Z.mul_1_r. apply truncationOf_inject.
      - rewrite Z.shiftl_mul_pow2 by lia. apply truncationOf_inject.
      - change (Z.shiftl (Z.pos m) (Z.neg k)) with (Z.shiftr (Z.pos m) (Z.pos k)).
        rewrite Z.shiftr_div_pow2 by lia.
        pose proof (truncQ_truncationOf (Qmake (Z.pos m) (2 ^ k))) as Ht.
        unfold truncQ in Ht. cbn [Qnum Qden] in Ht.
        rewrite Z.quot_div_nonneg in Ht by lia.
        rewrite Pos2Z.inj_pow in Ht. exact Ht. }
    destruct s; [|exact H].
    now apply truncationOf_opp.
Qed.

Lemma toInt_value (x : double) :
  fitsInt x = true ->
  exists q, double_value x = Some q /\ truncationOf (toInt x) q.
Proof.
  unfold fitsInt, toInt. destruct (double_trunc x) as [z|] eqn:E; [|discriminate].
  intros ->. now apply double_trunc_value.
Qed.

(* ------------------------------------------------------------------ *)
(** ** Pages *)

(** Modelled from the spec: DataBlock.h is not among the sources at hand;
    the header carries the fields of the data model, each of the width
    given there. *)
Record DataBlockHeader : Type := mkHeader {
  blockId : Z;               (* uint64 *)
  dataSize : Z;              (* uint32 *)
  headerSize : Z;            (* uint16 *)
  memorySize : Z;            (* uint32 *)
  equipmentId : Z;           (* uint16 *)
  linkId : Z;                (* uint8 *)
  feeId : Z;                 (* uint16 *)
  systemId : Z;              (* uint8 *)
  timeframeId : Z;           (* uint64 *)
  timeframeOrbitFirst : Z;   (* uint32 *)
  timeframeOrbitLast : Z;    (* uint32 *)
  runNumber : Z;             (* uint64 *)
  flagEndOfTimeframe : bool;
  isRdhFormat : bool
}.

(** A page: the in-band header and the payload bytes behind it. *)
Record DataBlock : Type := mkBlock {
  header : DataBlockHeader;
  data : list Byte.byte
}.

(** The sentinels of DataBlock.h, whose values the sources at hand do not
    show. *)
Record Sentinels : Type := mkSentinels {
  undefinedTimeframeId : Z;
  undefinedEquipmentId : Z;
  undefinedLinkId : Z;
  undefinedSystemId : Z;
  undefinedFeeId : Z;
  undefinedOrbit : Z
}.

Definition with_blockId (v : Z) (h : DataBlockHeader) : DataBlockHeader :=
  mkHeader v (dataSize h) (headerSize h) (memorySize h) (equipmentId h)
    (linkId h) (feeId h) (systemId h) (timeframeId h)
    (timeframeOrbitFirst h) (timeframeOrbitLast h) (runNumber h)
    (flagEndOfTimeframe h) (isRdhFormat h).

Definition with_equipmentId (v : Z) (h : DataBlockHeader) : DataBlockHeader :=
  mkHeader (blockId h) (dataSize h) (headerSize h) (memorySize h) v
    (linkId h) (feeId h) (systemId h) (timeframeId h)
    (timeframeOrbitFirst h) (timeframeOrbitLast h) (runNumber h)
    (flagEndOfTimeframe h) (isRdhFormat h).

Definition with_timeframeId (v : Z) (h : DataBlockHeader) : DataBlockHeader :=
  mkHeader (blockId h) (dataSize h) (headerSize h) (memorySize h)
    (equipmentId h) (linkId h) (feeId h) (systemId h) v
    (timeframeOrbitFirst h) (timeframeOrbitLast h) (runNumber h)
    (flagEndOfTimeframe h) (isRdhFormat h).

Definition with_runNumber (v : Z) (h : DataBlockHeader) : DataBlockHeader :=
  mkHeader (blockId h) (dataSize h) (headerSize h) (memorySize h)
    (equipmentId h) (linkId h) (feeId h) (systemId h) (timeframeId h)
    (timeframeOrbitFirst h) (timeframeOrbitLast h) v
    (flagEndOfTimeframe h) (isRdhFormat h).

Definition with_isRdhFormat (v : bool) (h : DataBlockHeader) : DataBlockHeader :=
  mkHeader (blockId h) (dataSize h) (headerSize h) (memorySize h)
    (equipmentId h) (linkId h) (feeId h) (systemId h) (timeframeId h)
    (timeframeOrbitFirst h) (timeframeOrbitLast h) (runNumber h)
    (flagEndOfTimeframe h) v.

(** The assignments at the end of [tagDatablockFromRdh]. *)
Definition with_tags (tf sys fee eq link first last : Z) (h : DataBlockHeader)
  : DataBlockHeader :=
  mkHeader (blockId h) (dataSize h) (headerSize h) (memorySize h)
    eq link fee sys tf first last (runNumber h)
    (flagEndOfTimeframe h) (isRdhFormat h).

Definition with_header (h : DataBlockHeader) (b : DataBlock) : DataBlock :=
  mkBlock h (data b).

(* ------------------------------------------------------------------ *)
(** ** ReadoutUtils.cxx *)

Module ReadoutUtils.

(** The double that ["%lf"] stores.  A finite double is carried as the
    rational it denotes: the function multiplies it by powers of 1024 only,
    and such a product of doubles is exact unless it overflows to an
    infinity, which lies outside [long long] as the exact product does. *)
Inductive Double : Type :=
| Finite (v : Q)
| NotFinite.                            (* an infinity or a NaN *)

Definition times (x : Double) (k : Z) : Double :=
  match x with
  | Finite v => Finite (v * inject_Z k)
  | NotFinite => NotFinite
  end.

Definition LLONG_MIN : Z := - 2 ^ 63.
Definition LLONG_MAX : Z := 2 ^ 63 - 1.

(** The cast [(long long)x] of a double: the fraction is discarded.  Where
    the integral part does not fit the type, and for an infinity or a NaN,
    the conversion is not defined by the language; the value is the one the
    conversion instruction of x86-64 leaves, [LLONG_MIN]. *)
Definition toLongLong (x : Double) : Z :=
  match x with
  | Finite v =>
      let t := truncQ v in
      if (LLONG_MIN <=? t) && (t <=? LLONG_MAX) then t else LLONG_MIN
  | NotFinite => LLONG_MIN
  end.

(** What [sscanf(inputString, "%lf%c", &v, &c)] hands back: the number of
    items assigned and their values. *)
Inductive ScanResult : Type :=
| ScanNone                                   (* n <= 0 : nothing converted *)
| ScanNumber (v : Double)                    (* n == 1 *)
| ScanNumberChar (v : Double) (c : ascii).   (* n == 2 *)

Section GetNumberOfBytes.

(** [sscanf] belongs to the C library; the function is embedded over it. *)
Variable sscanf_lf_c : string -> ScanResult.

Definition getNumberOfBytesFromString (inputString : string) : Z :=
  match sscanf_lf_c inputString with
  | ScanNumber v => toLongLong v
  | ScanNumberChar v c =>
      if Ascii.eqb c "k" then toLongLong (times v 1024)
      else if Ascii.eqb c "M" then toLongLong (times (times v 1024) 1024)
      else if Ascii.eqb c "G" then
        toLongLong (times (times (times v 1024) 1024) 1024)
      else if Ascii.eqb c "T" then
        toLongLong (times (times (times (times v 1024) 1024) 1024) 1024)
      else if Ascii.eqb c "P" then
        toLongLong
          (times (times (times (times (times v 1024) 1024) 1024) 1024) 1024)
      else 0
  | ScanNone => 0
  end.

End GetNumberOfBytes.

(** The suffix table the comment of the function announces: the power of
    1024 attached to a unit character. *)
Definition suffixPower (c : ascii) : option Z :=
  if Ascii.eqb c "k" then Some 1
  else if Ascii.eqb c "M" then Some 2
  else if Ascii.eqb c "G" then Some 3
  else if Ascii.eqb c "T" then Some 4
  else if Ascii.eqb c "P" then Some 5
  else None.

(** *** A scanner for plain decimal notation

    What ["%lf%c"] does on strings written in plain decimal notation, such
    as the configuration values ["128k"] or ["1.5M"]: leading white space,
    an optional sign, digits with an optional fractional part, rounded to
    the nearest double, then one character if there is any.  The other
    notations of ["%lf"] (a decimal exponent, hexadecimal digits, [inf],
    [nan]) are not read: the examples stay clear of them. *)

Definition isSpace (c : ascii) : bool :=
  let n := nat_of_ascii c in
  (Nat.eqb n 32 || (Nat.leb 9 n && Nat.leb n 13))%bool.

Definition digitOf (c : ascii) : option Z :=
  let n := nat_of_ascii c in
  if (Nat.leb 48 n && Nat.leb n 57)%bool then Some (Z.of_nat n - 48) else None.

Fixpoint skipSpaces (s : string) : string :=
  match s with
  | String c r => if isSpace c then skipSpaces r else s
  | EmptyString => s
  end.

(** Reads a run of digits: accumulated value, number of digits, rest. *)
Fixpoint scanDigits (s : string) (acc : Z) (n : nat) : Z * nat * string :=
  match s with
  | String c r =>
      match digitOf c with
      | Some d => scanDigits r (10 * acc + d) (S n)
      | None => (acc, n, s)
      end
  | EmptyString => (acc, n, s)
  end.

Definition scanSign (s : string) : bool * string :=
  match s with
  | String "-" r => (true, r)
  | String "+" r => (false, r)
  | _ => (false, s)
  end.

(** The double nearest to [m / d], ties to even: one division, rounded
    once. *)
Definition nearestDouble (neg : bool) (m : Z) (d : positive) : double :=
  match m with
  | Z.pos p =>
      double_div (SpecFloat.S754_finite neg p 0) (SpecFloat.S754_finite false d 0)
  | _ => SpecFloat.S754_zero neg
  end.

(** The double as the function gets it. *)
Definition valueOf (x : double) : Double :=
  match double_value x with
  | Some v => Finite v
  | None => NotFinite
  end.

Definition scanDecimal (s : string) : ScanResult :=
  let '(neg, s1) := scanSign (skipSpaces s) in
  let '(ip, ni, s2) := scanDigits s1 0 O in
  let '(fp, nf, s3) :=
    match s2 with
    | String "." r => scanDigits r 0 O
    | _ => (0, O, s2)
    end in
  match ni, nf with
  | O, O => ScanNone
  | _, _ =>
      let m := ip * 10 ^ Z.of_nat nf + fp in
      let v := valueOf (nearestDouble neg m (Z.to_pos (10 ^ Z.of_nat nf))) in
      match s3 with
      | String c _ => ScanNumberChar v c
      | EmptyString => ScanNumber v
      end
  end.

(** *** Properties *)

(** [x], taken with its fraction discarded, is a [long long]. *)
Definition fitsLongLong (x : Q) : Prop :=
  (inject_Z LLONG_MIN - 1 < x)%Q /\ (x < inject_Z LLONG_MAX + 1)%Q.

Lemma truncQ_Qeq (p q : Q) : Qeq p q -> truncQ p = truncQ q.
Proof.
  unfold Qeq, truncQ. destruct p as [a b], q as [c d]; simpl. intros H.
  rewrite <- (Z.quot_mul_cancel_r a (Z.pos b) (Z.pos d)) by lia.
  rewrite H.
  rewrite (Z.mul_comm (Z.pos b) (Z.pos d)).
  apply Z.quot_mul_cancel_r; lia.
Qed.

Lemma fitsLongLong_truncQ (x : Q) :
  fitsLongLong x <-> LLONG_MIN <= truncQ x <= LLONG_MAX.
Proof.
  destruct x as [n d].
  destruct (quot_bounds n (Z.pos d) ltac:(lia)) as [Hp Hn].
  unfold fitsLongLong, truncQ, Qlt, Qplus, Qminus, Qopp, inject_Z.
  cbn [Qnum Qden]. rewrite ?Pos.mul_1_r, ?Z.mul_1_r.
  assert (HL : LLONG_MIN < 0) by (vm_compute; reflexivity).
  assert (HM : 0 < LLONG_MAX) by (vm_compute; reflexivity).
  generalize dependent LLONG_MIN. generalize dependent LLONG_MAX.
  intros M HM L HL. cbn -[Z.quot Z.mul Z.add Z.sub].
  destruct (Z.le_ge_cases 0 n) as [H|H].
  - specialize (Hp H). split; intros [H1 H2]; split; nia.
  - specialize (Hn H). split; intros [H1 H2]; split; nia.
Qed.

Lemma fitsLongLong_Qeq (x y : Q) : Qeq x y -> fitsLongLong x -> fitsLongLong y.
Proof. unfold fitsLongLong. intros E [H1 H2]. now rewrite <- E. Qed.

Lemma truncationOf_Qeq r (x y : Q) :
  Qeq x y -> truncationOf r x -> truncationOf r y.
Proof.
  unfold truncationOf. intros E [H1 H2].
  split; intros H; rewrite <- E in H |- *; auto.
Qed.

Lemma toLongLong_range (x : Double) : LLONG_MIN <= toLongLong x <= LLONG_MAX.
Proof.
  assert (HL : LLONG_MIN <= LLONG_MAX) by (vm_compute; discriminate).
  destruct x as [v|]; cbn [toLongLong]; [|lia].
  destruct (Z.leb_spec LLONG_MIN (truncQ v)); cbn [andb]; [|lia].
  destruct (Z.leb_spec (truncQ v) LLONG_MAX); lia.
Qed.

(** The cast of a finite double whose value is [x]. *)
Lemma toLongLong_cases (y x : Q) :
  Qeq y x ->
  (fitsLongLong x -> truncationOf (toLongLong (Finite y)) x) /\
  (~ fitsLongLong x -> toLongLong (Finite y) = LLONG_MIN).
Proof.
  intros E. cbn [toLongLong]. rewrite (truncQ_Qeq y x E).
  pose proof (fitsLongLong_truncQ x) as Hf.
  destruct (Z.leb_spec LLONG_MIN (truncQ x)) as [H1|H1]; cbn [andb].
  - destruct (Z.leb_spec (truncQ x) LLONG_MAX) as [H2|H2].
    + split; [intros _; apply truncQ_truncationOf|].
      intros Hn. exfalso. apply Hn, Hf. lia.
    + split; [|reflexivity]. intros H. apply Hf in H. lia.
  - split; [|reflexivity]. intros H. apply Hf in H. lia.
Qed.

Lemma suffixPower_inv c p :
  suffixPower c = Some p ->
  (c = "k"%char /\ p = 1) \/ (c = "M"%char /\ p = 2) \/
  (c = "G"%char /\ p = 3) \/ (c = "T"%char /\ p = 4) \/
  (c = "P"%char /\ p = 5).
Proof.
  unfold suffixPower.
  repeat match goal with
         | |- context [Ascii.eqb c ?k] =>
             destruct (Ascii.eqb_spec c k) as [->|];
             [ intros [= <-]; tauto | ]
         end.
  discriminate.
Qed.

Lemma suffixPower_None c :
  suffixPower c = None ->
  Ascii.eqb c "k" = false /\ Ascii.eqb c "M" = false /\
  Ascii.eqb c "G" = false /\ Ascii.eqb c "T" = false /\
  Ascii.eqb c "P" = false.
Proof.
  unfold suffixPower.
  repeat (destruct (Ascii.eqb c _); [ discriminate | ]).
  tauto.
Qed.

(** C10 as the specification words it: whenever the string reads as a
    number and one of the unit characters, the result is the number times
    the matching power of 1024, its fraction discarded. *)
Definition suffix_scales_every_number : Prop :=
  forall (sscanf_lf_c : string -> ScanResult) (inputString : string)
    (v : Q) (c : ascii) (p : Z),
  sscanf_lf_c inputString = ScanNumberChar (Finite v) c ->
  suffixPower c = Some p ->
  truncationOf (getNumberOfBytesFromString sscanf_lf_c inputString)
    (v * inject_Z (1024 ^ p)).

(** ["8192P"] reads as 8192 and the unit P: the product is 2^63, one more
    than the largest [long long], and the function returns [LLONG_MIN]. *)
Lemma suffix_scales_every_number_fails : ~ suffix_scales_every_number.
Proof.
  intros H.
  specialize (H scanDecimal "8192P"%string (4503599627370496 # 549755813888)
                "P"%char 5 ltac:(vm_compute; reflexivity) eq_refl).
  destruct H as [H _].
  destruct H as [_ H]; [vm_compute; discriminate|].
  vm_compute in H. discriminate.
Qed.

(** C10.  For every input string: a finite number [v] followed by one of the
    unit characters k, M, G, T, P gives [v] times the matching power of 1024
    with its fraction discarded, provided that is a [long long]; a bare
    number gives that number with its fraction discarded, under the same
    proviso; outside the range of [long long], and for an infinity or a NaN,
    the result is [LLONG_MIN]; every other input, a number followed by some
    other character included, gives 0.  The result is always a
    [long long]. *)
Theorem getNumberOfBytesFromString_cases
  (sscanf_lf_c : string -> ScanResult) (inputString : string) :
  (forall v c p,
      sscanf_lf_c inputString = ScanNumberChar (Finite v) c ->
      suffixPower c = Some p ->
      (fitsLongLong (v * inject_Z (1024 ^ p)) ->
       truncationOf (getNumberOfBytesFromString sscanf_lf_c inputString)
         (v * inject_Z (1024 ^ p))) /\
      (~ fitsLongLong (v * inject_Z (1024 ^ p)) ->
       getNumberOfBytesFromString sscanf_lf_c inputString = LLONG_MIN)) /\
  (forall v,
      sscanf_lf_c inputString = ScanNumber (Finite v) ->
      (fitsLongLong v ->
       truncationOf (getNumberOfBytesFromString sscanf_lf_c inputString) v) /\
      (~ fitsLongLong v ->
       getNumberOfBytesFromString sscanf_lf_c inputString = LLONG_MIN)) /\
  (forall c p,
      sscanf_lf_c inputString = ScanNumberChar NotFinite c ->
      suffixPower c = Some p ->
      getNumberOfBytesFromString sscanf_lf_c inputString = LLONG_MIN) /\
  (sscanf_lf_c inputString = ScanNumber NotFinite ->
      getNumberOfBytesFromString sscanf_lf_c inputString = LLONG_MIN) /\
  (sscanf_lf_c inputString = ScanNone ->
      getNumberOfBytesFromString sscanf_lf_c inputString = 0) /\
  (forall v c,
      sscanf_lf_c inputString = ScanNumberChar v c ->
      suffixPower c = None ->
      getNumberOfBytesFromString sscanf_lf_c inputString = 0) /\
  LLONG_MIN <= getNumberOfBytesFromString sscanf_lf_c inputString <= LLONG_MAX.
Proof.
  unfold getNumberOfBytesFromString.
  split; [|split; [|split; [|split; [|split; [|split]]]]].
  - intros v c p Hs Hp. rewrite Hs.
    destruct (suffixPower_inv _ _ Hp)
      as [[-> ->]|[[-> ->]|[[-> ->]|[[-> ->]|[-> ->]]]]];
      cbn [Ascii.eqb Bool.eqb times]; apply toLongLong_cases;
      unfold Qeq; destruct v as [a b]; simpl; lia.
  - intros v Hs. rewrite Hs. apply toLongLong_cases. reflexivity.
  - intros c p Hs Hp. rewrite Hs.
    destruct (suffixPower_inv _ _ Hp)
      as [[-> ->]|[[-> ->]|[[-> ->]|[[-> ->]|[-> ->]]]]]; reflexivity.
  - intros Hs. now rewrite Hs.
  - intros Hs. now rewrite Hs.
  - intros v c Hs Hn. rewrite Hs.
    destruct (suffixPower_None _ Hn) as (-> & -> & -> & -> & ->).
    reflexivity.
  - assert (H0 : LLONG_MIN <= 0 <= LLONG_MAX)
      by (split; vm_compute; discriminate).
    destruct (sscanf_lf_c inputString) as [|v|v c]; [exact H0| |].
    + apply toLongLong_range.
    + repeat (destruct (Ascii.eqb c _); [apply toLongLong_range|]).
      exact H0.
Qed.

Example bytes_128k : getNumberOfBytesFromString scanDecimal "128k" = 131072.
Proof. vm_compute. reflexivity. Qed.

Example bytes_1_5M : getNumberOfBytesFromString scanDecimal "1.5M" = 1572864.
Proof. vm_compute. reflexivity. Qed.

Example bytes_2M : getNumberOfBytesFromString scanDecimal "2M" = 2097152.
Proof. vm_compute. reflexivity. Qed.

Example bytes_bare : getNumberOfBytesFromString scanDecimal "4096" = 4096.
Proof. vm_compute. reflexivity. Qed.

Example bytes_negative :
  getNumberOfBytesFromString scanDecimal "-1.5k" = -1536.
Proof. vm_compute. reflexivity. Qed.

(** The number read is a double: 2^53 + 1 is read as 2^53. *)
Example bytes_rounded :
  getNumberOfBytesFromString scanDecimal "9007199254740993" = 9007199254740992.
Proof. vm_compute. reflexivity. Qed.

Example bytes_unit_B : getNumberOfBytesFromString scanDecimal "10B" = 0.
Proof. vm_compute. reflexivity. Qed.

Example bytes_lower_m : getNumberOfBytesFromString scanDecimal "5m" = 0.
Proof. vm_compute. reflexivity. Qed.

Example bytes_empty : getNumberOfBytesFromString scanDecimal "" = 0.
Proof. vm_compute. reflexivity. Qed.

(** The largest power of two with the unit P that is still a [long long],
    and the first one that is not. *)
Example bytes_4096P :
  getNumberOfBytesFromString scanDecimal "4096P" = 2 ^ 62.
Proof. vm_compute. reflexivity. Qed.

Example bytes_8192P :
  getNumberOfBytesFromString scanDecimal "8192P" = LLONG_MIN.
Proof. vm_compute. reflexivity. Qed.

(** ["1.5M"]: the scanner hands back the double 1.5 = 6755399441055744 / 2^52
    and the function returns 1572864 = 1.5 * 1024^2. *)
Lemma getNumberOfBytesFromString_cases_witness :
  scanDecimal "1.5M"
  = ScanNumberChar (Finite (6755399441055744 # 4503599627370496)) "M" /\
  suffixPower "M" = Some 2 /\
  getNumberOfBytesFromString scanDecimal "1.5M" = 1572864 /\
  truncationOf (getNumberOfBytesFromString scanDecimal "1.5M")
    ((6755399441055744 # 4503599627370496) * inject_Z (1024 ^ 2)).
Proof.
  split; [vm_compute; reflexivity|]. split; [reflexivity|].
  split; [vm_compute; reflexivity|].
  apply (proj1 (getNumberOfBytesFromString_cases scanDecimal "1.5M")
           (6755399441055744 # 4503599627370496) "M"%char 2).
  - vm_compute. reflexivity.
  - reflexivity.
  - split; vm_compute; reflexivity.
Defined.


(** *** Strings

    [std::string] is carried as [string]; [s.find(pat, pos)] is
    [index pos pat s] with [None] for [npos], [s.substr(pos, n)] is
    [substring pos n s], and [s.substr(pos)] is [substr_from pos s]. *)

Section Strings.

Local Open Scope string_scope.
Local Open Scope nat_scope.

Definition substr_from (pos : nat) (s : string) : string :=
  substring pos (String.length s - pos) s.

(** The character [c] occurs in [s]. *)
Fixpoint hasChar (c : ascii) (s : string) : bool :=
  match s with
  | EmptyString => false
  | String x r => if Ascii.eqb c x then true else hasChar c r
  end.

Lemma length_append (a b : string) :
  String.length (a ++ b) = String.length a + String.length b.
Proof. induction a as [|x a IH]; cbn; [reflexivity | now rewrite IH]. Qed.

Lemma append_assoc (a b c : string) : (a ++ b) ++ c = a ++ b ++ c.
Proof. induction a as [|x a IH]; cbn; [reflexivity | now rewrite IH]. Qed.

Lemma append_nil_r (a : string) : a ++ "" = a.
Proof. induction a as [|x a IH]; cbn; [reflexivity | now rewrite IH]. Qed.

Lemma hasChar_append c a b :
  hasChar c (a ++ b) = (hasChar c a || hasChar c b)%bool.
Proof.
  induction a as [|x a IH]; cbn; [reflexivity|].
  destruct (Ascii.eqb c x); [reflexivity | exact IH].
Qed.

Lemma substring_0_length (s : string) : substring 0 (String.length s) s = s.
Proof. induction s as [|x s IH]; cbn; [reflexivity | now rewrite IH]. Qed.

Lemma substring_0_append (a b : string) :
  substring 0 (String.length a) (a ++ b) = a.
Proof.
  induction a as [|x a IH]; cbn.
  - destruct b; reflexivity.
  - now rewrite IH.
Qed.

Lemma substring_skip_append (a b : string) (n m : nat) :
  substring (String.length a + n) m (a ++ b) = substring n m b.
Proof. induction a as [|x a IH]; cbn; [reflexivity | exact IH]. Qed.

Lemma substr_from_append (a b : string) :
  substr_from (String.length a) (a ++ b) = b.
Proof.
  unfold substr_from. rewrite length_append.
  replace (String.length a + String.length b - String.length a)
    with (String.length b) by lia.
  rewrite <- (Nat.add_0_r (String.length a)) at 1.
  rewrite substring_skip_append. apply substring_0_length.
Qed.

Lemma index_skip_append (pat a b : string) (n : nat) :
  index (String.length a + n) pat (a ++ b)
  = option_map (Nat.add (String.length a)) (index n pat b).
Proof.
  induction a as [|x a IH]; cbn [String.length append Nat.add].
  - destruct (index n pat b); reflexivity.
  - cbn [index]. rewrite IH. destruct (index n pat b); reflexivity.
Qed.

Lemma prefix_char_other c t x s :
  Ascii.eqb c x = false -> prefix (String c t) (String x s) = false.
Proof.
  intros H. cbn. destruct (ascii_dec c x) as [->|]; [|reflexivity].
  now rewrite Ascii.eqb_refl in H.
Qed.

Lemma prefix_empty (s : string) : prefix "" s = true.
Proof. destruct s; reflexivity. Qed.

Lemma prefix_char_same c s : prefix (String c "") (String c s) = true.
Proof.
  cbn. destruct (ascii_dec c c); [apply prefix_empty | contradiction].
Qed.

(** A pattern that starts with [c] is not found where [c] does not occur. *)
Lemma index_none c t (s : string) :
  hasChar c s = false -> index 0 (String c t) s = None.
Proof.
  induction s as [|x s IH]; cbn [hasChar]; [reflexivity|].
  destruct (Ascii.eqb c x) eqn:E; [discriminate|]. intros H.
  cbn [index]. rewrite (prefix_char_other c t x s E), (IH H). reflexivity.
Qed.

(** The first occurrence of a character. *)
Lemma index_char_first c (a b : string) :
  hasChar c a = false ->
  index 0 (String c "") (a ++ String c b) = Some (String.length a).
Proof.
  induction a as [|x a IH]; cbn [hasChar append String.length].
  - intros _. cbn [index]. now rewrite prefix_char_same.
  - destruct (Ascii.eqb c x) eqn:E; [discriminate|]. intros H.
    cbn [index]. rewrite (prefix_char_other c "" x _ E), (IH H). reflexivity.
Qed.

Lemma index_char_spec c (s : string) :
  match index 0 (String c "") s with
  | Some p => exists a b, s = a ++ String c b /\ String.length a = p /\
                          hasChar c a = false
  | None => hasChar c s = false
  end.
Proof.
  induction s as [|x s IH]; [reflexivity|].
  cbn [index hasChar].
  destruct (Ascii.eqb_spec c x) as [<-|Hne].
  - rewrite prefix_char_same. exists "", s. auto.
  - rewrite (prefix_char_other c "" x s)
      by (now apply Ascii.eqb_neq).
    destruct (index 0 (String c "") s) as [p|].
    + destruct IH as (a & b & -> & <- & Ha).
      exists (String x a), b. cbn.
      destruct (Ascii.eqb_spec c x); [contradiction|]. auto.
    + exact IH.
Qed.

Lemma prefix_append (pat s : string) :
  prefix pat s = true -> exists b, s = pat ++ b.
Proof.
  revert s. induction pat as [|c pat IH]; intros s.
  - intros _. exists s. reflexivity.
  - destruct s as [|x s]; cbn; [discriminate|].
    destruct (ascii_dec c x) as [->|]; [|discriminate].
    intros H. destruct (IH s H) as [b ->]. exists b. reflexivity.
Qed.

(** Where a pattern is found, it is. *)
Lemma index_decompose (pat : string) : forall (s : string) n p,
  index n pat s = Some p ->
  exists a b, s = a ++ pat ++ b /\ String.length a = p /\ n <= p.
Proof.
  induction s as [|x s IH]; intros n p.
  - destruct n; cbn; [|discriminate].
    destruct pat; [|discriminate]. intros [= <-]. exists "", "". auto.
  - destruct n as [|n]; cbn [index].
    + destruct (prefix pat (String x s)) eqn:Ep.
      * intros [= <-]. apply prefix_append in Ep. destruct Ep as [b ->].
        exists "", b. auto.
      * destruct (index 0 pat s) as [q|] eqn:Eq; [|discriminate].
        intros [= <-]. destruct (IH 0 q Eq) as (a & b & -> & <- & _).
        exists (String x a), b. cbn. repeat split. lia.
    + destruct (index n pat s) as [q|] eqn:Eq; [|discriminate].
      intros [= <-]. destruct (IH n q Eq) as (a & b & -> & <- & Hn).
      exists (String x a), b. cbn. repeat split. lia.
Qed.

(** [splitURI].  [uri.find(':')] looks for a character, which is the search
    for the string of that one character. *)
Definition splitURI (uri : string) : string * string :=
  let double_slash := "://" in
  match index 0 double_slash uri with
  | Some double_slash_pos =>
      (substring 0 (double_slash_pos + String.length double_slash) uri,
       substr_from (double_slash_pos + String.length double_slash) uri)
  | None =>
      match index 0 ":" uri with
      | Some single_colon_pos =>
          (substring 0 (single_colon_pos + 1) uri,
           substr_from (single_colon_pos + 1) uri)
      | None => ("", uri)
      end
  end.

Lemma split_at (a pat b : string) :
  substring 0 (String.length a + String.length pat) (a ++ pat ++ b)
  = a ++ pat /\
  substr_from (String.length a + String.length pat) (a ++ pat ++ b) = b.
Proof.
  rewrite <- append_assoc, <- length_append.
  split; [apply substring_0_append | apply substr_from_append].
Qed.

(** [splitURI] cuts the URI in two without losing a character.  Without a
    colon the scheme is empty and the rest is the whole URI.  With one, the
    scheme ends with the first ["://"] of the URI if there is any, wherever
    it stands, and otherwise with the first colon. *)
Theorem splitURI_parts (uri : string) :
  let '(scheme, rest) := splitURI uri in
  scheme ++ rest = uri /\
  (hasChar ":" uri = false -> scheme = "" /\ rest = uri) /\
  (hasChar ":" uri = true ->
   (exists pre, scheme = pre ++ "://" /\ index 0 "://" uri = Some (String.length pre))
   \/
   (exists pre, scheme = pre ++ ":" /\ hasChar ":" pre = false /\
                index 0 "://" uri = None)).
Proof.
  unfold splitURI.
  destruct (index 0 "://" uri) as [p|] eqn:E2.
  - destruct (index_decompose "://" uri 0 p E2) as (a & b & -> & <- & _).
    destruct (split_at a "://" b) as [-> ->].
    assert (Hc : hasChar ":" (a ++ "://" ++ b) = true).
    { rewrite hasChar_append. cbn. apply orb_true_r. }
    split; [apply append_assoc|]. split.
    + rewrite Hc. discriminate.
    + intros _. left. exists a. split; reflexivity.
  - pose proof (index_char_spec ":" uri) as H1.
    destruct (index 0 ":" uri) as [p|] eqn:E1.
    + destruct H1 as (a & b & -> & <- & Ha).
      change (a ++ String ":" b) with (a ++ ":" ++ b).
      destruct (split_at a ":" b) as [H3 H4].
      change (String.length ":") with 1 in H3, H4. rewrite H3, H4.
      assert (Hc : hasChar ":" (a ++ ":" ++ b) = true).
      { rewrite hasChar_append. cbn. apply orb_true_r. }
      split; [apply append_assoc|]. split.
      * rewrite Hc. discriminate.
      * intros _. right. exists a. auto.
    + split; [reflexivity|]. split; [auto|].
      rewrite H1. discriminate.
Qed.

Example splitURI_http :
  splitURI "http://example.com" = ("http://", "example.com").
Proof. reflexivity. Qed.

Example splitURI_file :
  splitURI "file:///path/to/file" = ("file://", "/path/to/file").
Proof. reflexivity. Qed.

Example splitURI_colon_only : splitURI "file:/tmp/x" = ("file:", "/tmp/x").
Proof. reflexivity. Qed.

Example splitURI_colon_before_slashes :
  splitURI "host:80/u=http://x" = ("host:80/u=http://", "x").
Proof. reflexivity. Qed.

End Strings.


Section KeyValuePairs.

Local Open Scope string_scope.
Local Open Scope nat_scope.

(** [std::map<std::string, std::string>], known by what a look-up gives.
    [insert] leaves the map alone when the key is there already. *)
Definition Map : Type := list (string * string).

Fixpoint mapFind (k : string) (m : Map) : option string :=
  match m with
  | [] => None
  | (k', v) :: r => if String.eqb k k' then Some v else mapFind k r
  end.

Definition mapInsert (kv : string * string) (m : Map) : Map :=
  match mapFind (fst kv) m with
  | Some _ => m
  | None => (m ++ [kv])%list
  end.

(** The loop [for (;;)] of [getKeyValuePairsFromString]; the comparison
    [ix2 >= ix1] is one of [size_t], with [npos] the largest of them.
    [None] stands for a loop that has not ended within [fuel] turns. *)
Fixpoint kvLoop (fuel : nat) (input : string) (ix0 : nat) (output : Map)
  : option Map :=
  match fuel with
  | O => None
  | S fuel' =>
      let ix1 := index ix0 "," input in
      let ix2 := index ix0 "=" input in
      match ix2, ix1 with
      | None, _ => Some output
      | Some i2, Some i1 =>
          if i1 <=? i2 then Some output
          else
            kvLoop fuel' input (i1 + 1)
              (mapInsert (substring ix0 (i2 - ix0) input,
                          substring (i2 + 1) (i1 - (i2 + 1)) input) output)
      | Some i2, None =>
          Some (mapInsert (substring ix0 (i2 - ix0) input,
                           substr_from (i2 + 1) input) output)
      end
  end.

Definition getKeyValuePairsFromString (input : string) : option Map :=
  kvLoop (S (String.length input)) input 0 [].

(** The text ["k1=v1,k2=v2,..."] of a list of pairs. *)
Fixpoint renderPairs (kvs : list (string * string)) : string :=
  match kvs with
  | [] => ""
  | [(k, v)] => k ++ "=" ++ v
  | (k, v) :: rest => k ++ "=" ++ v ++ "," ++ renderPairs rest
  end.

(** Keys hold neither [=] nor [,]; values hold no [,]. *)
Definition plainPair (kv : string * string) : Prop :=
  hasChar "=" (fst kv) = false /\ hasChar "," (fst kv) = false /\
  hasChar "," (snd kv) = false.

Lemma index_found_bounds pat s n p :
  index n pat s = Some p ->
  n <= p /\ p + String.length pat <= String.length s.
Proof.
  intros H. destruct (index_decompose pat s n p H) as (a & b & -> & <- & Hn).
  rewrite !length_append. lia.
Qed.

(** The loop ends on every input. *)
Lemma kvLoop_total input : forall fuel ix0 output,
  String.length input - ix0 < fuel ->
  exists m, kvLoop fuel input ix0 output = Some m.
Proof.
  induction fuel as [|fuel IH]; intros ix0 output Hf; [lia|].
  cbn [kvLoop].
  destruct (index ix0 "=" input) as [i2|]; [|eauto].
  destruct (index ix0 "," input) as [i1|] eqn:E1; [|eauto].
  destruct (i1 <=? i2); [eauto|].
  apply index_found_bounds in E1. cbn [String.length] in E1.
  apply IH. lia.
Qed.

Lemma kv_positions (pre k v rest : string) :
  hasChar "=" k = false -> hasChar "," k = false -> hasChar "," v = false ->
  index (String.length pre) "=" (pre ++ k ++ "=" ++ v ++ rest)
  = Some (String.length pre + String.length k) /\
  substring (String.length pre) (String.length k)
    (pre ++ k ++ "=" ++ v ++ rest) = k /\
  substring (String.length pre + String.length k + 1) (String.length v)
    (pre ++ k ++ "=" ++ v ++ rest) = v /\
  substr_from (String.length pre + String.length k + 1)
    (pre ++ k ++ "=" ++ v ++ rest) = v ++ rest /\
  index (String.length pre) "," (pre ++ k ++ "=" ++ v ++ rest)
  = option_map (Nat.add (String.length pre + String.length k + 1
                         + String.length v))
      (index 0 "," rest).
Proof.
  intros Hk1 Hk2 Hv.
  assert (E0 : forall n, String.length pre + n = String.length pre + n)
    by reflexivity.
  split; [|split; [|split; [|split]]].
  - rewrite <- (Nat.add_0_r (String.length pre)) at 1.
    rewrite index_skip_append.
    change (k ++ "=" ++ v ++ rest) with (k ++ String "=" (v ++ rest)).
    rewrite index_char_first by assumption. cbn. f_equal.
  - rewrite <- (Nat.add_0_r (String.length pre)) at 1.
    rewrite substring_skip_append. apply substring_0_append.
  - replace (pre ++ k ++ "=" ++ v ++ rest)
      with ((pre ++ k ++ "=") ++ v ++ rest)
      by (now rewrite !append_assoc).
    replace (String.length pre + String.length k + 1)
      with (String.length (pre ++ k ++ "=") + 0)
      by (rewrite !length_append; cbn; lia).
    rewrite substring_skip_append. apply substring_0_append.
  - replace (pre ++ k ++ "=" ++ v ++ rest)
      with ((pre ++ k ++ "=") ++ v ++ rest)
      by (now rewrite !append_assoc).
    replace (String.length pre + String.length k + 1)
      with (String.length (pre ++ k ++ "="))
      by (rewrite !length_append; cbn; lia).
    apply substr_from_append.
  - replace (pre ++ k ++ "=" ++ v ++ rest)
      with (pre ++ (k ++ "=" ++ v) ++ rest)
      by (now rewrite !append_assoc).
    rewrite <- (Nat.add_0_r (String.length pre)) at 1.
    rewrite index_skip_append.
    assert (Hm : hasChar "," (k ++ "=" ++ v) = false).
    { rewrite !hasChar_append, Hk2, Hv. reflexivity. }
    assert (Hi : index 0 "," ((k ++ "=" ++ v) ++ rest)
                 = option_map (Nat.add (String.length (k ++ "=" ++ v)))
                     (index 0 "," rest)).
    { clear - Hm. induction (k ++ "=" ++ v) as [|x a IH];
        cbn [hasChar append String.length] in *.
      - destruct (index 0 "," rest); reflexivity.
      - destruct (Ascii.eqb "," x) eqn:E; [discriminate|].
        cbn [index]. rewrite (prefix_char_other "," "" x _ E), (IH Hm).
        destruct (index 0 "," rest); reflexivity. }
    rewrite Hi, !length_append. cbn [String.length].
    destruct (index 0 "," rest); cbn; [f_equal; lia | reflexivity].
Qed.

(** One turn of the loop on a pair followed by a comma. *)
Lemma kvLoop_pair_more fuel pre k v rest output :
  plainPair (k, v) ->
  kvLoop (S fuel) (pre ++ k ++ "=" ++ v ++ "," ++ rest) (String.length pre)
    output
  = kvLoop fuel (pre ++ k ++ "=" ++ v ++ "," ++ rest)
      (String.length (pre ++ k ++ "=" ++ v ++ ","))
      (mapInsert (k, v) output).
Proof.
  intros (Hk1 & Hk2 & Hv). cbn [fst snd] in *.
  destruct (kv_positions pre k v ("," ++ rest) Hk1 Hk2 Hv)
    as (E2 & Ek & Ev & _ & E1).
  cbn [kvLoop]. rewrite E2, E1.
  assert (Hc : index 0 "," ("," ++ rest) = Some 0).
  { change ("," ++ rest) with (String "," rest). cbn [index].
    now rewrite prefix_char_same. }
  rewrite Hc. cbn [option_map].
  destruct (Nat.leb_spec
              (String.length pre + String.length k + 1 + String.length v + 0)
              (String.length pre + String.length k)); [lia|].
  replace (String.length pre + String.length k - String.length pre)
    with (String.length k) by lia.
  replace (String.length pre + String.length k + 1 + String.length v + 0
           - (String.length pre + String.length k + 1))
    with (String.length v) by lia.
  rewrite Ek, Ev. f_equal.
  rewrite !length_append. cbn [String.length]. lia.
Qed.

(** The turn on the last pair, with nothing behind it. *)
Lemma kvLoop_pair_last fuel pre k v output :
  plainPair (k, v) ->
  kvLoop (S fuel) (pre ++ k ++ "=" ++ v) (String.length pre) output
  = Some (mapInsert (k, v) output).
Proof.
  intros (Hk1 & Hk2 & Hv). cbn [fst snd] in *.
  destruct (kv_positions pre k v "" Hk1 Hk2 Hv) as (E2 & Ek & _ & Ev & E1).
  rewrite !append_nil_r in *.
  cbn [kvLoop]. rewrite E2, E1. cbn [index option_map].
  replace (String.length pre + String.length k - String.length pre)
    with (String.length k) by lia.
  now rewrite Ek, Ev.
Qed.

Lemma kvLoop_render : forall kvs fuel pre output,
  kvs <> [] ->
  Forall plainPair kvs ->
  List.length kvs <= fuel ->
  kvLoop fuel (pre ++ renderPairs kvs) (String.length pre) output
  = Some (fold_left (fun m kv => mapInsert kv m) kvs output).
Proof.
  induction kvs as [|[k v] kvs IH]; intros fuel pre output Hne Hall Hf;
    [contradiction|].
  inversion Hall as [|? ? Hkv Hrest]; subst.
  destruct fuel as [|fuel]; [cbn in Hf; lia|].
  destruct kvs as [|kv2 kvs].
  - cbn [renderPairs fold_left]. now apply kvLoop_pair_last.
  - change (renderPairs ((k, v) :: kv2 :: kvs))
      with (k ++ "=" ++ v ++ "," ++ renderPairs (kv2 :: kvs)).
    rewrite kvLoop_pair_more by assumption. cbn [fold_left].
    replace (pre ++ k ++ "=" ++ v ++ "," ++ renderPairs (kv2 :: kvs))
      with ((pre ++ k ++ "=" ++ v ++ ",") ++ renderPairs (kv2 :: kvs))
      by (now rewrite !append_assoc).
    apply IH; [discriminate | assumption | cbn in *; lia].
Qed.

Lemma renderPairs_length kvs :
  List.length kvs <= S (String.length (renderPairs kvs)).
Proof.
  induction kvs as [|[k v] kvs IH]; [cbn; lia|].
  destruct kvs as [|kv2 kvs].
  - cbn. lia.
  - change (renderPairs ((k, v) :: kv2 :: kvs))
      with (k ++ "=" ++ v ++ "," ++ renderPairs (kv2 :: kvs)).
    rewrite !length_append. cbn [List.length String.length] in *. lia.
Qed.

Lemma mapFind_app k m1 m2 :
  mapFind k (m1 ++ m2)%list
  = match mapFind k m1 with Some v => Some v | None => mapFind k m2 end.
Proof.
  induction m1 as [|[k' v'] m1 IH]; cbn; [reflexivity|].
  destruct (String.eqb k k'); [reflexivity | exact IH].
Qed.

Lemma mapFind_inserts k : forall kvs m,
  mapFind k (fold_left (fun m kv => mapInsert kv m) kvs m)
  = match mapFind k m with Some v => Some v | None => mapFind k kvs end.
Proof.
  induction kvs as [|[k' v'] kvs IH]; intros m; cbn [fold_left].
  - cbn. destruct (mapFind k m); reflexivity.
  - rewrite IH. unfold mapInsert. cbn [fst mapFind].
    destruct (mapFind k' m) as [w|] eqn:Ek'.
    + destruct (mapFind k m) as [u|] eqn:Ek; [reflexivity|].
      destruct (String.eqb_spec k k') as [->|]; [congruence | reflexivity].
    + rewrite mapFind_app. cbn [mapFind].
      destruct (mapFind k m) as [u|]; [reflexivity|].
      destruct (String.eqb k k'); reflexivity.
Qed.

(** The options ["k1=v1,k2=v2,..."] come back as written: for keys without
    [=] and [,] and values without [,] (a value may hold [=]), looking up a
    key in the map returned gives the value of the first pair with that key
    in the text; a later pair with the same key is ignored. *)
Theorem key_value_pairs_round_trip
  (kvs : list (string * string)) (key : string) :
  Forall plainPair kvs ->
  exists m,
    getKeyValuePairsFromString (renderPairs kvs) = Some m /\
    mapFind key m = mapFind key kvs.
Proof.
  intros Hall. unfold getKeyValuePairsFromString.
  destruct kvs as [|kv kvs].
  - exists []. split; reflexivity.
  - eexists. split.
    + apply (kvLoop_render (kv :: kvs) _ "" []);
        [discriminate | assumption | apply renderPairs_length].
    + now rewrite mapFind_inserts.
Qed.

Lemma key_value_pairs_round_trip_witness :
  getKeyValuePairsFromString "rate=100,name=a=b,rate=7"
  = Some [("rate", "100"); ("name", "a=b")] /\
  exists m,
    getKeyValuePairsFromString
      (renderPairs [("rate", "100"); ("name", "a=b"); ("rate", "7")]) = Some m /\
    mapFind "rate" m = Some "100".
Proof.
  split; [reflexivity|].
  destruct (key_value_pairs_round_trip
              [("rate", "100"); ("name", "a=b"); ("rate", "7")] "rate")
    as (m & E & H).
  - repeat constructor.
  - exists m. split; [exact E | exact H].
Defined.

Lemma index_char_after c (item s : string) i :
  hasChar c item = false ->
  index 0 (String c "") (item ++ s) = Some i ->
  String.length item <= i.
Proof.
  revert i. induction item as [|x item IH]; intros i Hc; [cbn; lia|].
  cbn [hasChar] in Hc. destruct (Ascii.eqb c x) eqn:E; [discriminate|].
  cbn [append index]. rewrite (prefix_char_other c "" x _ E).
  destruct (index 0 (String c "") (item ++ s)) as [q|] eqn:Eq; [|discriminate].
  intros [= <-]. specialize (IH q Hc eq_refl). cbn. lia.
Qed.

(** The turn on an item that has no [=] before its comma. *)
Lemma kvLoop_bare_item fuel pre item rest output :
  hasChar "=" item = false -> hasChar "," item = false ->
  kvLoop (S fuel) (pre ++ item ++ "," ++ rest) (String.length pre) output
  = Some output.
Proof.
  intros He Hc. cbn [kvLoop].
  rewrite <- (Nat.add_0_r (String.length pre)).
  rewrite !index_skip_append.
  change (item ++ "," ++ rest) with (item ++ String "," rest).
  rewrite (index_char_first "," item rest Hc).
  destruct (index 0 "=" (item ++ String "," rest)) as [i2|] eqn:E2;
    [|reflexivity].
  apply index_char_after in E2; [|exact He]. cbn [option_map].
  destruct (Nat.leb_spec (String.length pre + String.length item)
              (String.length pre + i2)); [reflexivity | lia].
Qed.

(** Pairs, each followed by a comma, then [tail]. *)
Definition renderThen (kvs : list (string * string)) (tail : string) : string :=
  fold_right (fun kv acc => fst kv ++ "=" ++ snd kv ++ "," ++ acc) tail kvs.

Lemma kvLoop_renderThen item rest : forall kvs fuel pre output,
  Forall plainPair kvs ->
  hasChar "=" item = false -> hasChar "," item = false ->
  List.length kvs < fuel ->
  kvLoop fuel (pre ++ renderThen kvs (item ++ "," ++ rest))
    (String.length pre) output
  = Some (fold_left (fun m kv => mapInsert kv m) kvs output).
Proof.
  induction kvs as [|[k v] kvs IH]; intros fuel pre output Hall He Hc Hf;
    (destruct fuel as [|fuel]; [cbn in Hf; lia|]).
  - cbn [renderThen fold_right fold_left]. now apply kvLoop_bare_item.
  - inversion Hall as [|? ? Hkv Hrest]; subst.
    cbn [renderThen fold_right fst snd].
    fold (renderThen kvs (item ++ "," ++ rest)).
    rewrite kvLoop_pair_more by assumption. cbn [fold_left].
    replace (pre ++ k ++ "=" ++ v ++ ","
             ++ renderThen kvs (item ++ "," ++ rest))
      with ((pre ++ k ++ "=" ++ v ++ ",")
            ++ renderThen kvs (item ++ "," ++ rest))
      by (now rewrite !append_assoc).
    apply IH; try assumption. cbn in Hf. lia.
Qed.

Lemma renderThen_length kvs tail :
  List.length kvs <= String.length (renderThen kvs tail).
Proof.
  induction kvs as [|[k v] kvs IH]; cbn [renderThen fold_right fst snd];
    [cbn; lia|].
  fold (renderThen kvs tail). rewrite !length_append.
  cbn [List.length String.length]. lia.
Qed.

(** The parsing ends on every input, and it ends at the first item that has
    no [=] before its comma: the pairs in front of that item are in the map
    (the first one for each key), what stands behind it is not looked at;
    a text without any [=] gives the empty map. *)
Theorem key_value_pairs_stop_at_bare_item
  (kvs : list (string * string)) (item rest key : string) :
  Forall plainPair kvs ->
  hasChar "=" item = false -> hasChar "," item = false ->
  (forall input, exists m, getKeyValuePairsFromString input = Some m) /\
  (forall input, hasChar "=" input = false ->
                 getKeyValuePairsFromString input = Some []) /\
  exists m,
    getKeyValuePairsFromString (renderThen kvs (item ++ "," ++ rest)) = Some m /\
    mapFind key m = mapFind key kvs.
Proof.
  intros Hall He Hc. unfold getKeyValuePairsFromString. split; [|split].
  - intros input. apply kvLoop_total. lia.
  - intros input H. cbn [kvLoop]. now rewrite (index_none "=" "" input H).
  - eexists. split.
    + apply (kvLoop_renderThen item rest kvs _ "" []); try assumption.
      pose proof (renderThen_length kvs (item ++ "," ++ rest)). lia.
    + now rewrite mapFind_inserts.
Qed.

Lemma key_value_pairs_stop_at_bare_item_witness :
  getKeyValuePairsFromString "a=1,oops,b=2" = Some [("a", "1")] /\
  exists m,
    getKeyValuePairsFromString (renderThen [("a", "1")] ("oops" ++ "," ++ "b=2"))
    = Some m /\
    mapFind "b" m = None.
Proof.
  split; [reflexivity|].
  destruct (key_value_pairs_stop_at_bare_item [("a", "1")] "oops" "b=2" "b")
    as (_ & _ & m & E & H).
  - repeat constructor.
  - reflexivity.
  - reflexivity.
  - exists m. split; [exact E | exact H].
Defined.

End KeyValuePairs.


Section ListFromString.

Local Open Scope string_scope.
Local Open Scope nat_scope.

(** [std::getline(f, s, separator)] on the characters of the stream not
    read yet: it fails at the end of the input; otherwise it gives the
    characters up to the next separator, which it takes away, or all of
    them when there is none. *)
Definition getline (separator : ascii) (f : string) : option (string * string) :=
  match f with
  | "" => None
  | _ =>
      match index 0 (String separator "") f with
      | Some p => Some (substring 0 p f, substr_from (p + 1) f)
      | None => Some (f, "")
      end
  end.

(** [s.erase(s.find_last_not_of(blanks) + 1)] with
    [blanks = "\t\n\v\f\r "], the characters of [isSpace]. *)
Fixpoint eraseTrailingBlanks (s : string) : string :=
  match s with
  | "" => ""
  | String c r =>
      match eraseTrailingBlanks r with
      | "" => if isSpace c then "" else String c ""
      | r' => String c r'
      end
  end.

(** The two [erase] of the loop body; [skipSpaces] is
    [s.erase(0, s.find_first_not_of(blanks))]. *)
Definition trim (s : string) : string := skipSpaces (eraseTrailingBlanks s).

(** The loop [while (std::getline(f, s, separator))]. *)
Fixpoint listLoop (fuel : nat) (separator : ascii) (f : string)
  (output : list string) : option (list string) :=
  match fuel with
  | O => None
  | S fuel' =>
      match getline separator f with
      | None => Some output
      | Some (s, f') => listLoop fuel' separator f' (output ++ [trim s])%list
      end
  end.

Definition getListFromString (input : string) (output : list string)
  (separator : ascii) : option (list string) :=
  listLoop (S (String.length input)) separator input output.

Definition startsBlank (s : string) : bool :=
  match s with
  | String c _ => isSpace c
  | "" => false
  end.

Fixpoint endsBlank (s : string) : bool :=
  match s with
  | "" => false
  | String c r => match r with "" => isSpace c | _ => endsBlank r end
  end.

(** No blank at either end. *)
Definition trimmed (s : string) : Prop :=
  startsBlank s = false /\ endsBlank s = false.

(** The items joined by the separator. *)
Fixpoint joinWith (separator : ascii) (items : list string) : string :=
  match items with
  | [] => ""
  | [s] => s
  | s :: rest => s ++ String separator (joinWith separator rest)
  end.

Lemma eraseTrailingBlanks_ends s : endsBlank (eraseTrailingBlanks s) = false.
Proof.
  induction s as [|c r IH]; [reflexivity|]. cbn [eraseTrailingBlanks].
  destruct (eraseTrailingBlanks r) as [|y r'].
  - destruct (isSpace c) eqn:E; cbn; [reflexivity | exact E].
  - exact IH.
Qed.

Lemma skipSpaces_starts s : startsBlank (skipSpaces s) = false.
Proof.
  induction s as [|c r IH]; [reflexivity|]. cbn [skipSpaces].
  destruct (isSpace c) eqn:E; [exact IH | exact E].
Qed.

Lemma skipSpaces_ends s : endsBlank s = false -> endsBlank (skipSpaces s) = false.
Proof.
  induction s as [|c r IH]; [reflexivity|]. cbn [skipSpaces]. intros H.
  destruct (isSpace c); [|exact H].
  apply IH. destruct r; [reflexivity | exact H].
Qed.

Lemma trim_trimmed s : trimmed (trim s).
Proof.
  split; [apply skipSpaces_starts|].
  apply skipSpaces_ends, eraseTrailingBlanks_ends.
Qed.

Lemma getline_found separator (a b : string) :
  hasChar separator a = false ->
  getline separator (a ++ String separator b) = Some (a, b).
Proof.
  intros H. unfold getline.
  rewrite (index_char_first separator a b H).
  rewrite substring_0_append.
  replace (a ++ String separator b) with ((a ++ String separator "") ++ b)
    by (now rewrite append_assoc).
  replace (String.length a + 1) with (String.length (a ++ String separator ""))
    by (rewrite length_append; reflexivity).
  rewrite substr_from_append.
  destruct ((a ++ String separator "") ++ b) eqn:E; [|reflexivity].
  destruct a; discriminate.
Qed.

Lemma getline_last separator (s : string) :
  s <> "" -> hasChar separator s = false ->
  getline separator s = Some (s, "").
Proof.
  intros Hne H. unfold getline. rewrite (index_none separator "" s H).
  destruct s; [contradiction | reflexivity].
Qed.

Lemma getline_found_parts (a b : string) separator :
  (substring 0 (String.length a) (a ++ String separator b),
   substr_from (String.length a + 1) (a ++ String separator b)) = (a, b).
Proof.
  rewrite substring_0_append.
  replace (a ++ String separator b) with ((a ++ String separator "") ++ b)
    by (now rewrite append_assoc).
  replace (String.length a + 1) with (String.length (a ++ String separator ""))
    by (rewrite length_append; reflexivity).
  now rewrite substr_from_append.
Qed.

Lemma getline_shorter separator f s f' :
  getline separator f = Some (s, f') -> String.length f' < String.length f.
Proof.
  unfold getline. destruct f as [|x f]; [discriminate|].
  pose proof (index_char_spec separator (String x f)) as H.
  destruct (index 0 (String separator "") (String x f)) as [p|].
  - destruct H as (a & b & E & <- & Ha). rewrite E.
    intros [= _ <-]. rewrite <- E.
    pose proof (getline_found_parts a b separator) as Hp. rewrite <- E in Hp.
    injection Hp as _ Hp. rewrite Hp, E.
    rewrite length_append. cbn. lia.
  - intros [= _ <-]. cbn. lia.
Qed.

Lemma listLoop_items separator : forall fuel f output,
  String.length f < fuel ->
  exists items,
    listLoop fuel separator f output = Some (output ++ items)%list /\
    Forall trimmed items.
Proof.
  induction fuel as [|fuel IH]; intros f output Hf; [lia|].
  cbn [listLoop].
  destruct (getline separator f) as [[s f']|] eqn:E.
  - apply getline_shorter in E.
    destruct (IH f' (output ++ [trim s])%list ltac:(lia)) as (items & -> & Hall).
    exists (trim s :: items). rewrite <- app_assoc. split; [reflexivity|].
    constructor; [apply trim_trimmed | exact Hall].
  - exists []. rewrite app_nil_r. split; [reflexivity | constructor].
Qed.

Lemma listLoop_join separator : forall items fuel output,
  Forall (fun s => hasChar separator s = false /\ trim s = s) items ->
  last items "x" <> "" ->
  String.length (joinWith separator items) < fuel ->
  listLoop fuel separator (joinWith separator items) output
  = Some (output ++ items)%list.
Proof.
  induction items as [|s items IH]; intros fuel output Hall Hlast Hf;
    (destruct fuel as [|fuel]; [lia|]).
  - cbn. now rewrite app_nil_r.
  - inversion Hall as [|? ? [Hs Ht] Hrest]; subst.
    destruct items as [|s2 items].
    + cbn [joinWith last] in *. cbn [listLoop].
      rewrite (getline_last separator s Hlast Hs), Ht.
      destruct fuel as [|fuel]; [destruct s; [contradiction | cbn in Hf; lia]|].
      reflexivity.
    + change (joinWith separator (s :: s2 :: items))
        with (s ++ String separator (joinWith separator (s2 :: items))) in *.
      cbn [listLoop]. rewrite (getline_found separator s _ Hs), Ht.
      rewrite length_append in Hf. cbn [String.length] in Hf.
      rewrite (IH fuel (output ++ [s])%list Hrest Hlast ltac:(lia)).
      now rewrite <- app_assoc.
Qed.

(** [getListFromString] ends on every input, leaves what the vector held in
    front, and adds items that have no blank at either end, whatever the
    input and the separator. *)
Theorem list_items_are_trimmed
  (input : string) (output : list string) (separator : ascii) :
  exists items,
    getListFromString input output separator = Some (output ++ items)%list /\
    Forall trimmed items.
Proof. apply listLoop_items. lia. Qed.

(** A list of items written with the separator between them comes back as
    it was, behind what the vector held: the items hold no separator and no
    blank at either end, and the last one is not empty (an empty last item
    is not given back). *)
Theorem list_round_trip
  (items output : list string) (separator : ascii) :
  Forall (fun s => hasChar separator s = false /\ trim s = s) items ->
  last items "x" <> "" ->
  getListFromString (joinWith separator items) output separator
  = Some (output ++ items)%list.
Proof.
  intros Hall Hlast. apply listLoop_join; [assumption | assumption | lia].
Qed.

Lemma list_round_trip_witness :
  getListFromString "/tmp,,/var/log" ["/"] "," = Some ["/"; "/tmp"; ""; "/var/log"]
  /\ getListFromString (joinWith "," ["/tmp"; ""; "/var/log"]) ["/"] ","
     = Some (["/"] ++ ["/tmp"; ""; "/var/log"])%list.
Proof.
  split; [reflexivity|].
  apply (list_round_trip ["/tmp"; ""; "/var/log"] ["/"] ",").
  - repeat constructor.
  - discriminate.
Defined.

Example list_blanks_and_trailing_separator :
  getListFromString " a , b	,," [] "," = Some ["a"; "b"; ""].
Proof. reflexivity. Qed.

End ListFromString.

End ReadoutUtils.

(* ------------------------------------------------------------------ *)
(** ** ConsumerFMQchannel.cxx: page accounting in [DataBlock.userSpace] *)

Module FMQStats.

(** [struct DataBlockFMQStats], laid over [DataBlock.header.userSpace].
    Before [initDataBlockStats] the bytes are whatever the page held, so
    every field is arbitrary. *)
Record DataBlockFMQStats : Type := mkStats {
  magic : Z;                 (* uint8_t *)
  countRef : Z;              (* std::atomic<int> *)
  t0 : Z;                    (* uint64_t *)
  dataSizeAccounted : Z;     (* uint64_t *)
  memorySizeAccounted : Z    (* uint64_t *)
}.

(** The members of [gReadoutStats.counters] these functions touch. *)
Record Counters : Type := mkCounters {
  pagesPendingFairMQ : Z;
  pagesPendingFairMQreleased : Z;
  pagesPendingFairMQtime : Z;
  ddPayloadPendingBytes : Z;
  ddMemoryPendingBytes : Z;
  notify : Z
}.

(** Two's complement [int]. *)
Definition s32 (x : Z) : Z := (x + 2 ^ 31) mod 2 ^ 32 - 2 ^ 31.

Definition MAGIC : Z := 170.  (* 0xAA *)

Section Accounting.

(** ReadoutStats.h is not part of the sources at hand: the counters are
    unsigned atomics, their width [cw] is left open. *)
Variable cw : Z.

Definition cnt (x : Z) : Z := wrap cw x.

Definition initDataBlockStats (s : DataBlockFMQStats)
  (v_memorySizeAccounted : Z) : DataBlockFMQStats :=
  mkStats MAGIC 0 (t0 s) 0 v_memorySizeAccounted.

(** [now] is the value [timeNowMicrosec()] returns during the call. *)
Definition incDataBlockStats (now : Z) (g : Counters) (s : DataBlockFMQStats)
  (v_dataSizeAccounted : Z) : Counters * DataBlockFMQStats :=
  if negb (magic s =? MAGIC) then (g, s)
  else
    let old := countRef s in
    let '(g1, t) :=
      if old =? 0 then
        (mkCounters (cnt (pagesPendingFairMQ g + 1))
                    (pagesPendingFairMQreleased g)
                    (pagesPendingFairMQtime g)
                    (ddPayloadPendingBytes g)
                    (cnt (ddMemoryPendingBytes g + memorySizeAccounted s))
                    (cnt (notify g + 1)),
         now)
      else (g, t0 s) in
    (mkCounters (pagesPendingFairMQ g1)
                (pagesPendingFairMQreleased g1)
                (pagesPendingFairMQtime g1)
                (cnt (ddPayloadPendingBytes g1 + v_dataSizeAccounted))
                (ddMemoryPendingBytes g1)
                (notify g1),
     mkStats (magic s) (s32 (old + 1)) t
             (u64 (dataSizeAccounted s + v_dataSizeAccounted))
             (memorySizeAccounted s)).

Definition decDataBlockStats (now : Z) (g : Counters) (s : DataBlockFMQStats)
  : Counters * DataBlockFMQStats :=
  if negb (magic s =? MAGIC) then (g, s)
  else
    let c := s32 (countRef s - 1) in
    if c =? 0 then
      let timeUsed := u64 (now - t0 s) in
      (mkCounters (cnt (pagesPendingFairMQ g - 1))
                  (cnt (pagesPendingFairMQreleased g + 1))
                  (cnt (pagesPendingFairMQtime g + timeUsed))
                  (cnt (ddPayloadPendingBytes g - dataSizeAccounted s))
                  (cnt (ddMemoryPendingBytes g - memorySizeAccounted s))
                  (cnt (notify g + 1)),
       mkStats 0 c (t0 s) (dataSizeAccounted s) (memorySizeAccounted s))
    else
      (g, mkStats (magic s) c (t0 s) (dataSizeAccounted s)
                  (memorySizeAccounted s)).

(** A later use of the page by the transport side: one more reference or
    one release, each at its own clock reading. *)
Inductive Access : Type :=
| Inc (now : Z) (v_dataSizeAccounted : Z)
| Dec (now : Z).

Definition access (st : Counters * DataBlockFMQStats) (a : Access)
  : Counters * DataBlockFMQStats :=
  match a with
  | Inc now d => incDataBlockStats now (fst st) (snd st) d
  | Dec now => decDataBlockStats now (fst st) (snd st)
  end.

Definition accesses (l : list Access) (st : Counters * DataBlockFMQStats)
  : Counters * DataBlockFMQStats :=
  fold_left access l st.

(** *** Properties *)

Lemma inc_no_magic now g s d :
  magic s <> MAGIC -> incDataBlockStats now g s d = (g, s).
Proof.
  intros H. unfold incDataBlockStats.
  destruct (Z.eqb_spec (magic s) MAGIC); [contradiction | reflexivity].
Qed.

Lemma dec_no_magic now g s :
  magic s <> MAGIC -> decDataBlockStats now g s = (g, s).
Proof.
  intros H. unfold decDataBlockStats.
  destruct (Z.eqb_spec (magic s) MAGIC); [contradiction | reflexivity].
Qed.

Lemma accesses_no_magic l g s :
  magic s <> MAGIC -> accesses l (g, s) = (g, s).
Proof.
  intros H. induction l as [|a l IH]; [reflexivity|].
  unfold accesses in *. simpl fold_left.
  destruct a as [now d|now]; simpl access.
  - rewrite inc_no_magic by assumption. exact IH.
  - rewrite dec_no_magic by assumption. exact IH.
Qed.

End Accounting.

(** C9. Outside the in-flight window the accounting is inert: with a magic
    other than 0xAA neither function changes a counter or the block's stats;
    the first reference (count 0 to 1) adds the page to
    [pagesPendingFairMQ] and its memory size to [ddMemoryPendingBytes] and
    records [t0]; the last release (count 1 to 0) takes both away again and
    clears the magic, after which no sequence of further references or
    releases changes anything. *)
Theorem page_accounting_window
  (cw now : Z) (g : Counters) (s : DataBlockFMQStats) (d : Z) :
  (magic s <> MAGIC ->
     incDataBlockStats cw now g s d = (g, s) /\
     decDataBlockStats cw now g s = (g, s)) /\
  (magic s = MAGIC -> countRef s = 0 ->
     let '(g', s') := incDataBlockStats cw now g s d in
     pagesPendingFairMQ g' = wrap cw (pagesPendingFairMQ g + 1) /\
     ddMemoryPendingBytes g'
       = wrap cw (ddMemoryPendingBytes g + memorySizeAccounted s) /\
     t0 s' = now /\ countRef s' = 1 /\ magic s' = MAGIC) /\
  (magic s = MAGIC -> countRef s = 1 ->
     let '(g', s') := decDataBlockStats cw now g s in
     pagesPendingFairMQ g' = wrap cw (pagesPendingFairMQ g - 1) /\
     ddMemoryPendingBytes g'
       = wrap cw (ddMemoryPendingBytes g - memorySizeAccounted s) /\
     countRef s' = 0 /\ magic s' = 0 /\
     forall l, accesses cw l (g', s') = (g', s')).
Proof.
  split; [|split].
  - intros H. split; [apply inc_no_magic | apply dec_no_magic]; assumption.
  - intros Hm Hc. unfold incDataBlockStats. rewrite Hm, Hc. simpl.
    repeat split; reflexivity.
  - intros Hm Hc. unfold decDataBlockStats. rewrite Hm, Hc. simpl.
    repeat split; try reflexivity.
    intros l. apply accesses_no_magic. simpl. unfold MAGIC. lia.
Qed.

Definition exampleCounters : Counters := mkCounters 3 0 0 64 4096 7.
Definition exampleStats : DataBlockFMQStats := mkStats MAGIC 1 100 64 4096.

Lemma page_accounting_window_witness :
  magic exampleStats = MAGIC /\ countRef exampleStats = 1 /\
  accesses 64 [Inc 250 8; Dec 260; Dec 270]
           (decDataBlockStats 64 200 exampleCounters exampleStats)
  = (mkCounters 2 1 100 0 0 8, mkStats 0 0 100 64 4096).
Proof.
  split; [reflexivity|]. split; [reflexivity|].
  pose proof (page_accounting_window 64 200 exampleCounters exampleStats 0)
    as (_ & _ & H).
  specialize (H eq_refl eq_refl). cbv beta iota zeta in H.
  destruct (decDataBlockStats 64 200 exampleCounters exampleStats)
    as [g' s'] eqn:E.
  destruct H as (_ & _ & _ & _ & H).
  rewrite H. rewrite <- E. reflexivity.
Defined.


(** *** The whole life of a page on the transport side *)

(** A sequence of references and releases that starts from a reference
    count [c] and brings it to zero with its last release, not before. *)
Fixpoint balancedFrom (c : Z) (l : list Access) : bool :=
  match l with
  | [] => false
  | Inc _ _ :: r => balancedFrom (c + 1) r
  | Dec _ :: r =>
      if c =? 1 then match r with [] => true | _ => false end
      else (1 <? c) && balancedFrom (c - 1) r
  end.

(** The payload sizes handed to [incDataBlockStats] along a sequence. *)
Fixpoint accounted (l : list Access) : Z :=
  match l with
  | [] => 0
  | Inc _ d :: r => d + accounted r
  | Dec _ :: r => accounted r
  end.

Fixpoint sizesNonNegative (l : list Access) : Prop :=
  match l with
  | [] => True
  | Inc _ d :: r => 0 <= d /\ sizesNonNegative r
  | Dec _ :: r => sizesNonNegative r
  end.

Lemma accounted_nonneg l : sizesNonNegative l -> 0 <= accounted l.
Proof.
  induction l as [|[now d|now] l IH]; cbn; intros H; [lia| |auto].
  destruct H as [Hd H]. specialize (IH H). lia.
Qed.

Lemma s32_small x : - 2 ^ 31 <= x < 2 ^ 31 -> s32 x = x.
Proof.
  intros H. unfold s32. rewrite Z.mod_small; lia.
Qed.

Lemma cnt_sub_idemp cw a b : cnt cw (cnt cw a - b) = cnt cw (a - b).
Proof. unfold cnt, wrap. apply Zminus_mod_idemp_l. Qed.

Lemma cnt_add_idemp cw a b : cnt cw (cnt cw a + b) = cnt cw (a + b).
Proof. unfold cnt, wrap. apply Zplus_mod_idemp_l. Qed.

(** From a page in flight with [c] references to the release that brings
    the count to zero. *)
Lemma accesses_to_release cw : forall l g s,
  magic s = MAGIC ->
  1 <= countRef s ->
  countRef s + Z.of_nat (List.length l) < 2 ^ 31 ->
  balancedFrom (countRef s) l = true ->
  sizesNonNegative l ->
  0 <= dataSizeAccounted s ->
  dataSizeAccounted s + accounted l < 2 ^ 64 ->
  let '(g', s') := accesses cw l (g, s) in
  pagesPendingFairMQ g' = cnt cw (pagesPendingFairMQ g - 1) /\
  pagesPendingFairMQreleased g' = cnt cw (pagesPendingFairMQreleased g + 1) /\
  ddMemoryPendingBytes g'
  = cnt cw (ddMemoryPendingBytes g - memorySizeAccounted s) /\
  ddPayloadPendingBytes g'
  = cnt cw (ddPayloadPendingBytes g - dataSizeAccounted s) /\
  magic s' = 0 /\ countRef s' = 0.
Proof.
  induction l as [|[now d|now] l IH]; intros g s Hm Hc Hlen Hbal Hnn Ha0 Ha;
    [discriminate| |].
  - cbn [balancedFrom accounted sizesNonNegative List.length] in *.
    destruct Hnn as [Hd Hnn]. pose proof (accounted_nonneg l Hnn) as Hacc.
    unfold accesses. cbn [fold_left access fst snd].
    unfold incDataBlockStats. rewrite Hm, Z.eqb_refl. cbn [negb].
    destruct (Z.eqb_spec (countRef s) 0) as [|_]; [lia|].
    cbn [pagesPendingFairMQ pagesPendingFairMQreleased pagesPendingFairMQtime
         ddPayloadPendingBytes ddMemoryPendingBytes notify].
    rewrite s32_small by lia. rewrite u64_small by lia.
    match goal with |- context [fold_left _ l (?g1, ?s1)] =>
      specialize (IH g1 s1); fold (accesses cw l (g1, s1)) end.
    cbn [magic countRef dataSizeAccounted memorySizeAccounted
         pagesPendingFairMQ pagesPendingFairMQreleased
         ddPayloadPendingBytes ddMemoryPendingBytes] in IH.
    specialize (IH eq_refl ltac:(lia) ltac:(lia) Hbal Hnn ltac:(lia) ltac:(lia)).
    destruct (accesses cw l _) as [g' s'].
    destruct IH as (H1 & H2 & H3 & H4 & H5 & H6).
    repeat split; try assumption.
    rewrite H4, cnt_sub_idemp. f_equal. lia.
  - cbn [balancedFrom accounted sizesNonNegative List.length] in *.
    unfold accesses. cbn [fold_left access fst snd].
    unfold decDataBlockStats. rewrite Hm, Z.eqb_refl. cbn [negb].
    rewrite s32_small by lia.
    destruct (Z.eqb_spec (countRef s) 1) as [H1|H1].
    + destruct l; [|discriminate]. rewrite H1. cbn. repeat split; reflexivity.
    + apply andb_true_iff in Hbal. destruct Hbal as [Hgt Hbal].
      apply Z.ltb_lt in Hgt.
      destruct (Z.eqb_spec (countRef s - 1) 0) as [|_]; [lia|].
      match goal with |- context [fold_left _ l (?g1, ?s1)] =>
        specialize (IH g1 s1); fold (accesses cw l (g1, s1)) end.
      cbn [magic countRef dataSizeAccounted memorySizeAccounted] in IH.
      specialize (IH eq_refl ltac:(lia) ltac:(lia) Hbal Hnn Ha0 Ha).
      exact IH.
Qed.

(** A page set up by [initDataBlockStats] and then referenced and released
    any number of times, the count coming back to zero with the last
    release: the gauges [pagesPendingFairMQ], [ddMemoryPendingBytes] and
    [ddPayloadPendingBytes] are back to what they were before the first
    reference, one page more has been counted released, and the page is
    marked as no longer in flight. *)
Theorem page_accounting_balanced
  (cw : Z) (g : Counters) (s : DataBlockFMQStats) (memorySize : Z)
  (l : list Access) :
  balancedFrom 0 l = true ->
  Z.of_nat (List.length l) < 2 ^ 31 ->
  sizesNonNegative l ->
  accounted l < 2 ^ 64 ->
  let '(g', s') := accesses cw l (g, initDataBlockStats s memorySize) in
  pagesPendingFairMQ g' = cnt cw (pagesPendingFairMQ g) /\
  ddMemoryPendingBytes g' = cnt cw (ddMemoryPendingBytes g) /\
  ddPayloadPendingBytes g' = cnt cw (ddPayloadPendingBytes g) /\
  pagesPendingFairMQreleased g' = cnt cw (pagesPendingFairMQreleased g + 1) /\
  magic s' = 0 /\ countRef s' = 0.
Proof.
  destruct l as [|[now d|now] l]; [discriminate| |discriminate].
  cbn [balancedFrom accounted sizesNonNegative List.length Z.add].
  intros Hbal Hlen [Hd Hnn] Ha.
  pose proof (accounted_nonneg l Hnn) as Hacc.
  unfold accesses. cbn [fold_left access fst snd].
  unfold incDataBlockStats, initDataBlockStats.
  cbn [magic countRef t0 dataSizeAccounted memorySizeAccounted].
  rewrite Z.eqb_refl.
  cbn [Z.eqb negb pagesPendingFairMQ pagesPendingFairMQreleased
       pagesPendingFairMQtime ddPayloadPendingBytes ddMemoryPendingBytes notify].
  change (s32 (0 + 1)) with 1. rewrite u64_small by lia.
  match goal with |- context [fold_left _ l (?g1, ?s1)] =>
    pose proof (accesses_to_release cw l g1 s1) as H;
    fold (accesses cw l (g1, s1)) end.
  cbn [magic countRef dataSizeAccounted memorySizeAccounted
       pagesPendingFairMQ pagesPendingFairMQreleased
       ddPayloadPendingBytes ddMemoryPendingBytes] in H.
  specialize (H eq_refl ltac:(lia) ltac:(lia) Hbal Hnn ltac:(lia) ltac:(lia)).
  destruct (accesses cw l _) as [g' s'].
  destruct H as (H1 & H2 & H3 & H4 & H5 & H6).
  repeat split; try assumption.
  - rewrite H1, cnt_sub_idemp. f_equal. lia.
  - rewrite H3, cnt_sub_idemp. f_equal. lia.
  - rewrite H4, cnt_sub_idemp. f_equal. lia.
Qed.

Lemma page_accounting_balanced_witness :
  accesses 64 [Inc 100 64; Inc 110 32; Dec 150; Inc 160 8; Dec 170; Dec 180]
    (exampleCounters, initDataBlockStats exampleStats 4096)
  = (mkCounters 3 1 80 64 4096 9, mkStats 0 0 100 104 4096) /\
  pagesPendingFairMQ (fst
    (accesses 64 [Inc 100 64; Inc 110 32; Dec 150; Inc 160 8; Dec 170; Dec 180]
       (exampleCounters, initDataBlockStats exampleStats 4096)))
  = cnt 64 (pagesPendingFairMQ exampleCounters).
Proof.
  split; [reflexivity|].
  pose proof (page_accounting_balanced 64 exampleCounters exampleStats 4096
                [Inc 100 64; Inc 110 32; Dec 150; Inc 160 8; Dec 170; Dec 180])
    as H.
  destruct (accesses 64 _ _) as [g' s'].
  destruct H as (H & _).
  - reflexivity.
  - cbn. lia.
  - cbn. lia.
  - cbn. lia.
  - exact H.
Defined.

End FMQStats.

(* ------------------------------------------------------------------ *)
(** ** ReadoutEquipment.cxx *)

Module Equipment.

(** What an [RdhHandle] placed on payload bytes answers.  RdhUtils is not
    among the sources at hand; the getters are taken as they are called. *)
Record RdhHandle : Type := mkRdh {
  validateRdh : Z;            (* 0 when the header is well formed *)
  getHbOrbit : Z;             (* uint32 *)
  getTriggerOrbit : Z;        (* uint32 *)
  getSystemId : Z;
  getFeeId : Z;
  getCruId : Z;
  getEndPointId : Z;
  getLinkId : Z;
  getOffsetNextPacket : Z     (* uint16 *)
}.

(** The members behind timeframe identification. *)
Record TimeframeState : Type := mkTF {
  currentTimeframe : Z;                         (* uint64 *)
  statsNumberOfTimeframes : Z;
  firstTimeframeHbOrbitBegin : Z;               (* uint32 *)
  isDefinedFirstTimeframeHbOrbitBegin : bool
}.

Record RdhStats : Type := mkRdhStats {
  statsRdhCheckOk : Z;
  statsRdhCheckErr : Z;
  statsRdhCheckStreamErr : Z
}.

(** Constructor: [int cfgTFperiod = 256], overridden by the configuration
    key [TFperiod] when present, then stored in [timeframePeriodOrbits]. *)
Definition configTFperiod (cfgValue : option Z) : Z :=
  let cfgTFperiod := match cfgValue with Some v => v | None => 256 end in
  u32 cfgTFperiod.

Section Identification.

Variable U : Sentinels.
Variable timeframePeriodOrbits : Z.     (* getTimeframePeriodOrbits() *)

(** The part of [initCounters] that resets timeframe identification. *)
Definition initCounters_tf : TimeframeState :=
  mkTF (undefinedTimeframeId U) 0 (undefinedOrbit U) false.

Definition initCounters_rdh : RdhStats := mkRdhStats 0 0 0.

(** [getTimeframeFromOrbit]: the operands are unsigned 32-bit, so are the
    difference, the quotient and the sum; the result is widened. *)
Definition getTimeframeFromOrbit (st : TimeframeState) (hbOrbit : Z)
  : TimeframeState * Z :=
  let first :=
    if isDefinedFirstTimeframeHbOrbitBegin st
    then firstTimeframeHbOrbitBegin st else hbOrbit in
  let tfId := u32 (1 + u32 (hbOrbit - first) / timeframePeriodOrbits) in
  let n :=
    if negb (tfId =? currentTimeframe st)
    then u64 (statsNumberOfTimeframes st + 1)
    else statsNumberOfTimeframes st in
  (mkTF tfId n first true, tfId).

Definition getTimeframeOrbitRange (st : TimeframeState) (tfId : Z) : Z * Z :=
  if tfId =? undefinedTimeframeId U then (undefinedOrbit U, undefinedOrbit U)
  else if negb (isDefinedFirstTimeframeHbOrbitBegin st)
  then (undefinedOrbit U, undefinedOrbit U)
  else
    let hbOrbitMin :=
      u32 (firstTimeframeHbOrbitBegin st + (tfId - 1) * timeframePeriodOrbits) in
    (hbOrbitMin, u32 (hbOrbitMin + timeframePeriodOrbits - 1)).

Definition tagDatablockFromRdh (st : TimeframeState) (h : RdhHandle)
  (bh : DataBlockHeader) : TimeframeState * DataBlockHeader * Z :=
  if negb (validateRdh h =? 0) then
    let '(first, last) := getTimeframeOrbitRange st (undefinedTimeframeId U) in
    (st,
     with_tags (undefinedTimeframeId U) (undefinedSystemId U)
       (undefinedFeeId U) (undefinedEquipmentId U) (undefinedLinkId U)
       first last bh,
     1)
  else
    let '(st1, tfId) := getTimeframeFromOrbit st (getHbOrbit h) in
    let eq0 := u16 (getCruId h * 10 + getEndPointId h) in
    let eq := if eq0 =? 0 then undefinedEquipmentId U else eq0 in
    let '(first, last) := getTimeframeOrbitRange st1 tfId in
    (st1,
     with_tags tfId (getSystemId h) (getFeeId h) eq (getLinkId h)
       first last bh,
     0).

(** Successive calls of [getTimeframeFromOrbit], one per orbit observed. *)
Fixpoint observeOrbits (st : TimeframeState) (orbits : list Z)
  : TimeframeState * list Z :=
  match orbits with
  | [] => (st, [])
  | o :: rest =>
      let '(st1, tf) := getTimeframeFromOrbit st o in
      let '(st2, tfs) := observeOrbits st1 rest in
      (st2, tf :: tfs)
  end.

(** The test "check no timeframe overlap in page" of [processRdh]. *)
Definition orbitOutOfRange (bh : DataBlockHeader) (h : RdhHandle) : bool :=
  let first := timeframeOrbitFirst bh in
  let last := timeframeOrbitLast bh in
  let orbit := getTriggerOrbit h in
  ((first <? last) && ((orbit <? first) || (orbit >? last)))
  || ((first >? last) && ((orbit <? first) && (orbit >? last))).

Definition okRdh (s : RdhStats) : RdhStats :=
  mkRdhStats (u64 (statsRdhCheckOk s + 1)) (statsRdhCheckErr s)
    (statsRdhCheckStreamErr s).

Definition errRdh (s : RdhStats) : RdhStats :=
  mkRdhStats (statsRdhCheckOk s) (u64 (statsRdhCheckErr s + 1))
    (statsRdhCheckStreamErr s).

Definition streamErrRdh (s : RdhStats) : RdhStats :=
  mkRdhStats (statsRdhCheckOk s) (statsRdhCheckErr s)
    (u64 (statsRdhCheckStreamErr s + 1)).

(** The loop [for (size_t pageOffset = 0; pageOffset < blockSize;)] of
    [processRdh], with [rdhAt pageOffset] the handle placed at
    [baseAddress + pageOffset].  Next to the counters it returns the offsets
    of the headers it has examined, in order.  [None] stands for a loop that
    has not ended within [fuel] turns. *)
Fixpoint rdhCheckLoop (fuel : nat) (rdhAt : Z -> RdhHandle)
  (bh : DataBlockHeader) (blockSize pageOffset linkId : Z) (s : RdhStats)
  : option (RdhStats * list Z) :=
  match fuel with
  | O => None
  | S fuel' =>
      if pageOffset <? blockSize then
        let h := rdhAt pageOffset in
        if negb (validateRdh h =? 0) then Some (errRdh s, [pageOffset])
        else
          let s1 := okRdh s in
          let linkId1 := if pageOffset =? 0 then getLinkId h else linkId in
          if negb (linkId1 =? getLinkId h)
          then Some (streamErrRdh s1, [pageOffset])
          else if orbitOutOfRange bh h
          then Some (streamErrRdh s1, [pageOffset])
          else
            let offsetNextPacket := u16 (getOffsetNextPacket h) in
            if offsetNextPacket =? 0 then Some (s1, [pageOffset])
            else
              match rdhCheckLoop fuel' rdhAt bh blockSize
                      (pageOffset + offsetNextPacket) linkId1 s1 with
              | Some (s', ex) => Some (s', pageOffset :: ex)
              | None => None
              end
      else Some (s, [])
  end.

(** The walk over one page, as [processRdh] starts it. *)
Definition rdhCheckPage (rdhAt : Z -> RdhHandle) (bh : DataBlockHeader)
  (s : RdhStats) : option (RdhStats * list Z) :=
  rdhCheckLoop (S (Z.to_nat (dataSize bh))) rdhAt bh (dataSize bh) 0
    (undefinedLinkId U) s.

Section ProcessRdh.

Variable decodeRdh : list Byte.byte -> Z -> RdhHandle.
Variable cfgRdhUseFirstInPageEnabled cfgRdhCheckEnabled : bool.

(** [processRdh] for a page with payload.  The dump of headers on the
    console ([cfgRdhDumpEnabled]) leaves page and counters alone and is not
    carried. *)
Definition processRdh (st : TimeframeState) (s : RdhStats) (block : DataBlock)
  : TimeframeState * RdhStats * DataBlock :=
  let '(st1, bh1) :=
    if cfgRdhUseFirstInPageEnabled || cfgRdhCheckEnabled then
      let '(st', bh', isError) :=
        tagDatablockFromRdh st (decodeRdh (data block) 0) (header block) in
      (st', if isError =? 0 then with_isRdhFormat true bh' else bh')
    else (st, header block) in
  let s1 :=
    if cfgRdhCheckEnabled then
      match rdhCheckPage (decodeRdh (data block)) bh1 s with
      | Some (s', _) => s'
      | None => s
      end
    else s in
  (st1, s1, with_header bh1 block).

End ProcessRdh.

End Identification.

(** *** The readout loop *)

Inductive CallbackResult : Type := Ok | Idle | Error.

(** What [getNextBlock()] does: a page, no page, or an exception. *)
Inductive NextBlock : Type :=
| GotBlock (b : DataBlock)
| NoBlock
| Threw.

(** The two virtual functions the loop calls on the concrete equipment,
    over the state [Sub] of that equipment. *)
Class EquipmentImpl (Sub : Type) : Type := {
  getNextBlock : Sub -> Sub * NextBlock;
  prepareBlocks : Sub -> Sub * CallbackResult
}.

(** The counters of [equipmentStats] that take part in the control flow or
    in the accounting of pages (the gauges set from the FIFO and the pool
    are left out). *)
Record LoopStats : Type := mkLoopStats {
  nLoop : Z;
  nThrottle : Z;
  nBlocksOut : Z;
  nBytesOut : Z;
  nOutputFull : Z;
  nIdle : Z
}.

Record Config : Type := mkConfig {
  id : Z;                               (* uint16 *)
  readoutRate : double;                 (* Hz *)
  disableOutput : bool;
  cfgRdhUseFirstInPageEnabled : bool;
  cfgRdhCheckEnabled : bool;
  isRdhEquipment : bool;
  usingSoftwareClock : bool;
  timeframePeriodOrbits : Z;
  outputFifoSize : Z
}.

Record State (Sub : Type) : Type := mkState {
  currentBlockId : Z;                   (* uint64 *)
  isDataOn : bool;
  tfState : TimeframeState;
  rdhStats : RdhStats;
  equipmentStats : LoopStats;
  dataOut : list DataBlock;             (* output FIFO, oldest first *)
  impl : Sub
}.

Arguments mkState {Sub}.
Arguments currentBlockId {Sub}.
Arguments isDataOn {Sub}.
Arguments tfState {Sub}.
Arguments rdhStats {Sub}.
Arguments equipmentStats {Sub}.
Arguments dataOut {Sub}.
Arguments impl {Sub}.

(** What one call of [threadCallback] reads from outside the object. *)
Record IterationEnv : Type := mkEnv {
  clk0_getTime : double;                (* seconds since start *)
  clk_isTimeout : bool;                 (* rate clock at its next tick *)
  timeframeClock_isTimeout : bool;
  occRunNumber : Z
}.

Section Loop.

Variable U : Sentinels.
Variable decodeRdh : list Byte.byte -> Z -> RdhHandle.
Context {Sub : Type} {I : EquipmentImpl Sub}.
Variable cfg : Config.

(** [start()]: the members reset before the thread is started. *)
Definition start (st : State Sub) : State Sub :=
  mkState 0 false (initCounters_tf U) initCounters_rdh
    (mkLoopStats 0 0 0 0 0 0) (dataOut st) (impl st).

Definition dataOut_isFull (st : State Sub) : bool :=
  outputFifoSize cfg <=? Z.of_nat (List.length (dataOut st)).

(** The stamps put on a page between [getNextBlock()] and the push. *)
Definition stampBlock (env : IterationEnv) (newBlockId : Z)
  (tf : TimeframeState) (b : DataBlock) : DataBlock :=
  let h1 :=
    if negb (id cfg =? undefinedEquipmentId U)
    then with_equipmentId (id cfg) (header b) else header b in
  let h2 := with_blockId newBlockId h1 in
  let h3 :=
    if timeframeId h2 =? undefinedTimeframeId U
    then with_timeframeId (currentTimeframe tf) h2 else h2 in
  with_header (with_runNumber (occRunNumber env) h3) b.

(** The loop [for (int i = 0; i < maxBlocksToRead; i++)], with [n] the
    number of turns left.  Returns the pages stamped, in order. *)
Fixpoint readBlocks (n : nat) (env : IterationEnv) (st : State Sub)
  : State Sub * list DataBlock :=
  match n with
  | O => (st, [])
  | S n' =>
      let e := equipmentStats st in
      if dataOut_isFull st then
        (mkState (currentBlockId st) (isDataOn st) (tfState st) (rdhStats st)
           (mkLoopStats (nLoop e) (nThrottle e) (nBlocksOut e) (nBytesOut e)
              (u64 (nOutputFull e + 1)) (nIdle e))
           (dataOut st) (impl st),
         [])
      else
        match getNextBlock (impl st) with
        | (i', GotBlock nextBlock) =>
            let '(tf1, rs1, b1) :=
              if isRdhEquipment cfg then
                processRdh U (timeframePeriodOrbits cfg) decodeRdh
                  (cfgRdhUseFirstInPageEnabled cfg) (cfgRdhCheckEnabled cfg)
                  (tfState st) (rdhStats st) nextBlock
              else (tfState st, rdhStats st, nextBlock) in
            let newBlockId := u64 (currentBlockId st + 1) in
            let b2 := stampBlock env newBlockId tf1 b1 in
            let e1 :=
              mkLoopStats (nLoop e) (nThrottle e) (nBlocksOut e)
                (u64 (nBytesOut e + dataSize (header b2)))
                (nOutputFull e) (nIdle e) in
            let out := if disableOutput cfg then dataOut st
                       else dataOut st ++ [b2] in
            let '(st', l) :=
              readBlocks n' env
                (mkState newBlockId (isDataOn st) tf1 rs1 e1 out i') in
            (st', b2 :: l)
        | (i', _) =>
            (mkState (currentBlockId st) (isDataOn st) (tfState st)
               (rdhStats st) e (dataOut st) i',
             [])
        end
  end.

(** The right-hand side of
    [maxBlocksToRead = ptr->readoutRate * ptr->clk0.getTime() - nBlocksOut]:
    the product of two doubles, less the [uint64_t] counter converted to
    double, each operation rounded on its own. *)
Definition budgetValue (env : IterationEnv) (st : State Sub) : double :=
  double_sub (double_mul (readoutRate cfg) (clk0_getTime env))
    (double_of_Z (nBlocksOut (equipmentStats st))).

(** The value stored in [int maxBlocksToRead]. *)
Definition blockBudget (env : IterationEnv) (st : State Sub) : Z :=
  toInt (budgetValue env st).

(** The test that ends the iteration at "target block rate exceeded". *)
Definition throttled (env : IterationEnv) (st : State Sub) : bool :=
  double_gt_zero (readoutRate cfg)
  && negb (clk_isTimeout env)
  && negb (nBlocksOut (equipmentStats st) =? 0)
  && (blockBudget env st <=? 0).

Definition with_stats (e : LoopStats) (st : State Sub) : State Sub :=
  mkState (currentBlockId st) (isDataOn st) (tfState st) (rdhStats st) e
    (dataOut st) (impl st).

Definition with_impl (i : Sub) (st : State Sub) : State Sub :=
  mkState (currentBlockId st) (isDataOn st) (tfState st) (rdhStats st)
    (equipmentStats st) (dataOut st) i.

Definition countIdle (st : State Sub) : State Sub :=
  let e := equipmentStats st in
  with_stats (mkLoopStats (nLoop e) (nThrottle e) (nBlocksOut e) (nBytesOut e)
                (nOutputFull e) (u64 (nIdle e + 1))) st.

(** The tail of [threadCallback]: idle unless something was done. *)
Definition finish (isActive : bool) (st : State Sub) (out : list DataBlock)
  : State Sub * list DataBlock * CallbackResult :=
  if isActive then (st, out, Ok) else (countIdle st, out, Idle).

(** One call of [threadCallback].  Returns the pages stamped during the
    call, in the order [getNextBlock()] returned them. *)
Definition threadCallback (env : IterationEnv) (st : State Sub)
  : State Sub * list DataBlock * CallbackResult :=
  let tf0 := tfState st in
  let tf1 :=
    if usingSoftwareClock cfg && timeframeClock_isTimeout env
    then mkTF (u64 (currentTimeframe tf0 + 1))
              (u64 (statsNumberOfTimeframes tf0 + 1))
              (firstTimeframeHbOrbitBegin tf0)
              (isDefinedFirstTimeframeHbOrbitBegin tf0)
    else tf0 in
  let e0 := equipmentStats st in
  let st1 :=
    mkState (currentBlockId st) (isDataOn st) tf1 (rdhStats st)
      (mkLoopStats (u64 (nLoop e0 + 1)) (nThrottle e0) (nBlocksOut e0)
         (nBytesOut e0) (nOutputFull e0) (nIdle e0))
      (dataOut st) (impl st) in
  if throttled env st1 then
    let e1 := equipmentStats st1 in
    finish false
      (with_stats (mkLoopStats (nLoop e1) (u64 (nThrottle e1 + 1))
                     (nBlocksOut e1) (nBytesOut e1) (nOutputFull e1)
                     (nIdle e1)) st1)
      []
  else
    let maxBlocksToRead :=
      if double_gt_zero (readoutRate cfg) then blockBudget env st1 else 1024 in
    let '(st2, out) := readBlocks (Z.to_nat maxBlocksToRead) env st1 in
    let e2 := equipmentStats st2 in
    let st3 :=
      with_stats (mkLoopStats (nLoop e2) (nThrottle e2)
                    (u64 (nBlocksOut e2 + Z.of_nat (List.length out)))
                    (nBytesOut e2) (nOutputFull e2) (nIdle e2)) st2 in
    let isActive := match out with [] => false | _ => true end in
    if isDataOn st3 then
      match prepareBlocks (impl st3) with
      | (i', Ok) => finish true (with_impl i' st3) out
      | (i', Idle) => finish isActive (with_impl i' st3) out
      | (i', Error) => (with_impl i' st3, out, Error)
      end
    else finish isActive st3 out.

(** What happens to the object between [start()] and [stop()]: calls of
    [threadCallback] by the readout thread, [setDataOn()], [setDataOff()]
    and [getBlock()] by the owner. *)
Inductive Event : Type :=
| Iterate (env : IterationEnv)
| SetDataOn
| SetDataOff
| GetBlock.

Definition with_isDataOn (v : bool) (st : State Sub) : State Sub :=
  mkState (currentBlockId st) v (tfState st) (rdhStats st)
    (equipmentStats st) (dataOut st) (impl st).

Definition getBlock (st : State Sub) : State Sub :=
  mkState (currentBlockId st) (isDataOn st) (tfState st) (rdhStats st)
    (equipmentStats st) (tl (dataOut st)) (impl st).

Definition step (ev : Event) (st : State Sub) : State Sub * list DataBlock :=
  match ev with
  | Iterate env => let '(st', out, _) := threadCallback env st in (st', out)
  | SetDataOn => (with_isDataOn true st, [])
  | SetDataOff => (with_isDataOn false st, [])
  | GetBlock => (getBlock st, [])
  end.

(** A run: the pages stamped over a sequence of events, in order. *)
Fixpoint run (evs : list Event) (st : State Sub) : State Sub * list DataBlock :=
  match evs with
  | [] => (st, [])
  | ev :: rest =>
      let '(st1, out) := step ev st in
      let '(st2, outs) := run rest st1 in
      (st2, out ++ outs)
  end.

End Loop.

(** *** Timeframe identification *)

Definition tfIdOfOrbit (period first o : Z) : Z :=
  u32 (1 + u32 (o - first) / period).

Lemma getTimeframeFromOrbit_defined period st o :
  isDefinedFirstTimeframeHbOrbitBegin st = true ->
  let '(st', tf) := getTimeframeFromOrbit period st o in
  tf = tfIdOfOrbit period (firstTimeframeHbOrbitBegin st) o /\
  currentTimeframe st' = tf /\
  firstTimeframeHbOrbitBegin st' = firstTimeframeHbOrbitBegin st /\
  isDefinedFirstTimeframeHbOrbitBegin st' = true.
Proof.
  intros Hd. unfold getTimeframeFromOrbit. rewrite Hd. simpl.
  repeat split; reflexivity.
Qed.

Lemma observeOrbits_defined period orbits : forall st,
  isDefinedFirstTimeframeHbOrbitBegin st = true ->
  let '(st', tfs) := observeOrbits period st orbits in
  tfs = map (tfIdOfOrbit period (firstTimeframeHbOrbitBegin st)) orbits /\
  firstTimeframeHbOrbitBegin st' = firstTimeframeHbOrbitBegin st /\
  isDefinedFirstTimeframeHbOrbitBegin st' = true.
Proof.
  induction orbits as [|o rest IH]; intros st Hd.
  - simpl. auto.
  - cbn [observeOrbits].
    pose proof (getTimeframeFromOrbit_defined period st o Hd) as H1.
    destruct (getTimeframeFromOrbit period st o) as [st1 tf].
    destruct H1 as (Htf & _ & Hf & Hd1).
    specialize (IH st1 Hd1).
    destruct (observeOrbits period st1 rest) as [st2 tfs].
    destruct IH as (Htfs & Hf2 & Hd2).
    rewrite Hf in Htfs, Hf2. cbn [map]. subst tf tfs. auto.
Qed.

Lemma tfIdOfOrbit_plain period first o :
  0 < period -> 0 <= first <= o -> o < 2 ^ 32 ->
  (o - first) / period < 2 ^ 32 - 1 ->
  tfIdOfOrbit period first o = 1 + (o - first) / period.
Proof.
  intros Hp Hfo Ho Hq. unfold tfIdOfOrbit.
  rewrite (u32_small (o - first)) by lia.
  apply u32_small.
  pose proof (Z.div_pos (o - first) period). lia.
Qed.

(** C4. In RDH-derived timeframe identification the first heartbeat orbit
    observed is recorded as the first orbit and maps to timeframe 1, and
    every orbit [o] observed from then on maps to
    [1 + (o - firstOrbit) / TFperiod], the difference being the one of
    unsigned 32-bit orbit counters (the plain difference whenever [o] is not
    below the first orbit); [TFperiod] is 256 when the configuration gives
    none. *)
Theorem timeframe_id_from_orbit
  (U : Sentinels) (period o0 : Z) (rest : list Z) :
  0 < period ->
  configTFperiod None = 256 /\
  let '(st, tfs) := observeOrbits period (initCounters_tf U) (o0 :: rest) in
  firstTimeframeHbOrbitBegin st = o0 /\
  hd 0 tfs = 1 /\
  tfs = map (fun o => u32 (1 + u32 (o - o0) / period)) (o0 :: rest) /\
  (forall n o, nth_error (o0 :: rest) n = Some o ->
     0 <= o0 <= o -> o < 2 ^ 32 -> (o - o0) / period < 2 ^ 32 - 1 ->
     nth_error tfs n = Some (1 + (o - o0) / period)).
Proof.
  intros Hp. split; [reflexivity|].
  cbn [observeOrbits].
  unfold getTimeframeFromOrbit at 1. cbn [initCounters_tf
    isDefinedFirstTimeframeHbOrbitBegin firstTimeframeHbOrbitBegin].
  set (st1 := mkTF _ _ o0 true).
  pose proof (observeOrbits_defined period rest st1 eq_refl) as H.
  destruct (observeOrbits period st1 rest) as [st2 tfs].
  destruct H as (Htfs & Hf & _). subst st1. cbn in Hf, Htfs.
  assert (H1 : u32 (1 + u32 (o0 - o0) / period) = 1).
  { rewrite Z.sub_diag. reflexivity. }
  repeat split.
  - exact Hf.
  - cbn [hd]. exact H1.
  - cbn [map]. rewrite Htfs. reflexivity.
  - intros n o Hn Hle Ho Hq.
    assert (Hall : u32 (1 + u32 (o0 - o0) / period) :: tfs
                   = map (tfIdOfOrbit period o0) (o0 :: rest)).
    { cbn [map]. rewrite Htfs. reflexivity. }
    rewrite Hall. rewrite nth_error_map, Hn. cbn [option_map].
    f_equal. apply tfIdOfOrbit_plain; lia.
Qed.

Lemma timeframe_id_from_orbit_witness :
  0 < 256 /\
  observeOrbits (configTFperiod None)
    (initCounters_tf (mkSentinels 0 65535 255 255 65535 0))
    [1000; 1255; 1256; 2000; 1000]
  = (mkTF 1 4 1000 true, [1; 1; 2; 4; 1]).
Proof.
  split; [lia|].
  pose proof (timeframe_id_from_orbit (mkSentinels 0 65535 255 255 65535 0)
                256 1000 [1255; 1256; 2000; 1000]) as H.
  destruct H as (_ & _); [lia|]. reflexivity.
Defined.

(** C4 as the specification words it: every orbit observed maps to
    [1 + (o - firstOrbit) / TFperiod], the quotient of the integers rounded
    down or toward zero. *)
Definition formula_for_every_orbit : Prop :=
  forall (U : Sentinels) (period o0 : Z) (rest : list Z),
  0 < period ->
  0 <= o0 < 2 ^ 32 ->
  Forall (fun o => 0 <= o < 2 ^ 32) rest ->
  let '(_, tfs) := observeOrbits period (initCounters_tf U) (o0 :: rest) in
  tfs = map (fun o => 1 + (o - o0) / period) (o0 :: rest) \/
  tfs = map (fun o => 1 + Z.quot (o - o0) period) (o0 :: rest).

(** First orbit 1000, then orbit 999, 256 orbits per timeframe: the
    difference wraps to 2^32 - 1 and the timeframe id is 16777216, where the
    formula gives 0 or 1. *)
Lemma formula_for_every_orbit_fails : ~ formula_for_every_orbit.
Proof.
  intros H.
  specialize (H (mkSentinels 0 65535 255 255 65535 0) 256 1000 [999]
                ltac:(lia) ltac:(lia)
                ltac:(repeat constructor; lia)).
  vm_compute in H. destruct H as [H|H]; discriminate.
Qed.

Example orbit_below_the_first :
  snd (observeOrbits 256 (initCounters_tf (mkSentinels 0 65535 255 255 65535 0))
         [1000; 999])
  = [1; 16777216].
Proof. reflexivity. Qed.

(** *** The RDH walk *)

Lemma rdhCheckLoop_total rdhAt bh blockSize : forall fuel pageOffset linkId s,
  (Z.to_nat (blockSize - pageOffset) < fuel)%nat ->
  exists r, rdhCheckLoop fuel rdhAt bh blockSize pageOffset linkId s = Some r.
Proof.
  induction fuel as [|fuel IH]; intros pageOffset linkId s Hf; [lia|].
  cbn [rdhCheckLoop].
  destruct (Z.ltb_spec pageOffset blockSize) as [Hlt|Hge]; [|eauto].
  destruct (negb (validateRdh (rdhAt pageOffset) =? 0)); [eauto|].
  match goal with |- context [negb (?a =? ?b)] =>
    destruct (negb (a =? b)) end; [eauto|].
  destruct (orbitOutOfRange bh (rdhAt pageOffset)); [eauto|].
  destruct (Z.eqb_spec (u16 (getOffsetNextPacket (rdhAt pageOffset))) 0)
    as [|Hnz]; [eauto|].
  assert (Hpos : 0 < u16 (getOffsetNextPacket (rdhAt pageOffset))).
  { pose proof (wrap_range 16 (getOffsetNextPacket (rdhAt pageOffset))) as Hr.
    unfold in_u in Hr. unfold u16 in *. lia. }
  edestruct (IH (pageOffset + u16 (getOffsetNextPacket (rdhAt pageOffset))))
    as [[s' ex] ->]; [lia | eauto].
Qed.

Lemma rdhCheckPage_total U rdhAt bh s :
  exists r, rdhCheckPage U rdhAt bh s = Some r.
Proof. unfold rdhCheckPage. apply rdhCheckLoop_total. lia. Qed.



(** [processRdh] with the check on runs the walk over the page, with the
    orbit range the first RDH has just given to the page header. *)
Lemma processRdh_walk U period decodeRdh useFirst st s block :
  exists ex,
    rdhCheckPage U (decodeRdh (data block))
      (header (snd (processRdh U period decodeRdh useFirst true st s block)))
      s
    = Some (snd (fst (processRdh U period decodeRdh useFirst true st s block)),
            ex).
Proof.
  unfold processRdh. rewrite orb_true_r.
  destruct (tagDatablockFromRdh U period st _ _) as [[st' bh'] isError].
  set (bh1 := if isError =? 0 then _ else _).
  destruct (rdhCheckPage_total U (decodeRdh (data block)) bh1 s) as [[s' ex] E].
  rewrite E. cbn. eauto.
Qed.



Definition exampleBlock : DataBlock :=
  mkBlock (mkHeader 0 192 0 0 0 0 0 0 0 0 0 0 false false) [].

(** Sentinel values for the examples. *)
Definition exampleSentinels : Sentinels := mkSentinels 0 65535 255 255 65535 0.


(** *** Rate limit *)

(** An equipment that plays back a list of pages. *)
Definition listSource : EquipmentImpl (list DataBlock) := {|
  getNextBlock := fun l =>
    match l with
    | b :: r => (r, GotBlock b)
    | [] => ([], NoBlock)
    end;
  prepareBlocks := fun l => (l, Idle)
|}.

Definition noRdh (l : list Byte.byte) (off : Z) : RdhHandle :=
  mkRdh 1 0 0 0 0 0 0 0 0.

Definition examplePage (size : Z) : DataBlock :=
  mkBlock (mkHeader 0 size 0 0 65535 0 0 0 0 0 0 0 false false) [].

(** An equipment with a rate of [rate] Hz and an output FIFO of 8 pages. *)
Definition exampleConfig (rate : Z) : Config :=
  mkConfig 7 (double_of_Z rate) false false false false true 256 8.

(** A clock reading: the double nearest [n / d] seconds. *)
Definition seconds (n d : Z) : double :=
  double_div (double_of_Z n) (double_of_Z d).

(** C6 as the specification words it: with a positive rate, a rate clock
    that has not reached its next tick and a budget of at most zero, the
    iteration counts one throttle and stamps no page. *)
Definition throttle_on_budget_alone : Prop :=
  forall (U : Sentinels) (decodeRdh : list Byte.byte -> Z -> RdhHandle)
    (Sub : Type) (I : EquipmentImpl Sub) (cfg : Config)
    (env : IterationEnv) (st : State Sub),
  double_gt_zero (readoutRate cfg) = true ->
  clk_isTimeout env = false ->
  fitsInt (budgetValue cfg env st) = true ->
  blockBudget cfg env st <= 0 ->
  nThrottle (equipmentStats (fst (fst (threadCallback U decodeRdh cfg env st))))
  = u64 (nThrottle (equipmentStats st) + 1) /\
  snd (fst (threadCallback U decodeRdh cfg env st)) = [].

(** The first iteration after [start()], 100 microseconds in at 1 kHz:
    nothing has been read out yet, the budget is 0, the clock has not
    ticked, and the iteration is not counted as throttled. *)
Lemma throttle_on_budget_alone_fails : ~ throttle_on_budget_alone.
Proof.
  intros H.
  specialize (H exampleSentinels noRdh (list DataBlock) listSource
                (exampleConfig 1000) (mkEnv (seconds 1 10000) false false 1)
                (start exampleSentinels
                   (mkState 0 false (initCounters_tf exampleSentinels)
                      initCounters_rdh (mkLoopStats 0 0 0 0 0 0) []
                      [examplePage 10]))).
  destruct H as [H _];
    [ vm_compute; reflexivity | reflexivity | vm_compute; reflexivity
    | vm_compute; discriminate | ].
  vm_compute in H. discriminate.
Qed.

Section LoopFacts.

Variable U : Sentinels.
Variable decodeRdh : list Byte.byte -> Z -> RdhHandle.
Context {Sub : Type} {I : EquipmentImpl Sub}.
Variable cfg : Config.

Lemma throttled_true env (st : State Sub) :
  double_gt_zero (readoutRate cfg) = true ->
  clk_isTimeout env = false ->
  blockBudget cfg env st <= 0 ->
  nBlocksOut (equipmentStats st) <> 0 ->
  throttled cfg env st = true.
Proof.
  intros Hr Hc Hb Hn. unfold throttled. rewrite Hr, Hc. cbn [negb andb].
  destruct (Z.eqb_spec (nBlocksOut (equipmentStats st)) 0); [contradiction|].
  cbn [negb andb]. now apply Z.leb_le.
Qed.

Lemma throttled_false_first env (st : State Sub) :
  nBlocksOut (equipmentStats st) = 0 -> throttled cfg env st = false.
Proof.
  intros Hn. unfold throttled. rewrite Hn. cbn.
  now rewrite andb_false_r.
Qed.

End LoopFacts.

(** C6, as the loop has it.  With a positive rate, a rate clock that has
    not reached its next tick and a budget whose conversion to [int] is
    defined and gives at most zero: the budget is the value of
    [readoutRate * elapsed - nBlocksOut], as the doubles give it, with its
    fraction discarded; the iteration stamps no page and leaves the output
    FIFO alone; provided at least one page has been read out since start, it
    counts one throttle and returns idle without asking the equipment for
    anything; before the first page no throttle is counted. *)
Theorem throttle_when_rate_exceeded
  (U : Sentinels) (decodeRdh : list Byte.byte -> Z -> RdhHandle)
  (Sub : Type) (I : EquipmentImpl Sub) (cfg : Config)
  (env : IterationEnv) (st : State Sub) :
  double_gt_zero (readoutRate cfg) = true ->
  clk_isTimeout env = false ->
  fitsInt (budgetValue cfg env st) = true ->
  blockBudget cfg env st <= 0 ->
  (exists q,
     double_value
       (double_sub (double_mul (readoutRate cfg) (clk0_getTime env))
          (double_of_Z (nBlocksOut (equipmentStats st)))) = Some q /\
     truncationOf (blockBudget cfg env st) q) /\
  let '(st', out, r) := threadCallback U decodeRdh cfg env st in
  out = [] /\
  currentBlockId st' = currentBlockId st /\
  dataOut st' = dataOut st /\
  (nBlocksOut (equipmentStats st) <> 0 ->
     nThrottle (equipmentStats st') = u64 (nThrottle (equipmentStats st) + 1)
     /\ r = Idle /\ impl st' = impl st) /\
  (nBlocksOut (equipmentStats st) = 0 ->
     nThrottle (equipmentStats st') = nThrottle (equipmentStats st)).
Proof.
  intros Hr Hc Hfit Hb.
  split; [exact (toInt_value _ Hfit)|].
  unfold threadCallback.
  set (st1 := mkState (currentBlockId st) _ _ _ _ _ _).
  assert (Hb1 : blockBudget cfg env st1 = blockBudget cfg env st) by reflexivity.
  destruct (Z.eq_dec (nBlocksOut (equipmentStats st)) 0) as [Hz|Hnz].
  - rewrite (throttled_false_first cfg env st1) by exact Hz.
    rewrite Hr, Hb1.
    replace (Z.to_nat (blockBudget cfg env st)) with O by lia.
    cbn [readBlocks List.length].
    assert (Hfin : forall a (x : State Sub),
               let '(st', out, _) := finish a x [] in
               out = [] /\ currentBlockId st' = currentBlockId x /\
               dataOut st' = dataOut x /\
               nThrottle (equipmentStats st') = nThrottle (equipmentStats x)).
    { intros [] x; cbn; auto. }
    destruct (isDataOn _).
    + destruct (prepareBlocks _) as [i' []].
      * specialize (Hfin true (with_impl i' (with_stats
           (mkLoopStats (nLoop (equipmentStats st1))
              (nThrottle (equipmentStats st1))
              (u64 (nBlocksOut (equipmentStats st1) + Z.of_nat 0))
              (nBytesOut (equipmentStats st1))
              (nOutputFull (equipmentStats st1))
              (nIdle (equipmentStats st1))) st1))).
        destruct (finish true _ []) as [[st' out] r].
        destruct Hfin as (-> & ? & ? & ?). repeat split; auto; congruence.
      * specialize (Hfin false (with_impl i' (with_stats
           (mkLoopStats (nLoop (equipmentStats st1))
              (nThrottle (equipmentStats st1))
              (u64 (nBlocksOut (equipmentStats st1) + Z.of_nat 0))
              (nBytesOut (equipmentStats st1))
              (nOutputFull (equipmentStats st1))
              (nIdle (equipmentStats st1))) st1))).
        destruct (finish false _ []) as [[st' out] r].
        destruct Hfin as (-> & ? & ? & ?). repeat split; auto; congruence.
      * cbn. repeat split; auto; congruence.
    + specialize (Hfin false (with_stats
           (mkLoopStats (nLoop (equipmentStats st1))
              (nThrottle (equipmentStats st1))
              (u64 (nBlocksOut (equipmentStats st1) + Z.of_nat 0))
              (nBytesOut (equipmentStats st1))
              (nOutputFull (equipmentStats st1))
              (nIdle (equipmentStats st1))) st1)).
      destruct (finish false _ []) as [[st' out] r].
      destruct Hfin as (-> & ? & ? & ?). repeat split; auto; congruence.
  - rewrite (throttled_true cfg env st1) by assumption.
    cbn. repeat split; auto. contradiction.
Qed.

(** One millisecond in at 1 kHz with two pages read out: the product is 1.0,
    the budget -1. *)
Lemma throttle_when_rate_exceeded_witness :
  double_gt_zero (readoutRate (exampleConfig 1000)) = true /\
  blockBudget (exampleConfig 1000) (mkEnv (seconds 1 1000) false false 1)
    (mkState 2 false (initCounters_tf exampleSentinels) initCounters_rdh
       (mkLoopStats 5 0 2 20 0 0) [] [examplePage 10]) = -1 /\
  nThrottle (equipmentStats (fst (fst
    (threadCallback (I := listSource) exampleSentinels noRdh
       (exampleConfig 1000) (mkEnv (seconds 1 1000) false false 1)
       (mkState 2 false (initCounters_tf exampleSentinels) initCounters_rdh
          (mkLoopStats 5 0 2 20 0 0) [] [examplePage 10]))))) = 1.
Proof.
  split; [vm_compute; reflexivity|]. split; [vm_compute; reflexivity|].
  pose proof (throttle_when_rate_exceeded exampleSentinels noRdh
                (list DataBlock) listSource (exampleConfig 1000)
                (mkEnv (seconds 1 1000) false false 1)
                (mkState 2 false (initCounters_tf exampleSentinels)
                   initCounters_rdh (mkLoopStats 5 0 2 20 0 0) []
                   [examplePage 10])) as H.
  specialize (H ltac:(vm_compute; reflexivity) ltac:(reflexivity)
                ltac:(vm_compute; reflexivity)
                ltac:(vm_compute; discriminate)).
  destruct H as [_ H].
  destruct (threadCallback _ _ _ _ _) as [[st' out] r].
  destruct H as (_ & _ & _ & H & _).
  destruct H as (H & _); [cbn; lia|]. cbn [fst]. rewrite H. reflexivity.
Defined.

(** The product is rounded before the counter is taken off.  At 1 kHz, with
    the clock at the double nearest 0.009 s, the product is 9.0: after eight
    pages the budget is 1, and a page is read although the rate clock has
    not ticked. *)
Example budget_after_eight_pages :
  blockBudget (exampleConfig 1000) (mkEnv (seconds 9 1000) false false 1)
    (mkState 8 false (initCounters_tf exampleSentinels) initCounters_rdh
       (mkLoopStats 5 0 8 80 0 0) [] [examplePage 10; examplePage 20]) = 1 /\
  snd (fst
    (threadCallback (I := listSource) exampleSentinels noRdh
       (exampleConfig 1000) (mkEnv (seconds 9 1000) false false 1)
       (mkState 8 false (initCounters_tf exampleSentinels) initCounters_rdh
          (mkLoopStats 5 0 8 80 0 0) [] [examplePage 10; examplePage 20])))
  = [mkBlock (mkHeader 9 10 0 0 7 0 0 0 0 0 0 1 false false) []].
Proof. split; vm_compute; reflexivity. Qed.

(** The same clock reading on the first call after [start()]: the budget is
    9. *)
Example budget_on_first_call :
  blockBudget (exampleConfig 1000) (mkEnv (seconds 9 1000) true false 1)
    (start exampleSentinels
       (mkState 0 false (initCounters_tf exampleSentinels) initCounters_rdh
          (mkLoopStats 0 0 0 0 0 0) [] ([] : list DataBlock))) = 9.
Proof. vm_compute. reflexivity. Qed.

(** *** Block identifiers *)

Definition blockIds (l : list DataBlock) : list Z :=
  map (fun b => blockId (header b)) l.

(** The identifiers [c+1, c+2, ..., c+n]. *)
Definition idsFrom (c : Z) (n : nat) : list Z :=
  map (fun k => c + Z.of_nat k) (seq 1 n).

Lemma idsFrom_cons c n : idsFrom c (S n) = (c + 1) :: idsFrom (c + 1) n.
Proof.
  unfold idsFrom. cbn [seq map]. f_equal.
  rewrite <- seq_shift, map_map. apply map_ext. intros k. lia.
Qed.

Lemma idsFrom_app c n m :
  idsFrom c (n + m) = idsFrom c n ++ idsFrom (c + Z.of_nat n) m.
Proof.
  revert c. induction n as [|n IH]; intros c.
  - cbn [Nat.add]. unfold idsFrom at 2. cbn. f_equal. lia.
  - cbn [Nat.add]. rewrite !idsFrom_cons, IH. cbn [app]. do 3 f_equal. lia.
Qed.

Lemma idsFrom_zero n : idsFrom 0 n = map Z.of_nat (seq 1 n).
Proof. unfold idsFrom. apply map_ext. intros; lia. Qed.

Section BlockIds.

Variable U : Sentinels.
Variable decodeRdh : list Byte.byte -> Z -> RdhHandle.
Context {Sub : Type} {I : EquipmentImpl Sub}.
Variable cfg : Config.

Lemma stampBlock_blockId env c tf b :
  blockId (header (stampBlock U cfg env c tf b)) = c.
Proof.
  unfold stampBlock.
  destruct (negb _); cbn; destruct (_ =? _); reflexivity.
Qed.

(** The counter after a piece of the run, and the identifiers stamped. *)
Definition counts (st st' : State Sub) (out : list DataBlock) : Prop :=
  0 <= currentBlockId st ->
  currentBlockId st + Z.of_nat (List.length out) < 2 ^ 64 ->
  currentBlockId st' = currentBlockId st + Z.of_nat (List.length out) /\
  blockIds out = idsFrom (currentBlockId st) (List.length out).

Lemma counts_nil (st st' : State Sub) :
  currentBlockId st' = currentBlockId st -> counts st st' [].
Proof.
  intros H _ _. cbn. split; [lia | reflexivity].
Qed.

Lemma counts_trans (st st1 st2 : State Sub) out1 out2 :
  counts st st1 out1 -> counts st1 st2 out2 -> counts st st2 (out1 ++ out2).
Proof.
  unfold counts. intros H1 H2 H0. rewrite length_app, Nat2Z.inj_add. intros Hb.
  destruct H1 as [Hc1 Hi1]; [lia | lia |].
  destruct H2 as [Hc2 Hi2]; [lia | lia |].
  split; [lia|].
  unfold blockIds in *. rewrite map_app, Hi1, Hi2, idsFrom_app.
  now rewrite Hc1.
Qed.

Lemma readBlocks_counts env : forall n (st st' : State Sub) out,
  readBlocks U decodeRdh cfg n env st = (st', out) -> counts st st' out.
Proof.
  induction n as [|n IH]; intros st st' out.
  - cbn. intros [= <- <-]. now apply counts_nil.
  - cbn [readBlocks].
    destruct (dataOut_isFull cfg st).
    { intros [= <- <-]. now apply counts_nil. }
    destruct (getNextBlock (impl st)) as [i' [b| |]].
    2,3: intros [= <- <-]; now apply counts_nil.
    destruct (if isRdhEquipment cfg then _ else _) as [[tf1 rs1] b1].
    set (b2 := stampBlock U cfg env _ tf1 b1).
    destruct (readBlocks U decodeRdh cfg n env _) as [st2 l] eqn:E.
    intros [= <- <-]. apply IH in E.
    intros H0 Hb. cbn [List.length] in *. rewrite Nat2Z.inj_succ in *.
    destruct E as [Hc Hi]; cbn [currentBlockId] in *.
    { apply wrap_range. lia. }
    { rewrite u64_small by lia. lia. }
    rewrite u64_small in Hc, Hi by lia.
    split; [lia|].
    unfold blockIds in *. cbn [map]. rewrite idsFrom_cons, Hi.
    f_equal. subst b2. rewrite stampBlock_blockId. apply u64_small. lia.
Qed.

Lemma finish_counts a (st : State Sub) out :
  currentBlockId (fst (fst (finish a st out))) = currentBlockId st /\
  snd (fst (finish a st out)) = out.
Proof. destruct a; cbn; auto. Qed.

Lemma threadCallback_counts env (st st' : State Sub) out r :
  threadCallback U decodeRdh cfg env st = (st', out, r) -> counts st st' out.
Proof.
  unfold threadCallback.
  set (st1 := mkState (currentBlockId st) _ _ _ _ _ _).
  destruct (throttled cfg env st1).
  { cbn. intros [= <- <- _]. now apply counts_nil. }
  destruct (readBlocks U decodeRdh cfg _ env st1) as [st2 l] eqn:E.
  apply readBlocks_counts in E.
  assert (E' : forall x : State Sub,
             currentBlockId x = currentBlockId st2 -> counts st x l).
  { intros x Hx H0 Hb. destruct E as [Hc Hi]; auto. rewrite Hx. auto. }
  match goal with |- context [isDataOn ?x] => destruct (isDataOn x) end.
  - match goal with |- context [prepareBlocks ?x] =>
      destruct (prepareBlocks x) as [i' []] end.
    + intros H.
      pose proof (finish_counts true (with_impl i' (with_stats
        (mkLoopStats (nLoop (equipmentStats st2))
           (nThrottle (equipmentStats st2))
           (u64 (nBlocksOut (equipmentStats st2) + Z.of_nat (List.length l)))
           (nBytesOut (equipmentStats st2)) (nOutputFull (equipmentStats st2))
           (nIdle (equipmentStats st2))) st2)) l) as [F1 F2].
      rewrite H in F1, F2. cbn in F1, F2. subst out. now apply E'.
    + intros H.
      pose proof (finish_counts (match l with [] => false | _ => true end)
        (with_impl i' (with_stats
        (mkLoopStats (nLoop (equipmentStats st2))
           (nThrottle (equipmentStats st2))
           (u64 (nBlocksOut (equipmentStats st2) + Z.of_nat (List.length l)))
           (nBytesOut (equipmentStats st2)) (nOutputFull (equipmentStats st2))
           (nIdle (equipmentStats st2))) st2)) l) as [F1 F2].
      rewrite H in F1, F2. cbn in F1, F2. subst out. now apply E'.
    + intros [= <- <- _]. now apply E'.
  - intros H.
    pose proof (finish_counts (match l with [] => false | _ => true end)
        (with_stats
        (mkLoopStats (nLoop (equipmentStats st2))
           (nThrottle (equipmentStats st2))
           (u64 (nBlocksOut (equipmentStats st2) + Z.of_nat (List.length l)))
           (nBytesOut (equipmentStats st2)) (nOutputFull (equipmentStats st2))
           (nIdle (equipmentStats st2))) st2) l) as [F1 F2].
    rewrite H in F1, F2. cbn in F1, F2. subst out. now apply E'.
Qed.

Lemma step_counts ev (st st' : State Sub) out :
  step U decodeRdh cfg ev st = (st', out) -> counts st st' out.
Proof.
  destruct ev as [env| | |]; cbn [step].
  - destruct (threadCallback U decodeRdh cfg env st) as [[st1 l] r] eqn:E.
    intros [= <- <-]. eapply threadCallback_counts; eassumption.
  - intros [= <- <-]. now apply counts_nil.
  - intros [= <- <-]. now apply counts_nil.
  - intros [= <- <-]. now apply counts_nil.
Qed.

Lemma run_counts : forall evs (st st' : State Sub) out,
  run U decodeRdh cfg evs st = (st', out) -> counts st st' out.
Proof.
  induction evs as [|ev evs IH]; intros st st' out.
  - cbn. intros [= <- <-]. now apply counts_nil.
  - cbn [run].
    destruct (step U decodeRdh cfg ev st) as [st1 l1] eqn:E1.
    destruct (run U decodeRdh cfg evs st1) as [st2 l2] eqn:E2.
    intros [= <- <-].
    eapply counts_trans; [eapply step_counts | eapply IH]; eassumption.
Qed.

End BlockIds.

(** C7. Over one run of an equipment, from [start()] on, the block
    identifiers stamped on the pages are 1, 2, 3, ... in the order the pages
    were obtained from [getNextBlock()]: the counter is reset to 0 by
    [start()] and goes up by one before each stamp (fewer than 2^64 pages
    per run). *)
Theorem blockId_sequence
  (U : Sentinels) (decodeRdh : list Byte.byte -> Z -> RdhHandle)
  (Sub : Type) (I : EquipmentImpl Sub) (cfg : Config)
  (evs : list Event) (st0 : State Sub) :
  Z.of_nat (List.length (snd (run U decodeRdh cfg evs (start U st0)))) < 2 ^ 64 ->
  currentBlockId (start U st0) = 0 /\
  blockIds (snd (run U decodeRdh cfg evs (start U st0)))
  = map Z.of_nat
      (seq 1 (List.length (snd (run U decodeRdh cfg evs (start U st0))))).
Proof.
  intros Hlen. split; [reflexivity|].
  destruct (run U decodeRdh cfg evs (start U st0)) as [st' out] eqn:E.
  apply run_counts in E. cbn [snd] in *.
  destruct E as [_ Hi]; cbn [start currentBlockId]; [lia | lia |].
  rewrite Hi. apply idsFrom_zero.
Qed.

Definition exampleRun : list Event :=
  [Iterate (mkEnv (seconds 0 1) false false 12); SetDataOn;
   Iterate (mkEnv (seconds 1 2) true false 12); GetBlock;
   Iterate (mkEnv (seconds 1 1) true false 12)].

Definition exampleState : State (list DataBlock) :=
  mkState 41 true (initCounters_tf exampleSentinels) initCounters_rdh
    (mkLoopStats 9 9 9 9 9 9) []
    [examplePage 10; examplePage 20; examplePage 30; examplePage 40].

Lemma blockId_sequence_witness :
  blockIds (snd (run (I := listSource) exampleSentinels noRdh
                   (exampleConfig (-1)) exampleRun
                   (start exampleSentinels exampleState)))
  = [1; 2; 3; 4].
Proof.
  pose proof (blockId_sequence exampleSentinels noRdh (list DataBlock)
                listSource (exampleConfig (-1)) exampleRun exampleState) as H.
  destruct H as [_ H]; [vm_compute; reflexivity|].
  rewrite H. reflexivity.
Defined.


(** *** The output FIFO, the page counters and the rate limit *)

(** [nBytesOut] after the pages [l] have been counted one by one. *)
Definition bytesAdd (acc : Z) (l : list DataBlock) : Z :=
  fold_left (fun a b => u64 (a + dataSize (header b))) l acc.

Definition sumDataSizes (l : list DataBlock) : Z :=
  fold_right (fun b a => dataSize (header b) + a) 0 l.

Lemma u64_add_idemp a b : u64 (u64 a + b) = u64 (a + b).
Proof. unfold u64, wrap. apply Zplus_mod_idemp_l. Qed.

Lemma bytesAdd_sum l : forall a, u64 (bytesAdd a l) = u64 (a + sumDataSizes l).
Proof.
  induction l as [|b l IH]; intros a; cbn [bytesAdd fold_left sumDataSizes fold_right].
  - now rewrite Z.add_0_r.
  - fold (bytesAdd (u64 (a + dataSize (header b))) l). rewrite IH.
    fold (sumDataSizes l). rewrite u64_add_idemp. f_equal. lia.
Qed.

Lemma bytesAdd_range l : forall a, 0 <= a < 2 ^ 64 -> 0 <= bytesAdd a l < 2 ^ 64.
Proof.
  induction l as [|b l IH]; intros a Ha; cbn [bytesAdd fold_left]; [exact Ha|].
  apply IH. apply wrap_range. lia.
Qed.

Section Output.

Variable U : Sentinels.
Variable decodeRdh : list Byte.byte -> Z -> RdhHandle.
Context {Sub : Type} {I : EquipmentImpl Sub}.
Variable cfg : Config.

(** What the inner loop does to the FIFO and to the counters. *)
Lemma readBlocks_facts env : forall n (st st' : State Sub) out,
  readBlocks U decodeRdh cfg n env st = (st', out) ->
  (List.length out <= n)%nat /\
  nBlocksOut (equipmentStats st') = nBlocksOut (equipmentStats st) /\
  nBytesOut (equipmentStats st') = bytesAdd (nBytesOut (equipmentStats st)) out /\
  dataOut st' = (if disableOutput cfg then dataOut st else dataOut st ++ out) /\
  (Z.of_nat (List.length (dataOut st)) <= outputFifoSize cfg ->
   Z.of_nat (List.length (dataOut st')) <= outputFifoSize cfg).
Proof.
  induction n as [|n IH]; intros st st' out.
  - cbn. intros [= <- <-]. cbn. rewrite app_nil_r.
    destruct (disableOutput cfg); repeat split; auto.
  - cbn [readBlocks]. unfold dataOut_isFull.
    destruct (Z.leb_spec (outputFifoSize cfg) (Z.of_nat (List.length (dataOut st))))
      as [Hfull|Hroom].
    { intros [= <- <-]. cbn. rewrite app_nil_r.
      destruct (disableOutput cfg); repeat split; auto; lia. }
    destruct (getNextBlock (impl st)) as [i' [b| |]].
    2,3: intros [= <- <-]; cbn; rewrite app_nil_r;
         destruct (disableOutput cfg); repeat split; auto; lia.
    destruct (if isRdhEquipment cfg then _ else _) as [[tf1 rs1] b1].
    set (b2 := stampBlock U cfg env _ tf1 b1).
    destruct (readBlocks U decodeRdh cfg n env _) as [st2 l] eqn:E.
    intros [= <- <-]. apply IH in E.
    cbn [equipmentStats nBlocksOut nBytesOut dataOut] in E.
    destruct E as (Hl & Hb & Hy & Hd & Hc).
    split; [cbn; lia|]. split; [exact Hb|]. split; [exact Hy|].
    split.
    + rewrite Hd. destruct (disableOutput cfg); [reflexivity|].
      now rewrite <- app_assoc.
    + intros _. apply Hc. destruct (disableOutput cfg); [lia|].
      rewrite length_app. cbn. lia.
Qed.

(** One call of [threadCallback] is one run of the inner loop, possibly of
    no turn, between updates that leave the FIFO alone. *)
Lemma threadCallback_reads env (st st' : State Sub) out r :
  threadCallback U decodeRdh cfg env st = (st', out, r) ->
  exists n (st1 st2 : State Sub),
    dataOut st1 = dataOut st /\
    nBlocksOut (equipmentStats st1) = nBlocksOut (equipmentStats st) /\
    nBytesOut (equipmentStats st1) = nBytesOut (equipmentStats st) /\
    readBlocks U decodeRdh cfg n env st1 = (st2, out) /\
    (n <= (if double_gt_zero (readoutRate cfg)
           then Z.to_nat (blockBudget cfg env st) else 1024))%nat /\
    dataOut st' = dataOut st2 /\
    nBytesOut (equipmentStats st') = nBytesOut (equipmentStats st2) /\
    ((out = [] /\
      nBlocksOut (equipmentStats st') = nBlocksOut (equipmentStats st2)) \/
     nBlocksOut (equipmentStats st')
     = u64 (nBlocksOut (equipmentStats st2) + Z.of_nat (List.length out))).
Proof.
  unfold threadCallback.
  set (st1 := mkState (currentBlockId st) _ _ _ _ _ _).
  destruct (throttled cfg env st1).
  { cbn. intros [= <- <- _].
    eexists O, _, _. split; [|split; [|split; [|split; [reflexivity|]]]].
    4: { split; [lia|]. cbn. split; [reflexivity|]. split; [reflexivity|].
         left. split; reflexivity. }
    all: reflexivity. }
  set (n := Z.to_nat _).
  destruct (readBlocks U decodeRdh cfg n env st1) as [st2 l] eqn:E.
  assert (Hn : (n <= (if double_gt_zero (readoutRate cfg)
                      then Z.to_nat (blockBudget cfg env st) else 1024))%nat).
  { subst n. destruct (double_gt_zero (readoutRate cfg)); [|cbn; lia].
    change (blockBudget cfg env st1) with (blockBudget cfg env st). lia. }
  assert (Hfin : forall a (x : State Sub) (x' : State Sub) o q,
             finish a x l = (x', o, q) ->
             o = l /\ dataOut x' = dataOut x /\
             nBytesOut (equipmentStats x') = nBytesOut (equipmentStats x) /\
             nBlocksOut (equipmentStats x') = nBlocksOut (equipmentStats x)).
  { intros [] x x' o q; cbn; intros [= <- <- _]; auto. }
  intros H.
  assert (Hall : out = l /\ dataOut st' = dataOut st2 /\
                 nBytesOut (equipmentStats st') = nBytesOut (equipmentStats st2) /\
                 nBlocksOut (equipmentStats st')
                 = u64 (nBlocksOut (equipmentStats st2)
                        + Z.of_nat (List.length l))).
  { revert H.
    match goal with |- context [isDataOn ?x] => destruct (isDataOn x) end.
    - match goal with |- context [prepareBlocks ?x] =>
        destruct (prepareBlocks x) as [i' []] end.
      + intros H. apply Hfin in H. exact H.
      + intros H. apply Hfin in H. exact H.
      + intros [= <- <- _]. cbn. auto.
    - intros H. apply Hfin in H. exact H. }
  destruct Hall as (-> & Hd & Hy & Hb).
  exists n, st1, st2. repeat split; auto.
Qed.

End Output.

Section RunFacts.

Variable U : Sentinels.
Variable decodeRdh : list Byte.byte -> Z -> RdhHandle.
Context {Sub : Type} {I : EquipmentImpl Sub}.
Variable cfg : Config.

Lemma step_fifo ev (st st' : State Sub) out :
  step U decodeRdh cfg ev st = (st', out) ->
  Z.of_nat (List.length (dataOut st)) <= outputFifoSize cfg ->
  Z.of_nat (List.length (dataOut st')) <= outputFifoSize cfg.
Proof.
  destruct ev as [env| | |]; cbn [step].
  - destruct (threadCallback U decodeRdh cfg env st) as [[st1 l] r] eqn:E.
    intros [= <- <-] Hc. apply threadCallback_reads in E.
    destruct E as (n & s1 & s2 & Hd1 & _ & _ & Hr & _ & Hd & _).
    apply readBlocks_facts in Hr. destruct Hr as (_ & _ & _ & _ & Hb).
    rewrite Hd. apply Hb. now rewrite Hd1.
  - intros [= <- <-]. auto.
  - intros [= <- <-]. auto.
  - intros [= <- <-]. cbn. intros Hc.
    destruct (dataOut st); cbn [tl List.length] in *; lia.
Qed.

Lemma run_fifo : forall evs (st st' : State Sub) out,
  run U decodeRdh cfg evs st = (st', out) ->
  Z.of_nat (List.length (dataOut st)) <= outputFifoSize cfg ->
  Z.of_nat (List.length (dataOut st')) <= outputFifoSize cfg.
Proof.
  induction evs as [|ev evs IH]; intros st st' out.
  - cbn. intros [= <- <-]. auto.
  - cbn [run].
    destruct (step U decodeRdh cfg ev st) as [st1 l1] eqn:E1.
    destruct (run U decodeRdh cfg evs st1) as [st2 l2] eqn:E2.
    intros [= <- <-] Hc. eapply IH; [eassumption|].
    eapply step_fifo; eassumption.
Qed.

(** The counters [nBlocksOut] and [nBytesOut] over a piece of a run. *)
Definition tallies (st st' : State Sub) (out : list DataBlock) : Prop :=
  nBytesOut (equipmentStats st') = bytesAdd (nBytesOut (equipmentStats st)) out /\
  (0 <= nBlocksOut (equipmentStats st) ->
   nBlocksOut (equipmentStats st) + Z.of_nat (List.length out) < 2 ^ 64 ->
   nBlocksOut (equipmentStats st')
   = nBlocksOut (equipmentStats st) + Z.of_nat (List.length out)).

Lemma tallies_trans (st st1 st2 : State Sub) out1 out2 :
  tallies st st1 out1 -> tallies st1 st2 out2 -> tallies st st2 (out1 ++ out2).
Proof.
  intros [Hy1 Hb1] [Hy2 Hb2]. split.
  - unfold bytesAdd in *. now rewrite fold_left_app, <- Hy1.
  - rewrite length_app, Nat2Z.inj_add. intros H0 Hlt.
    rewrite Hb2, Hb1; lia.
Qed.

Lemma threadCallback_tallies env (st st' : State Sub) out r :
  threadCallback U decodeRdh cfg env st = (st', out, r) -> tallies st st' out.
Proof.
  intros E. apply threadCallback_reads in E.
  destruct E as (n & s1 & s2 & _ & Hb1 & Hy1 & Hr & _ & _ & Hy & Hb).
  apply readBlocks_facts in Hr. destruct Hr as (_ & Hb2 & Hy2 & _).
  split; [congruence|]. intros H0 Hlt.
  destruct Hb as [[-> Hb]|Hb]; [cbn; lia|].
  rewrite Hb, Hb2, Hb1. apply u64_small. lia.
Qed.

Lemma step_tallies ev (st st' : State Sub) out :
  step U decodeRdh cfg ev st = (st', out) -> tallies st st' out.
Proof.
  destruct ev as [env| | |]; cbn [step].
  - destruct (threadCallback U decodeRdh cfg env st) as [[st1 l] r] eqn:E.
    intros [= <- <-]. eapply threadCallback_tallies; eassumption.
  - intros [= <- <-]. split; cbn; [reflexivity | lia].
  - intros [= <- <-]. split; cbn; [reflexivity | lia].
  - intros [= <- <-]. split; cbn; [reflexivity | lia].
Qed.

Lemma run_tallies : forall evs (st st' : State Sub) out,
  run U decodeRdh cfg evs st = (st', out) -> tallies st st' out.
Proof.
  induction evs as [|ev evs IH]; intros st st' out.
  - cbn. intros [= <- <-]. split; cbn; [reflexivity | lia].
  - cbn [run].
    destruct (step U decodeRdh cfg ev st) as [st1 l1] eqn:E1.
    destruct (run U decodeRdh cfg evs st1) as [st2 l2] eqn:E2.
    intros [= <- <-].
    eapply tallies_trans; [eapply step_tallies | eapply IH]; eassumption.
Qed.

End RunFacts.


(** The pages stamped by one call of [threadCallback] are pushed to the
    output FIFO behind what it holds, in the order they were stamped, none
    left out and nothing else added; with [disableOutput] set the FIFO is
    left as it is. *)
Theorem output_fifo_takes_stamped_pages
  (U : Sentinels) (decodeRdh : list Byte.byte -> Z -> RdhHandle)
  (Sub : Type) (I : EquipmentImpl Sub) (cfg : Config)
  (env : IterationEnv) (st : State Sub) :
  let '(st', out, _) := threadCallback U decodeRdh cfg env st in
  dataOut st' = if disableOutput cfg then dataOut st else dataOut st ++ out.
Proof.
  destruct (threadCallback U decodeRdh cfg env st) as [[st' out] r] eqn:E.
  apply threadCallback_reads in E.
  destruct E as (n & s1 & s2 & Hd1 & _ & _ & Hr & _ & Hd & _).
  apply readBlocks_facts in Hr. destruct Hr as (_ & _ & _ & Hd2 & _).
  now rewrite Hd, Hd2, Hd1.
Qed.

(** Whatever the equipment delivers and however the owner interleaves
    [getBlock()], [setDataOn()] and [setDataOff()] with the readout thread,
    the output FIFO never holds more pages than its size: a page is asked
    from the equipment only when there is room for it. *)
Theorem output_fifo_never_overflows
  (U : Sentinels) (decodeRdh : list Byte.byte -> Z -> RdhHandle)
  (Sub : Type) (I : EquipmentImpl Sub) (cfg : Config)
  (evs : list Event) (st : State Sub) :
  Z.of_nat (List.length (dataOut st)) <= outputFifoSize cfg ->
  Z.of_nat (List.length (dataOut (fst (run U decodeRdh cfg evs st))))
  <= outputFifoSize cfg.
Proof.
  intros Hc.
  destruct (run U decodeRdh cfg evs st) as [st' out] eqn:E. cbn [fst].
  eapply run_fifo; eassumption.
Qed.

Definition smallFifoConfig : Config :=
  mkConfig 7 (double_of_Z (-1)) false false false false true 256 2.

Lemma output_fifo_never_overflows_witness :
  List.length (dataOut (fst (run (I := listSource) exampleSentinels noRdh
                               smallFifoConfig exampleRun
                               (start exampleSentinels exampleState)))) = 2%nat
  /\ Z.of_nat (List.length (dataOut (fst
       (run (I := listSource) exampleSentinels noRdh smallFifoConfig exampleRun
          (start exampleSentinels exampleState)))))
     <= outputFifoSize smallFifoConfig.
Proof.
  split; [reflexivity|].
  apply (output_fifo_never_overflows exampleSentinels noRdh (list DataBlock)
           listSource smallFifoConfig exampleRun
           (start exampleSentinels exampleState)).
  cbn. lia.
Defined.

(** Over one run from [start()], the counter [nBlocksOut] is the number of
    pages stamped and [nBytesOut] is the sum of their [dataSize] (modulo
    2^64), whether or not the pages were pushed to the FIFO. *)
Theorem stats_count_pages_and_bytes
  (U : Sentinels) (decodeRdh : list Byte.byte -> Z -> RdhHandle)
  (Sub : Type) (I : EquipmentImpl Sub) (cfg : Config)
  (evs : list Event) (st0 : State Sub) :
  Z.of_nat (List.length (snd (run U decodeRdh cfg evs (start U st0)))) < 2 ^ 64 ->
  let '(st', out) := run U decodeRdh cfg evs (start U st0) in
  nBlocksOut (equipmentStats st') = Z.of_nat (List.length out) /\
  nBytesOut (equipmentStats st') = u64 (sumDataSizes out).
Proof.
  destruct (run U decodeRdh cfg evs (start U st0)) as [st' out] eqn:E.
  cbn [snd]. intros Hlen. apply run_tallies in E. destruct E as [Hy Hb].
  cbn [start equipmentStats nBlocksOut nBytesOut] in Hy, Hb. split.
  - rewrite Hb; lia.
  - rewrite Hy. rewrite <- (u64_small (bytesAdd 0 out)).
    + now rewrite bytesAdd_sum.
    + apply bytesAdd_range. lia.
Qed.

Lemma stats_count_pages_and_bytes_witness :
  nBlocksOut (equipmentStats (fst
    (run (I := listSource) exampleSentinels noRdh (exampleConfig (-1))
       exampleRun (start exampleSentinels exampleState)))) = 4 /\
  nBytesOut (equipmentStats (fst
    (run (I := listSource) exampleSentinels noRdh (exampleConfig (-1))
       exampleRun (start exampleSentinels exampleState)))) = 100.
Proof.
  pose proof (stats_count_pages_and_bytes exampleSentinels noRdh
                (list DataBlock) listSource (exampleConfig (-1)) exampleRun
                exampleState) as H.
  destruct (run _ _ _ exampleRun _) as [st' out] eqn:E.
  assert (Eo : out = snd (run (I := listSource) exampleSentinels noRdh
                            (exampleConfig (-1)) exampleRun
                            (start exampleSentinels exampleState)))
    by (rewrite E; reflexivity).
  cbn [fst]. destruct H as [H1 H2]; [cbn [snd]; rewrite Eo; vm_compute; reflexivity|].
  rewrite H1, H2, Eo. split; reflexivity.
Defined.

(** With a positive [readoutRate] one call of [threadCallback] stamps at most
    as many pages as the budget computed at its start, none when that budget
    is not positive; without a rate it stamps at most 1024. *)
Theorem rate_limit_caps_iteration
  (U : Sentinels) (decodeRdh : list Byte.byte -> Z -> RdhHandle)
  (Sub : Type) (I : EquipmentImpl Sub) (cfg : Config)
  (env : IterationEnv) (st : State Sub) :
  let '(_, out, _) := threadCallback U decodeRdh cfg env st in
  Z.of_nat (List.length out)
  <= (if double_gt_zero (readoutRate cfg)
      then Z.max 0 (blockBudget cfg env st) else 1024).
Proof.
  destruct (threadCallback U decodeRdh cfg env st) as [[st' out] r] eqn:E.
  apply threadCallback_reads in E.
  destruct E as (n & s1 & s2 & _ & _ & _ & Hr & Hn & _).
  apply readBlocks_facts in Hr. destruct Hr as (Hl & _).
  destruct (double_gt_zero (readoutRate cfg)); lia.
Qed.

(** At 1 kHz, a first call that reads the double nearest 0.009 s from the
    clock has a budget of 9: of twelve pages ready it stamps nine. *)
Example nine_pages_on_first_call :
  List.length (snd (fst
    (threadCallback (I := listSource) exampleSentinels noRdh
       (mkConfig 7 (double_of_Z 1000) false false false false true 256 16)
       (mkEnv (seconds 9 1000) true false 1)
       (start exampleSentinels
          (mkState 0 false (initCounters_tf exampleSentinels) initCounters_rdh
             (mkLoopStats 0 0 0 0 0 0) []
             (map examplePage [1; 2; 3; 4; 5; 6; 7; 8; 9; 10; 11; 12]))))))
  = 9%nat.
Proof. vm_compute. reflexivity. Qed.


(** *** The orbit range of a page and the walk over its headers *)

Lemma mod32_cases x :
  - 2 ^ 32 <= x < 2 * 2 ^ 32 ->
  (x < 0 /\ x mod 2 ^ 32 = x + 2 ^ 32) \/
  (0 <= x < 2 ^ 32 /\ x mod 2 ^ 32 = x) \/
  (2 ^ 32 <= x /\ x mod 2 ^ 32 = x - 2 ^ 32).
Proof.
  intros Hx. change (2 ^ 32) with 4294967296 in *.
  Z.to_euclidean_division_equations. lia.
Qed.

(** The arithmetic of [getTimeframeFromOrbit] followed by
    [getTimeframeOrbitRange], checked against the range test of
    [processRdh]. *)
Lemma orbit_range_arith (f o p : Z) :
  0 < p < 2 ^ 32 -> 0 <= o < 2 ^ 32 ->
  let tf := u32 (1 + u32 (o - f) / p) in
  let mn := u32 (f + (tf - 1) * p) in
  let mx := u32 (mn + p - 1) in
  ((mn <? mx) && ((o <? mn) || (o >? mx)))
  || ((mn >? mx) && ((o <? mn) && (o >? mx))) = false /\
  u32 (mx - mn) = p - 1.
Proof.
  intros Hp Ho. cbv zeta. unfold u32, wrap.
  set (M := 2 ^ 32) in *.
  set (D := (o - f) mod M).
  set (r := D mod p).
  assert (Hr : 0 <= r < p) by (apply Z.mod_pos_bound; lia).
  assert (Hmn : (f + ((1 + D / p) mod M - 1) * p) mod M = (o - r) mod M).
  { pose proof (Z.div_mod (1 + D / p) M ltac:(subst M; lia)) as E1.
    pose proof (Z.div_mod (o - f) M ltac:(subst M; lia)) as E2.
    pose proof (Z.div_mod D p ltac:(lia)) as E3.
    fold D in E2. fold r in E3.
    replace (f + ((1 + D / p) mod M - 1) * p)
      with ((o - r) + (- ((o - f) / M) - ((1 + D / p) / M) * p) * M).
    - apply Z_mod_plus_full.
    - set (k1 := (1 + D / p) / M) in *. set (k2 := (o - f) / M) in *.
      set (q := D / p) in *. set (t := (1 + q) mod M) in *.
      clearbody k1 k2 q t r D. nia. }
  rewrite Hmn.
  assert (Hmx : ((o - r) mod M + p - 1) mod M = (o - r + (p - 1)) mod M).
  { replace ((o - r) mod M + p - 1) with ((o - r) mod M + (p - 1)) by lia.
    apply Zplus_mod_idemp_l. }
  rewrite Hmx.
  destruct (mod32_cases (o - r) ltac:(lia)) as [[H1 E1]|[[H1 E1]|[H1 E1]]];
    destruct (mod32_cases (o - r + (p - 1)) ltac:(lia))
      as [[H2 E2]|[[H2 E2]|[H2 E2]]];
    fold M in E1, E2, H1, H2; try lia; rewrite E1, E2.
  all: split.
  all: try (rewrite !Z.gtb_ltb;
            repeat match goal with
                   | |- context [?a <? ?b] => destruct (Z.ltb_spec a b)
                   end; cbn; try reflexivity; lia).
  all: match goal with
       | |- ?x mod ?m = _ =>
           first [ replace x with (p - 1 + 0 * m) by lia;
                   rewrite Z_mod_plus_full; apply Z.mod_small; lia
                 | replace x with (p - 1 + 1 * m) by lia;
                   rewrite Z_mod_plus_full; apply Z.mod_small; lia
                 | replace x with (p - 1 + (-1) * m) by lia;
                   rewrite Z_mod_plus_full; apply Z.mod_small; lia ]
       end.
Qed.

(** The page header that a well-formed first RDH gives, checked against that
    same RDH: as long as the trigger orbit read by the check is the
    heartbeat orbit used for the tags, the first RDH of a page lies in the
    orbit range of the page, also when the orbit counter has wrapped around
    since the first timeframe, and the range spans one timeframe period. *)
Theorem first_rdh_within_page_orbit_range
  (U : Sentinels) (period : Z) (st : TimeframeState) (h : RdhHandle)
  (bh : DataBlockHeader) :
  0 < period < 2 ^ 32 ->
  0 <= getHbOrbit h < 2 ^ 32 ->
  validateRdh h = 0 ->
  getTriggerOrbit h = getHbOrbit h ->
  timeframeId (snd (fst (tagDatablockFromRdh U period st h bh)))
  <> undefinedTimeframeId U ->
  let '(_, bh1, isError) := tagDatablockFromRdh U period st h bh in
  isError = 0 /\
  orbitOutOfRange bh1 h = false /\
  u32 (timeframeOrbitLast bh1 - timeframeOrbitFirst bh1) = period - 1.
Proof.
  intros Hp Ho Hv Ht. unfold tagDatablockFromRdh. rewrite Hv. cbn [Z.eqb negb].
  unfold getTimeframeFromOrbit, getTimeframeOrbitRange.
  cbn [isDefinedFirstTimeframeHbOrbitBegin firstTimeframeHbOrbitBegin negb].
  set (f := if isDefinedFirstTimeframeHbOrbitBegin st
            then firstTimeframeHbOrbitBegin st else getHbOrbit h).
  set (tf := u32 (1 + u32 (getHbOrbit h - f) / period)).
  destruct (Z.eqb_spec tf (undefinedTimeframeId U)) as [Hu|Hu].
  { cbn. intros Hne. contradiction. }
  cbn [fst snd]. intros _. split; [reflexivity|].
  unfold orbitOutOfRange, with_tags.
  cbn [timeframeOrbitFirst timeframeOrbitLast]. rewrite Ht.
  exact (orbit_range_arith f (getHbOrbit h) period Hp Ho).
Qed.

Lemma first_rdh_within_page_orbit_range_witness :
  orbitOutOfRange
    (snd (fst (tagDatablockFromRdh exampleSentinels 256
                 (mkTF 16777216 3 4294967200 true)
                 (mkRdh 0 50 50 1 2 1 0 3 64) (header exampleBlock))))
    (mkRdh 0 50 50 1 2 1 0 3 64) = false /\
  timeframeOrbitFirst
    (snd (fst (tagDatablockFromRdh exampleSentinels 256
                 (mkTF 16777216 3 4294967200 true)
                 (mkRdh 0 50 50 1 2 1 0 3 64) (header exampleBlock))))
  = 4294967200.
Proof.
  split; [|reflexivity].
  pose proof (first_rdh_within_page_orbit_range exampleSentinels 256
                (mkTF 16777216 3 4294967200 true)
                (mkRdh 0 50 50 1 2 1 0 3 64) (header exampleBlock)) as H.
  destruct (tagDatablockFromRdh _ _ _ _ _) as [[st1 bh1] e] eqn:E.
  cbn [fst snd] in *.
  destruct H as (_ & H & _).
  - lia.
  - cbn. lia.
  - reflexivity.
  - reflexivity.
  - injection E as _ <- _. vm_compute. discriminate.
  - exact H.
Defined.


(** A header that passes the three tests of the walk. *)
Definition rdhConsistent (bh : DataBlockHeader) (link : Z) (h : RdhHandle)
  : Prop :=
  validateRdh h = 0 /\ getLinkId h = link /\ orbitOutOfRange bh h = false.

(** The offsets [ex] follow [offsetNextPacket] from [off] on, inside the
    payload. *)
Fixpoint isChain (rdhAt : Z -> RdhHandle) (blockSize off : Z) (ex : list Z)
  : Prop :=
  match ex with
  | [] => True
  | o :: rest =>
      o = off /\ off < blockSize /\
      isChain rdhAt blockSize (off + u16 (getOffsetNextPacket (rdhAt off))) rest
  end.

(** The chain [ex] from [off] has been followed to its end: up to a header
    with a zero [offsetNextPacket] or to the end of the payload. *)
Fixpoint isWholeChain (rdhAt : Z -> RdhHandle) (blockSize off : Z)
  (ex : list Z) : Prop :=
  match ex with
  | [] => blockSize <= off
  | o :: rest =>
      o = off /\ off < blockSize /\
      ((u16 (getOffsetNextPacket (rdhAt off)) = 0 /\ rest = []) \/
       (u16 (getOffsetNextPacket (rdhAt off)) <> 0 /\
        isWholeChain rdhAt blockSize
          (off + u16 (getOffsetNextPacket (rdhAt off))) rest))
  end.

(** The three ways a walk ends: without error, at a malformed header, or at
    a well-formed header of another link or out of the orbit range. *)
Definition walkOutcome (rdhAt : Z -> RdhHandle) (bh : DataBlockHeader)
  (blockSize off link : Z) (s s' : RdhStats) (ex : list Z) : Prop :=
  (isWholeChain rdhAt blockSize off ex /\
   Forall (fun o => rdhConsistent bh link (rdhAt o)) ex /\
   s' = Nat.iter (List.length ex) okRdh s)
  \/
  (exists good o,
     ex = good ++ [o] /\
     Forall (fun o => rdhConsistent bh link (rdhAt o)) good /\
     validateRdh (rdhAt o) <> 0 /\
     s' = errRdh (Nat.iter (List.length good) okRdh s))
  \/
  (exists good o,
     ex = good ++ [o] /\
     Forall (fun o => rdhConsistent bh link (rdhAt o)) good /\
     validateRdh (rdhAt o) = 0 /\
     (getLinkId (rdhAt o) <> link \/ orbitOutOfRange bh (rdhAt o) = true) /\
     s' = streamErrRdh (Nat.iter (S (List.length good)) okRdh s)).

Lemma rdhCheckLoop_outcome rdhAt bh blockSize :
  forall fuel pageOffset linkId s s' ex,
  0 <= pageOffset ->
  rdhCheckLoop fuel rdhAt bh blockSize pageOffset linkId s = Some (s', ex) ->
  isChain rdhAt blockSize pageOffset ex /\
  walkOutcome rdhAt bh blockSize pageOffset
    (if pageOffset =? 0 then getLinkId (rdhAt pageOffset) else linkId)
    s s' ex.
Proof.
  induction fuel as [|fuel IH]; intros pageOffset linkId s s' ex H0;
    [discriminate|].
  cbn [rdhCheckLoop].
  set (link := if pageOffset =? 0 then getLinkId (rdhAt pageOffset) else linkId).
  destruct (Z.ltb_spec pageOffset blockSize) as [Hlt|Hge].
  2:{ intros [= <- <-]. split; [exact Logic.I|]. left. cbn. auto. }
  destruct (Z.eqb_spec (validateRdh (rdhAt pageOffset)) 0) as [Hv|Hv];
    cbn [negb].
  2:{ intros [= <- <-]. split; [cbn; auto|]. right. left.
      exists [], pageOffset. cbn. auto. }
  destruct (Z.eqb_spec link (getLinkId (rdhAt pageOffset))) as [Hl|Hl];
    cbn [negb].
  2:{ intros [= <- <-]. split; [cbn; auto|]. right. right.
      exists [], pageOffset. cbn. repeat split; auto. }
  destruct (orbitOutOfRange bh (rdhAt pageOffset)) eqn:Hout.
  { intros [= <- <-]. split; [cbn; auto|]. right. right.
    exists [], pageOffset. cbn. repeat split; auto. }
  assert (Hc : rdhConsistent bh link (rdhAt pageOffset))
    by (repeat split; auto).
  destruct (Z.eqb_spec (u16 (getOffsetNextPacket (rdhAt pageOffset))) 0)
    as [Hz|Hnz].
  { intros [= <- <-]. split; [cbn; auto|]. left. cbn. repeat split; auto. }
  destruct (rdhCheckLoop fuel rdhAt bh blockSize _ _ _) as [[s1 ex1]|] eqn:E;
    [|discriminate].
  intros [= <- <-].
  pose proof (wrap_range 16 (getOffsetNextPacket (rdhAt pageOffset))) as Hr.
  unfold in_u in Hr. fold (u16 (getOffsetNextPacket (rdhAt pageOffset))) in Hr.
  specialize (Hr ltac:(lia)).
  apply IH in E; [|lia].
  destruct (Z.eqb_spec (pageOffset + u16 (getOffsetNextPacket (rdhAt pageOffset))) 0)
    as [|_]; [lia|].
  destruct E as [Hch Hw]. split; [cbn; auto|].
  destruct Hw as [(Hwh & Hall & ->)|[(good & o & -> & Hall & Hbad & ->)
                                    |(good & o & -> & Hall & Hok & Hbad & ->)]].
  - left. cbn [isWholeChain List.length]. repeat split; auto.
    now rewrite Nat.iter_succ_r.
  - right. left. exists (pageOffset :: good), o. cbn [app List.length].
    repeat split; auto. now rewrite Nat.iter_succ_r.
  - right. right. exists (pageOffset :: good), o. cbn [app List.length].
    repeat split; auto.
    now rewrite (Nat.iter_succ_r (S (List.length good))).
Qed.

(** The walk of [processRdh] over a page always ends.  The headers examined
    are those met from offset 0 along [offsetNextPacket], inside the
    payload.  Either all of them are well formed, carry the link of the
    first one and have their orbit in the range of the page, the chain was
    followed to its end and each of them was counted ok; or the walk stopped
    at the first header that fails a test, every header before it passes
    them, and one error counter went up by one: [statsRdhCheckErr] for a
    malformed header, [statsRdhCheckStreamErr] for another link or orbit. *)
Theorem rdh_walk_outcome
  (U : Sentinels) (rdhAt : Z -> RdhHandle) (bh : DataBlockHeader)
  (s : RdhStats) :
  exists s' ex,
    rdhCheckPage U rdhAt bh s = Some (s', ex) /\
    isChain rdhAt (dataSize bh) 0 ex /\
    walkOutcome rdhAt bh (dataSize bh) 0 (getLinkId (rdhAt 0)) s s' ex.
Proof.
  destruct (rdhCheckPage_total U rdhAt bh s) as [[s' ex] E].
  exists s', ex. split; [exact E|].
  unfold rdhCheckPage in E.
  apply rdhCheckLoop_outcome in E; [|lia]. exact E.
Qed.

(** A page whose first RDH is malformed: [processRdh] leaves the timeframe
    state as it was, gives the page the undefined identifiers and orbits,
    does not mark it as RDH-formatted, examines no further header and counts
    one [statsRdhCheckErr]. *)
Theorem malformed_first_rdh_leaves_page_untagged
  (U : Sentinels) (period : Z) (decodeRdh : list Byte.byte -> Z -> RdhHandle)
  (useFirst : bool) (st : TimeframeState) (s : RdhStats) (block : DataBlock) :
  validateRdh (decodeRdh (data block) 0) <> 0 ->
  0 < dataSize (header block) ->
  processRdh U period decodeRdh useFirst true st s block
  = (st, errRdh s,
     with_header
       (with_tags (undefinedTimeframeId U) (undefinedSystemId U)
          (undefinedFeeId U) (undefinedEquipmentId U) (undefinedLinkId U)
          (undefinedOrbit U) (undefinedOrbit U) (header block))
       block).
Proof.
  intros Hv Hd. unfold processRdh. rewrite orb_true_r.
  unfold tagDatablockFromRdh, getTimeframeOrbitRange.
  destruct (Z.eqb_spec (validateRdh (decodeRdh (data block) 0)) 0) as [|_];
    [contradiction|].
  cbn [negb]. rewrite Z.eqb_refl. cbn [Z.eqb].
  unfold rdhCheckPage. cbn [rdhCheckLoop with_tags dataSize].
  destruct (Z.ltb_spec 0 (dataSize (header block))) as [_|]; [|lia].
  destruct (Z.eqb_spec (validateRdh (decodeRdh (data block) 0)) 0) as [|_];
    [contradiction|].
  reflexivity.
Qed.

Lemma malformed_first_rdh_leaves_page_untagged_witness :
  processRdh exampleSentinels 256 noRdh false true
    (mkTF 3 2 100 true) (mkRdhStats 5 1 0) exampleBlock
  = (mkTF 3 2 100 true, mkRdhStats 5 2 0,
     mkBlock (mkHeader 0 192 0 0 65535 255 65535 255 0 0 0 0 false false) []).
Proof.
  rewrite (malformed_first_rdh_leaves_page_untagged exampleSentinels 256 noRdh
             false (mkTF 3 2 100 true) (mkRdhStats 5 1 0) exampleBlock).
  - reflexivity.
  - cbn. lia.
  - cbn. lia.
Defined.


(** *** The count of timeframes *)

(** The number of places in [l] where the value differs from the one
    before it, [prev] standing before the first. *)
Fixpoint changes (prev : Z) (l : list Z) : Z :=
  match l with
  | [] => 0
  | x :: r => (if x =? prev then 0 else 1) + changes x r
  end.

Lemma changes_bounds l : forall prev, 0 <= changes prev l <= Z.of_nat (List.length l).
Proof.
  induction l as [|x r IH]; intros prev; cbn [changes List.length]; [lia|].
  specialize (IH x). destruct (x =? prev); lia.
Qed.

Lemma observeOrbits_count period orbits : forall st,
  0 <= statsNumberOfTimeframes st ->
  statsNumberOfTimeframes st + Z.of_nat (List.length orbits) < 2 ^ 64 ->
  let '(st', tfs) := observeOrbits period st orbits in
  statsNumberOfTimeframes st'
  = statsNumberOfTimeframes st + changes (currentTimeframe st) tfs.
Proof.
  induction orbits as [|o rest IH]; intros st H0 Hlt.
  - cbn. lia.
  - cbn [observeOrbits List.length] in *.
    unfold getTimeframeFromOrbit.
    set (tf := u32 _). set (st1 := mkTF tf _ _ true).
    specialize (IH st1).
    assert (Hn1 : statsNumberOfTimeframes st1
                  = statsNumberOfTimeframes st
                    + (if tf =? currentTimeframe st then 0 else 1)).
    { subst st1. cbn [statsNumberOfTimeframes].
      destruct (tf =? currentTimeframe st); cbn [negb]; [lia|].
      apply u64_small. lia. }
    destruct (observeOrbits period st1 rest) as [st2 tfs].
    cbn [changes]. rewrite IH.
    + subst st1. cbn [currentTimeframe] in *. lia.
    + destruct (tf =? currentTimeframe st); lia.
    + destruct (tf =? currentTimeframe st); lia.
Qed.

(** On a list that never decreases, the changes are the distinct values. *)
Lemma changes_sorted : forall r x,
  StronglySorted Z.le (x :: r) ->
  changes x r + 1 = Z.of_nat (List.length (nodup Z.eq_dec (x :: r))).
Proof.
  induction r as [|y r IH]; intros x Hs; [reflexivity|].
  inversion Hs as [|? ? Hs' Hx]; subst.
  inversion Hx as [|? ? Hxy Hxr]; subst.
  cbn [changes].
  destruct (Z.eqb_spec y x) as [->|Hne].
  - rewrite Z.add_0_l, (IH x Hs').
    cbn [nodup]. destruct (in_dec Z.eq_dec x (x :: r)) as [|Hn];
      [reflexivity|]. exfalso. apply Hn. now left.
  - pose proof (IH y Hs') as Hy. cbn [nodup] in *.
    destruct (in_dec Z.eq_dec x (y :: r)) as [Hin|_].
    + exfalso. inversion Hs' as [|? ? _ Hyr]; subst.
      destruct Hin as [->|Hin]; [congruence|].
      rewrite Forall_forall in Hyr. specialize (Hyr x Hin). lia.
    + cbn [List.length]. rewrite Nat2Z.inj_succ. lia.
Qed.

Lemma tfIdOfOrbit_mono period first o1 o2 :
  0 < period -> 0 <= first -> first <= o1 <= o2 -> o2 < 2 ^ 32 - 1 ->
  tfIdOfOrbit period first o1 <= tfIdOfOrbit period first o2.
Proof.
  intros Hp H0 H1 H2.
  assert (Hq : forall o, first <= o < 2 ^ 32 - 1 ->
                 0 <= (o - first) / period < 2 ^ 32 - 1).
  { intros o Ho. split; [apply Z.div_pos; lia|].
    apply Z.le_lt_trans with (o - first); [|lia].
    apply Z.div_le_upper_bound; nia. }
  assert (Hplain : forall o, first <= o < 2 ^ 32 - 1 ->
                     tfIdOfOrbit period first o = 1 + (o - first) / period).
  { intros o Ho. specialize (Hq o Ho). apply tfIdOfOrbit_plain; lia. }
  rewrite !Hplain by lia.
  pose proof (Z.div_le_mono (o1 - first) (o2 - first) period Hp ltac:(lia)).
  lia.
Qed.

(** While the heartbeat orbits observed do not decrease (and the 32-bit
    orbit counter does not wrap), the timeframe ids given to the pages do
    not decrease either, and [statsNumberOfTimeframes] is the number of
    distinct timeframes seen since [initCounters], gaps in the numbering
    or not. *)
Theorem timeframes_counted_once
  (U : Sentinels) (period o0 : Z) (rest : list Z) :
  0 < period ->
  0 <= o0 ->
  undefinedTimeframeId U <> 1 ->
  StronglySorted Z.le (o0 :: rest) ->
  Forall (fun o => o < 2 ^ 32 - 1) (o0 :: rest) ->
  Z.of_nat (List.length (o0 :: rest)) < 2 ^ 64 ->
  let '(st, tfs) := observeOrbits period (initCounters_tf U) (o0 :: rest) in
  StronglySorted Z.le tfs /\
  statsNumberOfTimeframes st
  = Z.of_nat (List.length (nodup Z.eq_dec tfs)).
Proof.
  intros Hp H0 Hu Hs Hb Hlen.
  pose proof (observeOrbits_count period (o0 :: rest) (initCounters_tf U)
                ltac:(cbn; lia) ltac:(cbn [initCounters_tf statsNumberOfTimeframes]; lia))
    as Hc.
  cbn [observeOrbits] in *.
  unfold getTimeframeFromOrbit at 1 in Hc. unfold getTimeframeFromOrbit at 1.
  cbn [initCounters_tf isDefinedFirstTimeframeHbOrbitBegin
       firstTimeframeHbOrbitBegin currentTimeframe statsNumberOfTimeframes]
    in *.
  set (st1 := mkTF _ _ o0 true) in *.
  pose proof (observeOrbits_defined period rest st1 eq_refl) as Hd.
  destruct (observeOrbits period st1 rest) as [st2 tfs].
  destruct Hd as (Htfs & _ & _). subst st1.
  cbn [firstTimeframeHbOrbitBegin] in Htfs.
  assert (H1 : u32 (1 + u32 (o0 - o0) / period) = 1).
  { rewrite Z.sub_diag. reflexivity. }
  rewrite H1 in *.
  assert (Hsorted : StronglySorted Z.le (1 :: tfs)).
  { assert (Hall : 1 :: tfs = map (tfIdOfOrbit period o0) (o0 :: rest)).
    { cbn [map]. unfold tfIdOfOrbit at 1. rewrite H1, Htfs. reflexivity. }
    rewrite Hall. clear - Hp H0 Hs Hb.
    assert (Hge : Forall (fun o => o0 <= o) (o0 :: rest)).
    { inversion Hs; subst. constructor; [lia | assumption]. }
    revert Hs Hb Hge. generalize (o0 :: rest) as l.
    induction l as [|a l IH]; intros Hs Hb Hge; cbn [map]; [constructor|].
    inversion Hs as [|? ? Hs' Ha]; subst.
    inversion Hb as [|? ? Hba Hb']; subst.
    inversion Hge as [|? ? Hga Hge']; subst.
    constructor; [now apply IH|].
    rewrite Forall_forall in *. intros y Hy.
    apply in_map_iff in Hy. destruct Hy as (o & <- & Ho).
    apply tfIdOfOrbit_mono; try assumption.
    - split; [assumption | now apply Ha].
    - now apply Hb'. }
  split; [exact Hsorted|].
  rewrite Hc. cbn [changes].
  destruct (Z.eqb_spec 1 (undefinedTimeframeId U)) as [E|_]; [congruence|].
  rewrite <- (changes_sorted tfs 1 Hsorted). lia.
Qed.

Lemma timeframes_counted_once_witness :
  observeOrbits 256 (initCounters_tf exampleSentinels)
    [1000; 1255; 1256; 2000; 2001]
  = (mkTF 4 3 1000 true, [1; 1; 2; 4; 4]) /\
  statsNumberOfTimeframes
    (fst (observeOrbits 256 (initCounters_tf exampleSentinels)
            [1000; 1255; 1256; 2000; 2001]))
  = Z.of_nat (List.length (nodup Z.eq_dec [1; 1; 2; 4; 4])).
Proof.
  split; [reflexivity|].
  pose proof (timeframes_counted_once exampleSentinels 256 1000
                [1255; 1256; 2000; 2001]) as H.
  destruct (observeOrbits 256 _ _) as [st tfs] eqn:E.
  assert (Et : tfs = [1; 1; 2; 4; 4])
    by (vm_compute in E; now injection E as _ <-).
  cbn [fst]. rewrite <- Et. apply H.
  - lia.
  - lia.
  - cbn. lia.
  - repeat constructor; lia.
  - repeat constructor; lia.
  - cbn. lia.
Defined.

End Equipment.

(* ------------------------------------------------------------------ *)
(** ** ConsumerFMQchannel.cxx: the subtimeframe dispatcher *)

Module Dispatcher.

(** Modelled from the spec: SubTimeframe.h is not among the sources at hand;
    the STF header has the fields of the wire layout, each as wide as the
    page header field it is copied from. *)
Module STF.
Record SubTimeframe : Type := mk {
  timeframeId : Z;
  runNumber : Z;
  systemId : Z;
  linkId : Z;
  feeId : Z;
  equipmentId : Z;
  timeframeOrbitFirst : Z;
  timeframeOrbitLast : Z;
  isRdhFormat : Z;
  lastTFMessage : Z
}.
End STF.

(** DataBlockContainer.h: the page and the usable size of its buffer. *)
Record DataBlockContainer : Type := mkContainer {
  getData : DataBlock;
  getDataBufferSize : Z
}.

Definition DataSet : Type := list DataBlockContainer.

(** The two fields of [o2::Header::RAWDataHeader] the slicing reads, found
    in the payload at a byte offset, and the size of the struct.
    RAWDataHeader.h is not among the sources at hand. *)
Record RdhLayout : Type := mkLayout {
  sizeofRDH : Z;
  heartbeatOrbit : list Byte.byte -> Z -> Z;      (* uint32 *)
  offsetNextPacket : list Byte.byte -> Z -> Z     (* uint16 *)
}.

(** Modelled from the spec: MemoryPagesPool is not among the sources at
    hand.  [acquire] is non-blocking and returns none when the pool is
    empty; a free page is known by the bytes its buffer holds. *)
Definition Pool : Type := list (list Byte.byte).

Definition getNewDataBlockContainer (mp : Pool)
  : option (list Byte.byte) * Pool :=
  match mp with
  | page :: rest => (Some page, rest)
  | [] => (None, [])
  end.

(** Modelled from the spec: [DataBlockContainer::getChildBlock] is not in
    the header at hand.  It sub-allocates [nBytes] from the unused tail of
    the parent's usable range if they are available, else returns none.
    The parent is known by its unused tail; the result is the child region
    and what is left of the tail. *)
Definition getChildBlock (parentTail : list Byte.byte) (nBytes : Z)
  : option (list Byte.byte * list Byte.byte) :=
  if (0 <=? nBytes) && (nBytes <=? Z.of_nat (List.length parentTail))
  then Some (firstn (Z.to_nat nBytes) parentTail,
             skipn (Z.to_nat nBytes) parentTail)
  else None.

(** Bytes [ix, ix + l) of a buffer. *)
Definition slice (ix l : Z) (d : list Byte.byte) : list Byte.byte :=
  firstn (Z.to_nat l) (skipn (Z.to_nat ix) d).

(** [memcpy(&dst[dOff], &src[sOff], l)]. *)
Definition memcpy (dst : list Byte.byte) (dOff : Z) (src : list Byte.byte)
  (sOff l : Z) : list Byte.byte :=
  firstn (Z.to_nat dOff) dst ++ slice sOff l src
  ++ skipn (Z.to_nat (dOff + l)) dst.

(** A part of an outgoing message: where its bytes are and how many. *)
Inductive Part : Type :=
| StfPart (h : STF.SubTimeframe)
| BlockHeaderPart (h : DataBlockHeader)    (* raw format with page header *)
| PagePart (b : DataBlock) (ix l : Z)      (* [&b->data[ix]], [l] bytes *)
| CopyPart (newBlock : list Byte.byte) (totalSize : Z).

Record Config : Type := mkConfig {
  layout : RdhLayout;
  sizeofSubTimeframe : Z;
  stfhDefaults : STF.SubTimeframe;
  disableSending : bool;
  enableRawFormat : bool;
  enableStfSuperpage : bool;
  enableRawFormatDatablock : bool;
  enablePackedCopy : bool;
  memoryPoolPageSize : Z;
  nwThreads : Z;
  wThreadFifoSize : Z;
  channelSend : list Part -> bool            (* [Send(...) >= 0] *)
}.

Definition partSize (cfg : Config) (p : Part) : Z :=
  match p with
  | StfPart _ => sizeofSubTimeframe cfg
  | BlockHeaderPart h => headerSize h
  | PagePart _ _ l => l
  | CopyPart _ totalSize => totalSize
  end.

(** The payload bytes a data part points to. *)
Definition partBytes (p : Part) : list Byte.byte :=
  match p with
  | StfPart _ => []
  | BlockHeaderPart _ => []
  | PagePart b ix l => slice ix l (data b)
  | CopyPart newBlock totalSize => firstn (Z.to_nat totalSize) newBlock
  end.

Record pendingFrame : Type := mkPending {
  blockRef : DataBlockContainer;
  HBstart : Z;
  HBlength : Z;
  HBid : Z
}.

Definition frameBytes (f : pendingFrame) : list Byte.byte :=
  slice (HBstart f) (HBlength f) (data (getData (blockRef f))).

(** What the second pass of [DDformatMessage] works on: the pool, the
    scratch page of the packed copy (its unused tail), the frames not sent
    yet, the parts queued, and the counters it moves.  Offsets and sizes are
    those of pages, far below 2^31, and are carried without wrap-around. *)
Record Fmt : Type := mkFmt {
  mp : Pool;
  copyBlockBuffer : option (list Byte.byte);
  pendingFrames : list pendingFrame;
  messagesToSend : list Part;
  subTimeframeFMQSize : Z;
  subTimeframeMemorySize : Z;
  ddHBFRepacked : Z;
  ddBytesCopied : Z;
  nPagesUsedForRepack : Z
}.

(** A step of the second pass either goes on or throws [__LINE__]. *)
Inductive Res : Type :=
| Done (s : Fmt)
| Thrown (line : Z) (s : Fmt).

Definition pendingFramesAppend (ix l id : Z) (br : DataBlockContainer)
  (s : Fmt) : Fmt :=
  mkFmt (mp s) (copyBlockBuffer s)
    (pendingFrames s ++ [mkPending br ix l id])
    (messagesToSend s) (subTimeframeFMQSize s) (subTimeframeMemorySize s)
    (ddHBFRepacked s) (ddBytesCopied s) (nPagesUsedForRepack s).

Definition totalSizeOf (fs : list pendingFrame) : Z :=
  fold_left (fun acc f => acc + HBlength f) fs 0.

(** The copy loop of the repack: returns the scratch region and [newIx]. *)
Fixpoint copyFrames (fs : list pendingFrame) (newBlock : list Byte.byte)
  (newIx : Z) : list Byte.byte * Z :=
  match fs with
  | [] => (newBlock, newIx)
  | f :: rest =>
      let b := getData (blockRef f) in
      copyFrames rest
        (memcpy newBlock newIx (data b) (HBstart f) (HBlength f))
        (newIx + HBlength f)
  end.

(** Outcome of looking for a scratch region. *)
Record Alloc : Type := mkAlloc {
  a_mp : Pool;
  a_copyBlockBuffer : option (list Byte.byte);
  a_isNewBlock : bool;
  a_copyBlockMemSize : Z;
  a_nPages : Z;
  a_copyBlock : option (list Byte.byte)
}.

(** The loop [for (int i = 0; i <= 2; i++)] of the packed copy, with
    [turns] the number of turns left. *)
Fixpoint allocPacked (turns : nat) (totalSize : Z) (a : Alloc) : Alloc :=
  match turns with
  | O => a
  | S turns' =>
      match a_copyBlockBuffer a with
      | None =>
          let '(page, mp') := getNewDataBlockContainer (a_mp a) in
          allocPacked turns' totalSize
            (mkAlloc mp' page true
               (match page with
                | Some p => Z.of_nat (List.length p)
                | None => a_copyBlockMemSize a
                end)
               (u64 (a_nPages a + 1)) None)
      | Some tail =>
          match getChildBlock tail totalSize with
          | None =>
              allocPacked turns' totalSize
                (mkAlloc (a_mp a) None (a_isNewBlock a)
                   (a_copyBlockMemSize a) (a_nPages a) None)
          | Some (child, tail') =>
              mkAlloc (a_mp a) (Some tail') (a_isNewBlock a)
                (a_copyBlockMemSize a) (a_nPages a) (Some child)
          end
      end
  end.

(** One scratch page per repack, when the packed copy is off. *)
Definition allocPlain (a : Alloc) : Alloc :=
  let '(page, mp') := getNewDataBlockContainer (a_mp a) in
  mkAlloc mp' (a_copyBlockBuffer a) true
    (match page with
     | Some p => Z.of_nat (List.length p)
     | None => 0
     end)
    (u64 (a_nPages a + 1)) page.

Section Format.

Variable cfg : Config.

(** The lambda [pendingFramesCollect]. *)
Definition pendingFramesCollect (s : Fmt) : Res :=
  match pendingFrames s with
  | [] => Done s
  | [f] =>
      Done (mkFmt (mp s) (copyBlockBuffer s) []
              (messagesToSend s
               ++ [PagePart (getData (blockRef f)) (HBstart f) (HBlength f)])
              (subTimeframeFMQSize s + HBlength f)
              (subTimeframeMemorySize s)
              (ddHBFRepacked s) (ddBytesCopied s) (nPagesUsedForRepack s))
  | fs =>
      let repacked := u64 (ddHBFRepacked s + 1) in
      let totalSize := totalSizeOf fs in
      if memoryPoolPageSize cfg <? totalSize then
        Thrown 884
          (mkFmt (mp s) (copyBlockBuffer s) fs (messagesToSend s)
             (subTimeframeFMQSize s) (subTimeframeMemorySize s)
             repacked (ddBytesCopied s) (nPagesUsedForRepack s))
      else
        let a0 := mkAlloc (mp s) (copyBlockBuffer s) false 0
                    (nPagesUsedForRepack s) None in
        let a := if enablePackedCopy cfg then allocPacked 3 totalSize a0
                 else allocPlain a0 in
        match a_copyBlock a with
        | None =>
            Thrown 924
              (mkFmt (a_mp a) (a_copyBlockBuffer a) fs (messagesToSend s)
                 (subTimeframeFMQSize s) (subTimeframeMemorySize s)
                 repacked (ddBytesCopied s) (a_nPages a))
        | Some newBlock =>
            let memSize :=
              if a_isNewBlock a
              then subTimeframeMemorySize s + a_copyBlockMemSize a
              else subTimeframeMemorySize s in
            let '(filled, _) := copyFrames fs newBlock 0 in
            Done (mkFmt (a_mp a) (a_copyBlockBuffer a) []
                    (messagesToSend s ++ [CopyPart filled totalSize])
                    (subTimeframeFMQSize s + totalSize)
                    memSize repacked
                    (u64 (ddBytesCopied s + totalSize))
                    (a_nPages a))
        end
  end.

(** Outcome of the walk over one page: the frames state, [HBstart] and
    [lastHBid] when the loop has ended, or the exception. *)
Inductive Walk : Type :=
| WDone (s : Fmt) (HBstart lastHBid : Z)
| WThrown (line : Z) (s : Fmt).

(** The loop
    [for (int offset = 0; offset + sizeof(RAWDataHeader) <= dataSize;)]
    of the second pass, over the page of [br]. *)
Fixpoint hbfWalk (fuel : nat) (br : DataBlockContainer)
  (offset HBstart lastHBid : Z) (s : Fmt) : Walk :=
  match fuel with
  | O => WDone s HBstart lastHBid
  | S fuel' =>
      let b := getData br in
      if offset + sizeofRDH (layout cfg) <=? dataSize (header b) then
        let hb := heartbeatOrbit (layout cfg) (data b) offset in
        let next (s' : Fmt) (HBstart' lastHBid' : Z) : Walk :=
          let n := u16 (offsetNextPacket (layout cfg) (data b) offset) in
          if n =? 0 then WDone s' HBstart' lastHBid'
          else hbfWalk fuel' br (offset + n) HBstart' lastHBid' s' in
        if negb (hb =? lastHBid) then
          let HBlength := offset - HBstart in
          let s1 := if negb (HBlength =? 0)
                    then pendingFramesAppend HBstart HBlength lastHBid br s
                    else s in
          match pendingFramesCollect s1 with
          | Done s2 => next s2 offset hb
          | Thrown e s2 => WThrown e s2
          end
        else next s HBstart lastHBid
      else WDone s HBstart lastHBid
  end.

Definition walkFuel (br : DataBlockContainer) : nat :=
  S (Z.to_nat (dataSize (header (getData br)))).

(** The loop over the pages of the data set, then the purge. *)
Fixpoint formatBlocks (bc : DataSet) (lastHBid : Z) (s : Fmt) : Res :=
  match bc with
  | [] => pendingFramesCollect s
  | br :: rest =>
      match hbfWalk (walkFuel br) br 0 0 lastHBid s with
      | WThrown e s' => Thrown e s'
      | WDone s1 HBstart lastHBid1 =>
          let size := dataSize (header (getData br)) in
          let s2 := if HBstart <? size
                    then pendingFramesAppend HBstart (size - HBstart)
                           lastHBid1 br s1
                    else s1 in
          formatBlocks rest lastHBid1 s2
      end
  end.

(** "fill STF header": the eight tags and [isRdhFormat] of a page. *)
Definition fillFromBlock (h : DataBlockHeader) (stf : STF.SubTimeframe)
  : STF.SubTimeframe :=
  STF.mk (timeframeId h) (runNumber h) (systemId h) (linkId h) (feeId h)
    (equipmentId h) (timeframeOrbitFirst h) (timeframeOrbitLast h)
    (Z.b2z (isRdhFormat h)) (STF.lastTFMessage stf).

Definition set_lastTFMessage (v : Z) (stf : STF.SubTimeframe)
  : STF.SubTimeframe :=
  STF.mk (STF.timeframeId stf) (STF.runNumber stf) (STF.systemId stf)
    (STF.linkId stf) (STF.feeId stf) (STF.equipmentId stf)
    (STF.timeframeOrbitFirst stf) (STF.timeframeOrbitLast stf)
    (STF.isRdhFormat stf) v.

(** The first pass, as far as the STF header goes (its walk over the RDHs
    only logs link mismatches). *)
Fixpoint firstPass (isFirst : bool) (bc : DataSet) (stf : STF.SubTimeframe)
  : STF.SubTimeframe :=
  match bc with
  | [] => stf
  | br :: rest =>
      let h := header (getData br) in
      let stf1 := if flagEndOfTimeframe h then set_lastTFMessage 1 stf
                  else stf in
      let stf2 := if isFirst then fillFromBlock h stf1 else stf1 in
      firstPass false rest stf2
  end.

Definition sumDataSize (bc : DataSet) : Z :=
  fold_left (fun acc br => acc + dataSize (header (getData br))) bc 0.

Definition sumBufferSize (bc : DataSet) : Z :=
  fold_left (fun acc br => acc + getDataBufferSize br) bc 0.

Record DDMessage : Type := mkDDMessage {
  dd_messagesToSend : list Part;
  dd_stfHeader : STF.SubTimeframe;
  dd_subTimeframeDataSize : Z;
  dd_subTimeframeTotalSize : Z;
  dd_subTimeframeMemorySize : Z;
  dd_subTimeframeFMQSize : Z
}.

(** The members of the consumer the formatting and the sending move.
    [sh_mp] holds the free pages of the pool.  A page taken from it goes
    back when the last reference to it is dropped: for a page that has left
    in a message the transport does that, later and outside this model; the
    pages of a message list that [DDformatMessage] clears go back at once. *)
Record Shared : Type := mkShared {
  sh_mp : Pool;
  totalPushSuccess : Z;
  totalPushError : Z;
  sh_ddHBFRepacked : Z;
  sh_ddBytesCopied : Z;
  sh_nPagesUsedForRepack : Z;
  nPagesUsedInput : Z;
  bytesFairMQ : Z;
  timeframeIdFairMQ : Z;
  sent : list (list Part)        (* what the channel was given, in order *)
}.

Definition pushError (sh : Shared) : Shared :=
  mkShared (sh_mp sh) (totalPushSuccess sh) (u64 (totalPushError sh + 1))
    (sh_ddHBFRepacked sh) (sh_ddBytesCopied sh) (sh_nPagesUsedForRepack sh)
    (nPagesUsedInput sh) (bytesFairMQ sh) (timeframeIdFairMQ sh) (sent sh).

Definition pushSuccess (sh : Shared) : Shared :=
  mkShared (sh_mp sh) (u64 (totalPushSuccess sh + 1)) (totalPushError sh)
    (sh_ddHBFRepacked sh) (sh_ddBytesCopied sh) (sh_nPagesUsedForRepack sh)
    (nPagesUsedInput sh) (bytesFairMQ sh) (timeframeIdFairMQ sh) (sent sh).

Definition afterFormat (s : Fmt) (sh : Shared) : Shared :=
  mkShared (mp s) (totalPushSuccess sh) (totalPushError sh)
    (ddHBFRepacked s) (ddBytesCopied s) (nPagesUsedForRepack s)
    (nPagesUsedInput sh) (bytesFairMQ sh) (timeframeIdFairMQ sh) (sent sh).

(** The pages a call has taken from the pool of [sh], oldest first: the
    pool hands out its pages from the front. *)
Definition pagesTaken (s : Fmt) (sh : Shared) : list (list Byte.byte) :=
  firstn (List.length (sh_mp sh) - List.length (mp s)) (sh_mp sh).

(** The pool after the catch block and the return that follows it:
    [messagesToSend] is cleared and the locals go out of scope, which drops
    the last references to the pages the call took from the pool, and they
    go back to it.  Modelled from the spec: the free list is a stack, and a
    page released is pushed on top of it.  The parts are destroyed front to
    back; the header page, which the local [headerBlock] holds too, goes
    after them, and the scratch page that the local [copyBlockBuffer] still
    holds goes last.  The bytes written to a page that goes back are not
    followed. *)
Definition releaseTaken (s : Fmt) (sh : Shared) : Pool :=
  match pagesTaken s sh with
  | [] => mp s
  | headerBlock :: scratch =>
      match copyBlockBuffer s, rev scratch with
      | Some _, current :: older => current :: headerBlock :: older ++ mp s
      | _, newestFirst => headerBlock :: newestFirst ++ mp s
      end
  end.

Definition afterThrow (s : Fmt) (sh : Shared) : Shared :=
  mkShared (releaseTaken s sh) (totalPushSuccess sh) (totalPushError sh)
    (ddHBFRepacked s) (ddBytesCopied s) (nPagesUsedForRepack s)
    (nPagesUsedInput sh) (bytesFairMQ sh) (timeframeIdFairMQ sh) (sent sh).

Definition lastHBidInit : Z := 4294967295.   (* (unsigned int)-1 *)

(** [DDformatMessage]: the message on success (return 0), nothing on -1. *)
Definition DDformatMessage (bc : DataSet) (sh : Shared)
  : Shared * option DDMessage :=
  if memoryPoolPageSize cfg <? sizeofSubTimeframe cfg
  then (pushError sh, None)
  else
    match getNewDataBlockContainer (sh_mp sh) with
    | (None, _) => (pushError sh, None)
    | (Some headerBlock, mp1) =>
        let stf := firstPass true bc (stfhDefaults cfg) in
        let dataSz := sumDataSize bc in
        let s0 :=
          mkFmt mp1 None [] [StfPart stf] (sizeofSubTimeframe cfg)
            (Z.of_nat (List.length headerBlock) + sumBufferSize bc)
            (sh_ddHBFRepacked sh) (sh_ddBytesCopied sh)
            (sh_nPagesUsedForRepack sh) in
        match formatBlocks bc lastHBidInit s0 with
        | Thrown _ s => (pushError (afterThrow s sh), None)
        | Done s =>
            (afterFormat s sh,
             Some (mkDDMessage (messagesToSend s) stf dataSz
                     (sizeofSubTimeframe cfg + dataSz)
                     (subTimeframeMemorySize s)
                     (subTimeframeFMQSize s)))
        end
    end.

(** [DDsendMessage]: true for return 0. *)
Definition DDsendMessage (ddm : DDMessage) (sh : Shared) : Shared * bool :=
  if channelSend cfg (dd_messagesToSend ddm) then
    (mkShared (sh_mp sh) (u64 (totalPushSuccess sh + 1)) (totalPushError sh)
       (sh_ddHBFRepacked sh) (sh_ddBytesCopied sh)
       (sh_nPagesUsedForRepack sh) (nPagesUsedInput sh)
       (u64 (bytesFairMQ sh + dd_subTimeframeTotalSize ddm))
       (STF.timeframeId (dd_stfHeader ddm))
       (sent sh ++ [dd_messagesToSend ddm]),
     true)
  else (sh, false).

(** *** Worker pool *)

(** One formatting thread: the FIFO of timeframes to format and the FIFO of
    message lists ready to be sent, oldest first. *)
Record wThread : Type := mkWThread {
  input : list (list DataSet);
  output : list (list DDMessage)
}.

Record Consumer : Type := mkConsumer {
  shared : Shared;
  currentTimeframeId : Z;
  currentTimeframeBuffer : option (list DataSet);
  wThreads : list wThread;
  wThreadIxWrite : Z;
  thIxRead : Z             (* the local [thIx] of [senderThreadLoop] *)
}.

Definition with_shared (sh : Shared) (c : Consumer) : Consumer :=
  mkConsumer sh (currentTimeframeId c) (currentTimeframeBuffer c)
    (wThreads c) (wThreadIxWrite c) (thIxRead c).

Definition fifoFull {A : Type} (q : list A) : bool :=
  wThreadFifoSize cfg <=? Z.of_nat (List.length q).

Fixpoint updateAt {A : Type} (n : nat) (x : A) (l : list A) : list A :=
  match l, n with
  | [], _ => []
  | _ :: r, O => x :: r
  | y :: r, S n' => y :: updateAt n' x r
  end.

(** Index of the next thread, round-robin. *)
Definition nextIx (ix : Z) : Z :=
  if ix + 1 =? nwThreads cfg then 0 else ix + 1.

(** The lambda [pushCurrentTimeframe] and its return value. *)
Definition pushCurrentTimeframe (c : Consumer) : Consumer * Z :=
  match currentTimeframeBuffer c with
  | None => (c, 0)
  | Some buffer =>
      match nth_error (wThreads c) (Z.to_nat (wThreadIxWrite c)) with
      | None => (c, 0)    (* no such thread: not reached, see [wellFormed] *)
      | Some w =>
          if fifoFull (input w) then
            (with_shared (pushError (shared c)) c, -1)
          else
            (mkConsumer (shared c) (currentTimeframeId c) None
               (updateAt (Z.to_nat (wThreadIxWrite c))
                  (mkWThread (input w ++ [buffer]) (output w)) (wThreads c))
               (nextIx (wThreadIxWrite c)) (thIxRead c),
             0)
      end
  end.

(** [processForDataDistribution] and its return value. *)
Definition processForDataDistribution (bc : DataSet) (c : Consumer)
  : Consumer * Z :=
  if nwThreads cfg =? 0 then
    match DDformatMessage bc (shared c) with
    | (sh1, None) => (with_shared (pushError sh1) c, -1)
    | (sh1, Some msg) =>
        match DDsendMessage msg sh1 with
        | (sh2, true) => (with_shared sh2 c, 0)
        | (sh2, false) => (with_shared (pushError sh2) c, -1)
        end
    end
  else
    match bc with
    | [] => (c, 0)
    | front :: _ =>
        let b1 := header (getData front) in
        let b2 := header (getData (last bc front)) in
        if negb (timeframeId b1 =? timeframeId b2) then
          (with_shared (pushError (shared c)) c, -1)
        else
          let newTimeframeId := timeframeId b1 in
          let c1 :=
            if negb (newTimeframeId =? currentTimeframeId c) then
              let c' := fst (pushCurrentTimeframe c) in
              mkConsumer (shared c') newTimeframeId (Some [])
                (wThreads c') (wThreadIxWrite c') (thIxRead c')
            else c in
          match currentTimeframeBuffer c1 with
          | None => (with_shared (pushError (shared c1)) c1, -1)
          | Some buffer =>
              let c2 :=
                mkConsumer (shared c1) (currentTimeframeId c1)
                  (Some (buffer ++ [bc])) (wThreads c1) (wThreadIxWrite c1)
                  (thIxRead c1) in
              if flagEndOfTimeframe b2
              then (fst (pushCurrentTimeframe c2), 0)
              else (c2, 0)
          end
    end.

Definition logSend (msgs : list Part) (sh : Shared) : Shared :=
  if channelSend cfg msgs then
    mkShared (sh_mp sh) (totalPushSuccess sh) (totalPushError sh)
      (sh_ddHBFRepacked sh) (sh_ddBytesCopied sh) (sh_nPagesUsedForRepack sh)
      (nPagesUsedInput sh) (bytesFairMQ sh) (timeframeIdFairMQ sh)
      (sent sh ++ [msgs])
  else sh.

Definition countInput (n : Z) (sh : Shared) : Shared :=
  mkShared (sh_mp sh) (totalPushSuccess sh) (totalPushError sh)
    (sh_ddHBFRepacked sh) (sh_ddBytesCopied sh) (sh_nPagesUsedForRepack sh)
    (u64 (nPagesUsedInput sh + n)) (bytesFairMQ sh) (timeframeIdFairMQ sh)
    (sent sh).

Definition countBytes (n : Z) (sh : Shared) : Shared :=
  mkShared (sh_mp sh) (totalPushSuccess sh) (totalPushError sh)
    (sh_ddHBFRepacked sh) (sh_ddBytesCopied sh) (sh_nPagesUsedForRepack sh)
    (nPagesUsedInput sh) (u64 (bytesFairMQ sh + n)) (timeframeIdFairMQ sh)
    (sent sh).

Definition wholePage (br : DataBlockContainer) : Part :=
  PagePart (getData br) 0 (dataSize (header (getData br))).

(** The STF header of the StfSuperpage format: the flag from the last page,
    the eight tags from the first one.  (On an empty data set [bc->back()]
    has no meaning in C++; the header is then left at its defaults.) *)
Definition superpageHeader (bc : DataSet) : STF.SubTimeframe :=
  match bc with
  | [] => stfhDefaults cfg
  | front :: _ =>
      let stf0 := stfhDefaults cfg in
      let stf1 :=
        if flagEndOfTimeframe (header (getData (last bc front)))
        then set_lastTFMessage 1 stf0 else stf0 in
      let b := header (getData front) in
      STF.mk (timeframeId b) (runNumber b) (systemId b) (linkId b) (feeId b)
        (equipmentId b) (timeframeOrbitFirst b) (timeframeOrbitLast b)
        (STF.isRdhFormat stf1) (STF.lastTFMessage stf1)
  end.

(** [pushData(DataSetReference&)] and its return value. *)
Definition pushData (bc : DataSet) (c : Consumer) : Consumer * Z :=
  let c0 :=
    with_shared (countInput (Z.of_nat (List.length bc)) (shared c)) c in
  if disableSending cfg then
    (with_shared (pushSuccess (shared c0)) c0, 0)
  else if enableRawFormat cfg then
    let sh :=
      fold_left
        (fun sh br =>
           countBytes (dataSize (header (getData br)))
             (logSend [wholePage br] sh))
        bc (shared c0) in
    (with_shared (pushSuccess sh) c0, 0)
  else
    let isRdh :=
      match bc with
      | front :: _ => isRdhFormat (header (getData front))
      | [] => false
      end in
    if enableRawFormatDatablock cfg then
      let sh :=
        fold_left
          (fun sh br =>
             logSend [BlockHeaderPart (header (getData br)); wholePage br] sh)
          bc (shared c0) in
      (with_shared (pushSuccess sh) c0, 0)
    else if enableStfSuperpage cfg || negb isRdh then
      match getNewDataBlockContainer (sh_mp (shared c0)) with
      | (None, _) => (with_shared (pushError (shared c0)) c0, -1)
      | (Some headerBlock, mp1) =>
          let sh0 := shared c0 in
          let sh1 :=
            mkShared mp1 (totalPushSuccess sh0) (totalPushError sh0)
              (sh_ddHBFRepacked sh0) (sh_ddBytesCopied sh0)
              (sh_nPagesUsedForRepack sh0) (nPagesUsedInput sh0)
              (bytesFairMQ sh0) (timeframeIdFairMQ sh0) (sent sh0) in
          let msgs := StfPart (superpageHeader bc) :: map wholePage bc in
          (with_shared (pushSuccess (logSend msgs sh1)) c0, 0)
      end
    else processForDataDistribution bc c0.

(** The data sets of a timeframe, formatted in order; nothing if one of
    them fails. *)
Fixpoint formatAll (tf : list DataSet) (sh : Shared) (msglist : list DDMessage)
  : Shared * option (list DDMessage) :=
  match tf with
  | [] => (sh, Some msglist)
  | bc :: rest =>
      match DDformatMessage bc sh with
      | (sh1, Some m) => formatAll rest sh1 (msglist ++ [m])
      | (sh1, None) => (sh1, None)
      end
  end.

(** One turn of the loop of [wThreadLoop(thIx)]. *)
Definition wThreadLoop (thIx : nat) (c : Consumer) : Consumer :=
  match nth_error (wThreads c) thIx with
  | None => c
  | Some w =>
      if fifoFull (output w) then c
      else
        match input w with
        | [] => c
        | tf :: rest =>
            match tf with
            | [] =>
                mkConsumer (shared c) (currentTimeframeId c)
                  (currentTimeframeBuffer c)
                  (updateAt thIx (mkWThread rest (output w)) (wThreads c))
                  (wThreadIxWrite c) (thIxRead c)
            | _ =>
                match formatAll tf (shared c) [] with
                | (sh1, Some msglist) =>
                    mkConsumer sh1 (currentTimeframeId c)
                      (currentTimeframeBuffer c)
                      (updateAt thIx
                         (mkWThread rest (output w ++ [msglist]))
                         (wThreads c))
                      (wThreadIxWrite c) (thIxRead c)
                | (sh1, None) =>
                    mkConsumer (pushError sh1) (currentTimeframeId c)
                      (currentTimeframeBuffer c)
                      (updateAt thIx (mkWThread rest (output w)) (wThreads c))
                      (wThreadIxWrite c) (thIxRead c)
                end
            end
        end
  end.

(** The messages of one timeframe handed to [DDsendMessage] in order;
    the flag tells whether one of them failed. *)
Fixpoint sendAll (msglist : list DDMessage) (sh : Shared) (isError : bool)
  : Shared * bool :=
  match msglist with
  | [] => (sh, isError)
  | msg :: rest =>
      match DDsendMessage msg sh with
      | (sh1, true) => sendAll rest sh1 isError
      | (sh1, false) => sendAll rest sh1 true
      end
  end.

(** One turn of the loop of [senderThreadLoop]. *)
Definition senderThreadLoop (c : Consumer) : Consumer :=
  match nth_error (wThreads c) (Z.to_nat (thIxRead c)) with
  | None => c
  | Some w =>
      match output w with
      | [] => c
      | msglist :: rest =>
          let '(sh1, isError) := sendAll msglist (shared c) false in
          mkConsumer (if isError then pushError sh1 else sh1)
            (currentTimeframeId c) (currentTimeframeBuffer c)
            (updateAt (Z.to_nat (thIxRead c)) (mkWThread (input w) rest)
               (wThreads c))
            (wThreadIxWrite c) (nextIx (thIxRead c))
      end
  end.

(** What the threads of the consumer do, one turn at a time. *)
Inductive Turn : Type :=
| Push (bc : DataSet)          (* the aggregator calls [pushData] *)
| Worker (thIx : nat)          (* a turn of [wThreadLoop(thIx)] *)
| Sender.                      (* a turn of [senderThreadLoop] *)

Definition turn (t : Turn) (c : Consumer) : Consumer :=
  match t with
  | Push bc => fst (pushData bc c)
  | Worker thIx => wThreadLoop thIx c
  | Sender => senderThreadLoop c
  end.

Definition schedule (ts : list Turn) (c : Consumer) : Consumer :=
  fold_left (fun c t => turn t c) ts c.

(** The timeframe ids on the transport, in the order of the sends. *)
Definition sentTimeframeIds (c : Consumer) : list Z :=
  flat_map
    (fun msgs => match msgs with
                 | StfPart h :: _ => [STF.timeframeId h]
                 | _ => []
                 end)
    (sent (shared c)).

(** The timeframe ids of the data sets pushed, in order. *)
Definition pushedTimeframeIds (ts : list Turn) : list Z :=
  flat_map
    (fun t => match t with
              | Push (front :: _) => [timeframeId (header (getData front))]
              | _ => []
              end)
    ts.

End Format.

(** *** Repacking *)

(** A frame lies within the buffer of its page. *)
Definition frameInBounds (f : pendingFrame) : Prop :=
  0 <= HBstart f /\ 0 <= HBlength f /\
  HBstart f + HBlength f
  <= Z.of_nat (List.length (data (getData (blockRef f)))).

Lemma slice_length ix l d :
  0 <= ix -> 0 <= l -> ix + l <= Z.of_nat (List.length d) ->
  List.length (slice ix l d) = Z.to_nat l.
Proof.
  intros Hi Hl Hb. unfold slice. rewrite length_firstn, length_skipn. lia.
Qed.

Lemma frameBytes_length f :
  frameInBounds f -> List.length (frameBytes f) = Z.to_nat (HBlength f).
Proof. intros (H1 & H2 & H3). now apply slice_length. Qed.

Lemma totalSizeOf_acc fs : forall acc,
  fold_left (fun a f => a + HBlength f) fs acc = acc + totalSizeOf fs.
Proof.
  unfold totalSizeOf. induction fs as [|f fs IH]; intros acc; cbn [fold_left].
  - lia.
  - rewrite IH, (IH (0 + HBlength f)). lia.
Qed.

Lemma totalSizeOf_cons f fs :
  totalSizeOf (f :: fs) = HBlength f + totalSizeOf fs.
Proof.
  unfold totalSizeOf at 1. cbn [fold_left]. rewrite totalSizeOf_acc. lia.
Qed.

Lemma totalSizeOf_nonneg fs :
  Forall frameInBounds fs -> 0 <= totalSizeOf fs.
Proof.
  induction 1 as [|f fs (H1 & H2 & H3) _ IH].
  - reflexivity.
  - rewrite totalSizeOf_cons. lia.
Qed.

Lemma totalSizeOf_length fs :
  Forall frameInBounds fs ->
  List.length (List.concat (map frameBytes fs)) = Z.to_nat (totalSizeOf fs).
Proof.
  induction 1 as [|f fs Hf Hfs IH].
  - reflexivity.
  - cbn [map List.concat]. rewrite length_app, IH, frameBytes_length by assumption.
    rewrite totalSizeOf_cons.
    pose proof (totalSizeOf_nonneg fs Hfs). destruct Hf as (? & ? & ?). lia.
Qed.






Lemma allocPlain_region a newBlock :
  a_copyBlock (allocPlain a) = Some newBlock ->
  exists rest, a_mp a = newBlock :: rest.
Proof.
  unfold allocPlain, getNewDataBlockContainer.
  destruct (a_mp a) as [|page rest]; cbn; [discriminate|].
  intros [= <-]. eauto.
Qed.




(** *** The payload across the slicing

    The bytes handed to the transport, part after part, are the payloads of
    the pages of the data set, page after page. *)





Lemma firstn_plus {A : Type} (n m : nat) (l : list A) :
  firstn (n + m) l = firstn n l ++ firstn m (skipn n l).
Proof.
  revert l. induction n as [|n IH]; intros [|x l]; cbn; try reflexivity.
  - now rewrite firstn_nil.
  - now rewrite IH.
Qed.




Lemma getNewDataBlockContainer_suffix (P : list Byte.byte -> Prop) pool :
  Forall P pool -> Forall P (snd (getNewDataBlockContainer pool)).
Proof.
  destruct pool as [|pg rest]; cbn; [auto|]. intros H. now inversion H.
Qed.

Lemma allocPacked_pool (P : list Byte.byte -> Prop) totalSize :
  forall turns a,
  Forall P (a_mp a) -> Forall P (a_mp (allocPacked turns totalSize a)).
Proof.
  induction turns as [|turns IH]; intros a Ha; cbn [allocPacked]; [exact Ha|].
  destruct (a_copyBlockBuffer a) as [tail|].
  - destruct (getChildBlock tail totalSize) as [[child tail']|]; [exact Ha|].
    now apply IH.
  - pose proof (getNewDataBlockContainer_suffix P (a_mp a) Ha) as Hs.
    destruct (getNewDataBlockContainer (a_mp a)) as [pg mp']. now apply IH.
Qed.




Section Payload.

Variable cfg : Config.
Hypothesis sizeofRDH_nonneg : 0 <= sizeofRDH (layout cfg).




End Payload.

(** *** Pages for the examples

    A layout in the manner of RDH version 4: 64 bytes, [offsetNextPacket]
    in bytes 8-9 and [heartbeatOrbit] in bytes 20-23, little-endian. *)

Definition byteAt (d : list Byte.byte) (i : Z) : Z :=
  match nth_error d (Z.to_nat i) with
  | Some b => Z.of_N (Byte.to_N b)
  | None => 0
  end.

Definition le16 (d : list Byte.byte) (off : Z) : Z :=
  byteAt d off + 256 * byteAt d (off + 1).

Definition le32 (d : list Byte.byte) (off : Z) : Z :=
  le16 d off + 65536 * le16 d (off + 2).

Definition exampleLayout : RdhLayout :=
  mkLayout 64 (fun d off => le32 d (off + 20)) (fun d off => le16 d (off + 8)).

Definition byteOf (z : Z) : Byte.byte :=
  match Byte.of_N (Z.to_N (z mod 256)) with
  | Some b => b
  | None => Byte.x00
  end.

(** A packet of [len] bytes: the header, then payload bytes [fill]. *)
Definition packet (hbOrbit next : Z) (len : nat) (fill : Byte.byte)
  : list Byte.byte :=
  repeat Byte.x00 8 ++ [byteOf next; byteOf (next / 256)]
  ++ repeat Byte.x00 10
  ++ [byteOf hbOrbit; byteOf (hbOrbit / 256); byteOf (hbOrbit / 65536);
      byteOf (hbOrbit / 16777216)]
  ++ repeat Byte.x00 40 ++ repeat fill (len - 64).

(** A page of timeframe [tf] holding the bytes [d]. *)
Definition page (tf : Z) (eotf : bool) (d : list Byte.byte)
  : DataBlockContainer :=
  mkContainer
    (mkBlock (mkHeader 0 (Z.of_nat (List.length d)) 0 0 11 3 2 1 tf
                (256 * (tf - 1)) (256 * tf - 1) 500 eotf true) d)
    (Z.of_nat (List.length d)).

Definition exampleDefaults : STF.SubTimeframe :=
  STF.mk 0 0 255 0 65535 65535 0 0 0 0.

Definition exampleConfig (superpage : bool) (pageSize threads : Z) : Config :=
  mkConfig exampleLayout 40 exampleDefaults false false superpage false true
    pageSize threads (if threads =? 0 then 0 else 88 / threads)
    (fun _ => true).

Definition emptyShared (pool : Pool) : Shared :=
  mkShared pool 0 0 0 0 0 0 0 0 [].


Definition pageA : DataBlockContainer :=
  page 5 false (packet 100 0 800 Byte.xaa).
Definition pageB : DataBlockContainer :=
  page 5 true (packet 100 0 400 Byte.xbb).


(** *** The STF header *)

(** The eight tags of an STF header are those of a page header. *)
Definition tagsFrom (h : DataBlockHeader) (stf : STF.SubTimeframe) : Prop :=
  STF.timeframeId stf = timeframeId h /\
  STF.runNumber stf = runNumber h /\
  STF.systemId stf = systemId h /\
  STF.feeId stf = feeId h /\
  STF.equipmentId stf = equipmentId h /\
  STF.linkId stf = linkId h /\
  STF.timeframeOrbitFirst stf = timeframeOrbitFirst h /\
  STF.timeframeOrbitLast stf = timeframeOrbitLast h.

Definition flagged (br : DataBlockContainer) : Prop :=
  flagEndOfTimeframe (header (getData br)) = true.

Lemma firstPass_rest bc : forall stf h,
  tagsFrom h stf ->
  STF.lastTFMessage stf = 0 \/ STF.lastTFMessage stf = 1 ->
  tagsFrom h (firstPass false bc stf) /\
  (STF.lastTFMessage (firstPass false bc stf) = 1
   <-> STF.lastTFMessage stf = 1 \/ Exists flagged bc).
Proof.
  induction bc as [|br rest IH]; intros stf h Ht Hl; cbn [firstPass].
  - split; [assumption|]. split; [auto|]. intros [H|H]; [assumption|].
    inversion H.
  - destruct (flagEndOfTimeframe (header (getData br))) eqn:Ef.
    + destruct (IH (set_lastTFMessage 1 stf) h) as [IH1 IH2];
        [exact Ht | right; reflexivity |].
      split; [assumption|]. rewrite IH2. cbn.
      split; [intros _; right; now constructor | auto].
    + destruct (IH stf h Ht Hl) as [IH1 IH2].
      split; [assumption|]. rewrite IH2.
      split; [intros [H|H]; [auto | right; now constructor 2]|].
      intros [H|H]; [auto|]. inversion H; subst; [|auto].
      unfold flagged in *. congruence.
Qed.

Lemma firstPass_header defaults front rest :
  STF.lastTFMessage defaults = 0 ->
  tagsFrom (header (getData front)) (firstPass true (front :: rest) defaults)
  /\ (STF.lastTFMessage (firstPass true (front :: rest) defaults) = 1
      <-> Exists flagged (front :: rest)).
Proof.
  intros Hd. cbn [firstPass].
  set (h := header (getData front)).
  destruct (flagEndOfTimeframe h) eqn:Ef.
  - destruct (firstPass_rest rest (fillFromBlock h (set_lastTFMessage 1 defaults)) h)
      as [H1 H2]; [repeat split | right; reflexivity |].
    split; [assumption|]. rewrite H2. cbn.
    split; [intros _; now constructor | auto].
  - destruct (firstPass_rest rest (fillFromBlock h defaults) h)
      as [H1 H2]; [repeat split | left; exact Hd |].
    split; [assumption|]. rewrite H2. cbn. rewrite Hd.
    split; [intros [H|H]; [discriminate | now constructor 2]|].
    intros H. inversion H; subst; [|auto]. unfold flagged, h in *. congruence.
Qed.

(** The second pass only adds parts behind the ones queued. *)
Lemma pendingFramesCollect_extends cfg s s' :
  pendingFramesCollect cfg s = Done s' ->
  exists l, messagesToSend s' = messagesToSend s ++ l.
Proof.
  unfold pendingFramesCollect.
  destruct (pendingFrames s) as [|f1 [|f2 fs]].
  - intros [= <-]. exists []. now rewrite app_nil_r.
  - intros [= <-]. cbn. eauto.
  - destruct (_ <? _); [discriminate|].
    destruct (a_copyBlock _); [|discriminate].
    destruct (copyFrames _ _ _). intros [= <-]. cbn. eauto.
Qed.

Lemma hbfWalk_extends cfg br : forall fuel offset HBstart lastHBid s s' hs lh,
  hbfWalk cfg fuel br offset HBstart lastHBid s = WDone s' hs lh ->
  exists l, messagesToSend s' = messagesToSend s ++ l.
Proof.
  induction fuel as [|fuel IH]; intros offset HBstart lastHBid s s' hs lh;
    cbn [hbfWalk].
  - intros [= <- _ _]. exists []. now rewrite app_nil_r.
  - destruct (_ <=? _).
    2:{ intros [= <- _ _]. exists []. now rewrite app_nil_r. }
    match goal with |- context [negb (?a =? lastHBid)] =>
      destruct (negb (a =? lastHBid)) end.
    + destruct (pendingFramesCollect cfg _) as [s2|] eqn:Ec; [|discriminate].
      apply pendingFramesCollect_extends in Ec. destruct Ec as [l1 Ec].
      assert (Hs : messagesToSend s2 = messagesToSend s ++ l1).
      { rewrite Ec. destruct (negb _); reflexivity. }
      match goal with |- context [u16 ?x =? 0] => destruct (u16 x =? 0) end.
      * intros [= <- _ _]. eauto.
      * intros H. apply IH in H. destruct H as [l2 H].
        exists (l1 ++ l2). now rewrite H, Hs, app_assoc.
    + match goal with |- context [u16 ?x =? 0] => destruct (u16 x =? 0) end.
      * intros [= <- _ _]. exists []. now rewrite app_nil_r.
      * apply IH.
Qed.

Lemma formatBlocks_extends cfg : forall bc lastHBid s s',
  formatBlocks cfg bc lastHBid s = Done s' ->
  exists l, messagesToSend s' = messagesToSend s ++ l.
Proof.
  induction bc as [|br rest IH]; intros lastHBid s s'; cbn [formatBlocks].
  - apply pendingFramesCollect_extends.
  - destruct (hbfWalk cfg _ br 0 0 lastHBid s) as [s1 hs lh|] eqn:Ew;
      [|discriminate].
    apply hbfWalk_extends in Ew. destruct Ew as [l1 Ew].
    intros H. apply IH in H. destruct H as [l2 H].
    exists (l1 ++ l2). rewrite H. destruct (_ <? _); cbn; now rewrite Ew, app_assoc.
Qed.

Lemma DDformatMessage_header cfg bc sh sh' ddm :
  DDformatMessage cfg bc sh = (sh', Some ddm) ->
  dd_stfHeader ddm = firstPass true bc (stfhDefaults cfg) /\
  exists parts, dd_messagesToSend ddm = StfPart (dd_stfHeader ddm) :: parts.
Proof.
  unfold DDformatMessage.
  destruct (_ <? _); [discriminate|].
  destruct (getNewDataBlockContainer (sh_mp sh)) as [[headerBlock|] mp1];
    [|discriminate].
  destruct (formatBlocks cfg bc lastHBidInit _) as [s|] eqn:Ef; [|discriminate].
  intros [= _ <-]. cbn. split; [reflexivity|].
  apply formatBlocks_extends in Ef. destruct Ef as [l Ef].
  rewrite Ef. cbn. eauto.
Qed.

Lemma superpageHeader_spec cfg front rest :
  STF.lastTFMessage (stfhDefaults cfg) = 0 ->
  tagsFrom (header (getData front)) (superpageHeader cfg (front :: rest)) /\
  (STF.lastTFMessage (superpageHeader cfg (front :: rest)) = 1
   <-> flagged (last (front :: rest) front)).
Proof.
  intros Hd. unfold superpageHeader, flagged.
  split; [repeat split|].
  destruct (flagEndOfTimeframe _); cbn [STF.lastTFMessage set_lastTFMessage].
  - tauto.
  - rewrite Hd. split; discriminate.
Qed.

(** C2 as the specification words it: in whichever mode the message went
    out, the header in part 0 carries the flag if and only if some page of
    the data set has [flagEndOfTimeframe]. *)
Definition lastTFMessage_from_any_page : Prop :=
  forall (cfg : Config) (bc : DataSet) (c : Consumer)
    (h : STF.SubTimeframe) (parts : list Part),
  STF.lastTFMessage (stfhDefaults cfg) = 0 ->
  bc <> [] ->
  sent (shared (fst (pushData cfg bc c)))
  = sent (shared c) ++ [StfPart h :: parts] ->
  (STF.lastTFMessage h = 1 <-> Exists flagged bc).

Definition emptyConsumer (pool : Pool) (threads : nat) : Consumer :=
  mkConsumer (emptyShared pool) 0 None
    (repeat (mkWThread [] []) threads) 0 0.

(** In the StfSuperpage format a flag on a page that is not the last one
    does not reach the header. *)
Lemma lastTFMessage_from_any_page_fails : ~ lastTFMessage_from_any_page.
Proof.
  intros H.
  specialize (H (exampleConfig true 2048 0)
                [page 5 true (packet 100 0 64 Byte.xaa);
                 page 5 false (packet 101 0 64 Byte.xbb)]
                (emptyConsumer [repeat Byte.x00 2048] 0)
                (STF.mk 5 500 1 3 2 11 1024 1279 0 0)
                [wholePage (page 5 true (packet 100 0 64 Byte.xaa));
                 wholePage (page 5 false (packet 101 0 64 Byte.xbb))]
                eq_refl).
  destruct H as [_ H]; [discriminate | reflexivity |].
  assert (F : STF.lastTFMessage (STF.mk 5 500 1 3 2 11 1024 1279 0 0) = 1).
  { apply H. constructor. reflexivity. }
  discriminate F.
Qed.

(** What [pushData] does with a data set when the call formats and sends it
    itself, without worker threads. *)
Lemma pushData_branches cfg front rest c :
  disableSending cfg = false ->
  enableRawFormat cfg = false ->
  enableRawFormatDatablock cfg = false ->
  let bc := front :: rest in
  let c0 :=
    with_shared (countInput (Z.of_nat (List.length bc)) (shared c)) c in
  pushData cfg bc c
  = if enableStfSuperpage cfg || negb (isRdhFormat (header (getData front)))
    then
      match sh_mp (shared c) with
      | [] => (with_shared (pushError (shared c0)) c0, -1)
      | _ :: mp1 =>
          let sh0 := shared c0 in
          (with_shared
             (pushSuccess
                (logSend cfg (StfPart (superpageHeader cfg bc) :: map wholePage bc)
                   (mkShared mp1 (totalPushSuccess sh0) (totalPushError sh0)
                      (sh_ddHBFRepacked sh0) (sh_ddBytesCopied sh0)
                      (sh_nPagesUsedForRepack sh0) (nPagesUsedInput sh0)
                      (bytesFairMQ sh0) (timeframeIdFairMQ sh0) (sent sh0))))
             c0, 0)
      end
    else processForDataDistribution cfg bc c0.
Proof.
  intros H1 H2 H3. cbv zeta. unfold pushData. rewrite H1, H2, H3.
  destruct (_ || _); [|reflexivity].
  cbn [with_shared shared countInput sh_mp].
  destruct (sh_mp (shared c)) as [|pg pool]; reflexivity.
Qed.

(** C2, as the code has it.  A data set that [pushData] sends with an STF
    header goes one of two ways, and the way is chosen by
    [enableStfSuperpage || !isRdhFormat] of the first page, not by the
    configured format alone.  Either way the header in part 0 carries the
    timeframe id, run number, system, FEE, equipment and link ids and the
    orbit range of the first page.  On the StfSuperpage way (the format
    enabled, or the first page not RDH-formatted) [lastTFMessage] is 1 if
    and only if the last page has [flagEndOfTimeframe]; on the way through
    [DDformatMessage] (the format not enabled and the first page
    RDH-formatted) it is 1 if and only if some page has it, whether the
    message is formatted by the call itself or later by a worker. *)
Theorem stf_header_of_dataset
  (cfg : Config) (front : DataBlockContainer) (rest : DataSet) (c : Consumer) :
  STF.lastTFMessage (stfhDefaults cfg) = 0 ->
  disableSending cfg = false ->
  enableRawFormat cfg = false ->
  enableRawFormatDatablock cfg = false ->
  (enableStfSuperpage cfg || negb (isRdhFormat (header (getData front))) = true ->
   snd (pushData cfg (front :: rest) c) = 0 ->
   exists h,
     (channelSend cfg (StfPart h :: map wholePage (front :: rest)) = true ->
      sent (shared (fst (pushData cfg (front :: rest) c)))
      = sent (shared c) ++ [StfPart h :: map wholePage (front :: rest)]) /\
     (channelSend cfg (StfPart h :: map wholePage (front :: rest)) = false ->
      sent (shared (fst (pushData cfg (front :: rest) c))) = sent (shared c)) /\
     tagsFrom (header (getData front)) h /\
     (STF.lastTFMessage h = 1 <-> flagged (last (front :: rest) front))) /\
  (enableStfSuperpage cfg = false ->
   isRdhFormat (header (getData front)) = true ->
   nwThreads cfg = 0 ->
   snd (pushData cfg (front :: rest) c) = 0 ->
   exists h parts,
     sent (shared (fst (pushData cfg (front :: rest) c)))
     = sent (shared c) ++ [StfPart h :: parts] /\
     tagsFrom (header (getData front)) h /\
     (STF.lastTFMessage h = 1 <-> Exists flagged (front :: rest))) /\
  (forall sh sh' ddm,
     DDformatMessage cfg (front :: rest) sh = (sh', Some ddm) ->
     (exists parts,
        dd_messagesToSend ddm = StfPart (dd_stfHeader ddm) :: parts) /\
     tagsFrom (header (getData front)) (dd_stfHeader ddm) /\
     (STF.lastTFMessage (dd_stfHeader ddm) = 1
      <-> Exists flagged (front :: rest))).
Proof.
  intros Hd H1 H2 H3.
  pose proof (pushData_branches cfg front rest c H1 H2 H3) as Hp.
  cbv zeta in Hp.
  split; [|split].
  - intros Hb Hr. rewrite Hp in *. rewrite Hb in *.
    exists (superpageHeader cfg (front :: rest)).
    destruct (sh_mp (shared c)) as [|pg pool]; [discriminate Hr|].
    cbn [fst shared with_shared pushSuccess sent].
    unfold logSend.
    split; [|split].
    + intros Hs. rewrite Hs. reflexivity.
    + intros Hs. rewrite Hs. reflexivity.
    + now apply superpageHeader_spec.
  - intros Hs Hf Hn Hr. rewrite Hp in *. rewrite Hs, Hf in *.
    cbn [negb orb] in *.
    unfold processForDataDistribution in *. rewrite Hn in *.
    cbn [Z.eqb] in *.
    cbn [shared with_shared] in *.
    destruct (DDformatMessage cfg (front :: rest) _) as [sh1 [ddm|]] eqn:Ef;
      [|discriminate Hr].
    pose proof Ef as Eh. apply DDformatMessage_header in Eh.
    destruct Eh as [Hh [parts Hparts]].
    assert (Hsent : sent sh1 = sent (shared c)).
    { revert Ef. unfold DDformatMessage.
      destruct (_ <? _); [discriminate|].
      destruct (getNewDataBlockContainer _) as [[headerBlock|] mp1];
        [|discriminate].
      destruct (formatBlocks cfg _ lastHBidInit _) as [s|]; [|discriminate].
      intros [= <- _]. reflexivity. }
    unfold DDsendMessage in *.
    destruct (channelSend cfg (dd_messagesToSend ddm)); [|discriminate Hr].
    cbn [fst shared with_shared sent].
    exists (dd_stfHeader ddm), parts.
    rewrite Hsent, Hparts. split; [reflexivity|].
    rewrite Hh. now apply firstPass_header.
  - intros sh sh' ddm H.
    apply DDformatMessage_header in H. destruct H as [Hh Hp'].
    split; [exact Hp'|]. rewrite Hh. now apply firstPass_header.
Qed.

(** A page that is not RDH-formatted. *)
Definition plainPage (tf : Z) (eotf : bool) (d : list Byte.byte)
  : DataBlockContainer :=
  mkContainer
    (mkBlock (mkHeader 0 (Z.of_nat (List.length d)) 0 0 11 3 2 1 tf
                (256 * (tf - 1)) (256 * tf - 1) 500 eotf false) d)
    (Z.of_nat (List.length d)).

(** The StfSuperpage format not enabled, the first page not RDH-formatted
    and flagged, the last page not flagged: the message leaves with
    [lastTFMessage] 0. *)
Lemma stf_header_of_dataset_witness :
  exists h,
    sent (shared (fst (pushData (exampleConfig false 2048 0)
                         [plainPage 5 true [Byte.xaa]; plainPage 5 false [Byte.xbb]]
                         (emptyConsumer [repeat Byte.x00 2048] 0))))
    = [StfPart h :: map wholePage
         [plainPage 5 true [Byte.xaa]; plainPage 5 false [Byte.xbb]]] /\
    STF.timeframeId h = 5 /\
    STF.lastTFMessage h <> 1.
Proof.
  destruct (stf_header_of_dataset (exampleConfig false 2048 0)
              (plainPage 5 true [Byte.xaa]) [plainPage 5 false [Byte.xbb]]
              (emptyConsumer [repeat Byte.x00 2048] 0)
              eq_refl eq_refl eq_refl eq_refl) as [H _].
  destruct (H eq_refl eq_refl) as (h & Hs & _ & Ht & Hl).
  exists h. split; [apply Hs; reflexivity|].
  split; [apply Ht|].
  intros E. apply Hl in E. discriminate E.
Defined.

Example superpage_way_without_the_format :
  sent (shared (fst (pushData (exampleConfig false 2048 0)
                       [plainPage 5 true [Byte.xaa]; plainPage 5 false [Byte.xbb]]
                       (emptyConsumer [repeat Byte.x00 2048] 0))))
  = [[StfPart (STF.mk 5 500 1 3 2 11 1024 1279 0 0);
      wholePage (plainPage 5 true [Byte.xaa]);
      wholePage (plainPage 5 false [Byte.xbb])]].
Proof. vm_compute. reflexivity. Qed.

(** Boundary scenario "single HBF spanning two pages": pages A (800 bytes)
    and B (400 bytes) of one orbit give the STF header and one part of 1200
    bytes holding the bytes of A followed by those of B. *)
Example single_hbf_spanning_two_pages :
  exists sh' ddm filled,
    DDformatMessage (exampleConfig false 2048 0) [pageA; pageB]
      (emptyShared [repeat Byte.x00 2048; repeat Byte.x00 2048])
    = (sh', Some ddm) /\
    dd_messagesToSend ddm
    = [StfPart (STF.mk 5 500 1 3 2 11 1024 1279 1 1); CopyPart filled 1200] /\
    partBytes (CopyPart filled 1200)
    = data (getData pageA) ++ data (getData pageB).
Proof.
  do 3 eexists. split; [vm_compute; reflexivity|].
  split; [reflexivity|]. vm_compute. reflexivity.
Qed.

(** Boundary scenario "empty dataset, EOTF flag only". *)
Example empty_page_with_eotf :
  exists sh' ddm,
    DDformatMessage (exampleConfig false 2048 0) [page 5 true []]
      (emptyShared [repeat Byte.x00 2048])
    = (sh', Some ddm) /\
    dd_messagesToSend ddm = [StfPart (STF.mk 5 500 1 3 2 11 1024 1279 1 1)].
Proof. do 2 eexists. split; vm_compute; reflexivity. Qed.

(** *** Data sets over two timeframes *)

(** C8 as the specification words it: a data set whose pages are not all
    of one timeframe is turned down, with the error counter moved and
    nothing handed to a worker. *)
Definition mixed_dataset_rejected : Prop :=
  forall (cfg : Config) (bc : DataSet) (c : Consumer),
  (exists b1 b2, In b1 bc /\ In b2 bc /\
     timeframeId (header (getData b1)) <> timeframeId (header (getData b2))) ->
  snd (processForDataDistribution cfg bc c) = -1 /\
  totalPushError (shared (fst (processForDataDistribution cfg bc c)))
  = u64 (totalPushError (shared c) + 1) /\
  wThreads (fst (processForDataDistribution cfg bc c)) = wThreads c.

(** A data set whose middle page is of another timeframe is accepted. *)
Lemma mixed_dataset_rejected_fails : ~ mixed_dataset_rejected.
Proof.
  intros H.
  specialize (H (exampleConfig false 2048 2)
                [page 1 false []; page 2 false []; page 1 false []]
                (emptyConsumer [] 2)).
  destruct H as [H _].
  - exists (page 1 false []), (page 2 false []).
    cbn. repeat split; auto. discriminate.
  - vm_compute in H. discriminate.
Qed.

(** C8, as the code has it.  With worker threads, a data set whose first
    and last page differ in timeframe id is turned down: the call returns
    -1, [totalPushError] goes up by one and nothing else changes, in
    particular no worker FIFO and not the buffer of the current
    timeframe. *)
Theorem dataset_over_two_timeframes_rejected
  (cfg : Config) (front : DataBlockContainer) (rest : DataSet) (c : Consumer) :
  nwThreads cfg <> 0 ->
  timeframeId (header (getData front))
  <> timeframeId (header (getData (last (front :: rest) front))) ->
  processForDataDistribution cfg (front :: rest) c
  = (with_shared (pushError (shared c)) c, -1) /\
  totalPushError (shared (fst (processForDataDistribution cfg (front :: rest) c)))
  = u64 (totalPushError (shared c) + 1) /\
  wThreads (fst (processForDataDistribution cfg (front :: rest) c))
  = wThreads c /\
  currentTimeframeBuffer (fst (processForDataDistribution cfg (front :: rest) c))
  = currentTimeframeBuffer c.
Proof.
  intros Hn Htf.
  assert (E : processForDataDistribution cfg (front :: rest) c
              = (with_shared (pushError (shared c)) c, -1)).
  { unfold processForDataDistribution.
    destruct (Z.eqb_spec (nwThreads cfg) 0); [contradiction|].
    destruct (Z.eqb_spec (timeframeId (header (getData front)))
                (timeframeId (header (getData (last (front :: rest) front)))));
      [contradiction|].
    reflexivity. }
  rewrite E. repeat split.
Qed.

Lemma dataset_over_two_timeframes_rejected_witness :
  nwThreads (exampleConfig false 2048 2) <> 0 /\
  processForDataDistribution (exampleConfig false 2048 2)
    [page 1 false []; page 2 true []] (emptyConsumer [] 2)
  = (mkConsumer (mkShared [] 0 1 0 0 0 0 0 0 []) 0 None
       [mkWThread [] []; mkWThread [] []] 0 0, -1).
Proof.
  split; [discriminate|].
  apply (dataset_over_two_timeframes_rejected (exampleConfig false 2048 2)
           (page 1 false []) [page 2 true []] (emptyConsumer [] 2));
    discriminate.
Defined.

(** *** Order of the timeframes on the transport *)

(** Timeframe 1: one heartbeat frame over two pages of 128 bytes, more than
    a page of the consumer's pool holds.  Timeframes 2 and 3: one page. *)
Definition tf1 : DataSet :=
  [page 1 false (packet 10 0 128 Byte.xaa);
   page 1 true (packet 10 0 128 Byte.xbb)].
Definition tf2 : DataSet := [page 2 true (packet 300 0 128 Byte.xcc)].
Definition tf3 : DataSet := [page 3 true (packet 600 0 128 Byte.xdd)].

Definition exampleTurns : list Turn :=
  [Push tf1; Push tf2; Push tf3; Worker 0; Worker 1; Worker 0; Sender; Sender].

(** C3 on the code: two workers, timeframes 1, 2, 3 pushed in order.  The
    formatting of timeframe 1 fails in worker 0 ("page size too small"),
    which gives the page of the STF header back to the pool and leaves
    nothing in the output FIFO of the worker; the sender, still waiting on
    worker 0, takes timeframe 3 from it before timeframe 2 from worker 1. *)
Theorem egress_order_after_format_error :
  pushedTimeframeIds exampleTurns = [1; 2; 3] /\
  DDformatMessage (exampleConfig false 128 2) tf1
    (emptyShared (repeat (repeat Byte.x00 128) 4))
  = (mkShared (repeat (repeat Byte.x00 128) 4) 0 1 1 0 0 0 0 0 [], None) /\
  sentTimeframeIds
    (schedule (exampleConfig false 128 2) exampleTurns
       (emptyConsumer (repeat (repeat Byte.x00 128) 4) 2))
  = [3; 2].
Proof. repeat split; vm_compute; reflexivity. Qed.

(** With pool pages of 256 bytes nothing fails and the same turns send the
    timeframes in the order they were pushed. *)
Example egress_order_without_error :
  sentTimeframeIds
    (schedule (exampleConfig false 256 2) (exampleTurns ++ [Sender])
       (emptyConsumer (repeat (repeat Byte.x00 256) 4) 2))
  = [1; 2; 3].
Proof. vm_compute. reflexivity. Qed.

(** *** The order kept when no formatting fails

    What the round-robin is there for: as long as every timeframe handed to
    a worker is formatted, the timeframe ids leave in the order the data
    sets came in (some may be missing: a full FIFO drops a timeframe, a
    failed send loses a message). *)

(** [l1] is [l2] with some elements left out. *)
Inductive subseq {A : Type} : list A -> list A -> Prop :=
| subseq_nil : subseq [] []
| subseq_skip x l1 l2 : subseq l1 l2 -> subseq l1 (x :: l2)
| subseq_keep x l1 l2 : subseq l1 l2 -> subseq (x :: l1) (x :: l2).

Create HintDb order.
#[local] Hint Constructors subseq : order.

Lemma subseq_refl {A} (l : list A) : subseq l l.
Proof. induction l; auto with order. Qed.

Lemma subseq_nil_l {A} (l : list A) : subseq [] l.
Proof. induction l; auto with order. Qed.

Lemma subseq_trans {A} (l1 l2 l3 : list A) :
  subseq l1 l2 -> subseq l2 l3 -> subseq l1 l3.
Proof.
  intros H12 H23. revert l1 H12.
  induction H23 as [|x l2 l3 H IH|x l2 l3 H IH]; intros l1 H12.
  - assumption.
  - auto with order.
  - inversion H12; subst; auto with order.
Qed.

Lemma subseq_app {A} (a a' b b' : list A) :
  subseq a a' -> subseq b b' -> subseq (a ++ b) (a' ++ b').
Proof. induction 1; cbn; auto with order. Qed.

Lemma subseq_app_l {A} (a b : list A) : subseq a (a ++ b).
Proof.
  rewrite <- (app_nil_r a) at 1.
  apply subseq_app; [apply subseq_refl | apply subseq_nil_l].
Qed.

#[local] Hint Resolve subseq_refl subseq_nil_l subseq_app subseq_app_l : order.

Lemma subseq_sorted (l1 l2 : list Z) :
  subseq l1 l2 -> StronglySorted Z.le l2 -> StronglySorted Z.le l1.
Proof.
  induction 1 as [|x l1 l2 H IH|x l1 l2 H IH]; intros Hs.
  - constructor.
  - inversion Hs; auto.
  - inversion Hs as [|? ? Hs' Hall]; subst. constructor; [auto|].
    clear - H Hall. induction H; inversion Hall; subst; auto.
Qed.

Lemma updateAt_length {A} (x : A) : forall l n,
  List.length (updateAt n x l) = List.length l.
Proof. induction l as [|y l IH]; intros [|n]; cbn; auto. Qed.

Lemma updateAt_same {A} (x : A) : forall l n y,
  nth_error l n = Some y -> nth_error (updateAt n x l) n = Some x.
Proof.
  induction l as [|z l IH]; intros [|n] y; cbn; try discriminate; eauto.
Qed.

Lemma updateAt_other {A} (x : A) : forall l n m,
  m <> n -> nth_error (updateAt n x l) m = nth_error l m.
Proof.
  induction l as [|z l IH]; intros [|n] [|m] H; cbn; auto; try contradiction.
Qed.

(** The timeframe id a data set is known by: that of its first page. *)
Definition dsIds (bc : DataSet) : list Z :=
  match bc with
  | front :: _ => [timeframeId (header (getData front))]
  | [] => []
  end.

(** The timeframe id a message goes out with. *)
Definition partsIds (msgs : list Part) : list Z :=
  match msgs with
  | StfPart h :: _ => [STF.timeframeId h]
  | _ => []
  end.

Definition ddmIds (m : DDMessage) : list Z := partsIds (dd_messagesToSend m).

(** The ids waiting in a worker, oldest first, one list per timeframe. *)
Definition laneIds (w : wThread) : list (list Z) :=
  map (flat_map ddmIds) (output w) ++ map (flat_map dsIds) (input w).

Section Lanes.

Variable N : nat.

(** Of the items [l], numbered from [start] on, those that the round-robin
    over [N] workers gives to worker [i]. *)
Fixpoint lane {A : Type} (l : list A) (start i : nat) : list A :=
  match l with
  | [] => []
  | x :: r =>
      (if Nat.eqb (start mod N) i then [x] else []) ++ lane r (S start) i
  end.

Lemma lane_snoc {A} (x : A) : forall l start i,
  lane (l ++ [x]) start i
  = lane l start i
    ++ (if Nat.eqb ((start + List.length l) mod N) i then [x] else []).
Proof.
  induction l as [|y l IH]; intros start i; cbn [lane app List.length].
  - now rewrite Nat.add_0_r, app_nil_r.
  - rewrite IH, <- app_assoc.
    now replace (S start + List.length l)%nat
      with (start + S (List.length l))%nat by lia.
Qed.

End Lanes.

Definition sentIds (sh : Shared) : list Z := flat_map partsIds (sent sh).

Lemma sentTimeframeIds_sentIds c : sentTimeframeIds c = sentIds (shared c).
Proof. reflexivity. Qed.

Lemma firstPass_false_timeframeId bc : forall stf,
  STF.timeframeId (firstPass false bc stf) = STF.timeframeId stf.
Proof.
  induction bc as [|br rest IH]; intros stf; cbn [firstPass]; [reflexivity|].
  rewrite IH. now destruct (flagEndOfTimeframe _).
Qed.

Lemma firstPass_timeframeId defaults front rest :
  STF.timeframeId (firstPass true (front :: rest) defaults)
  = timeframeId (header (getData front)).
Proof. cbn [firstPass]. now rewrite firstPass_false_timeframeId. Qed.

Lemma DDformatMessage_sent cfg bc sh :
  sent (fst (DDformatMessage cfg bc sh)) = sent sh.
Proof.
  unfold DDformatMessage.
  destruct (_ <? _); [reflexivity|].
  destruct (getNewDataBlockContainer (sh_mp sh)) as [[headerBlock|] mp1];
    [|reflexivity].
  destruct (formatBlocks cfg bc lastHBidInit _); reflexivity.
Qed.

Lemma DDformatMessage_ids cfg bc sh sh' m :
  bc <> [] ->
  DDformatMessage cfg bc sh = (sh', Some m) -> ddmIds m = dsIds bc.
Proof.
  intros Hne H. destruct bc as [|front rest]; [contradiction|].
  apply DDformatMessage_header in H. destruct H as [Hh [parts Hp]].
  unfold ddmIds. rewrite Hp, Hh. cbn. now rewrite firstPass_false_timeframeId.
Qed.

Lemma formatAll_ids cfg : forall tf sh acc sh' l,
  Forall (fun bc => bc <> []) tf ->
  formatAll cfg tf sh acc = (sh', Some l) ->
  flat_map ddmIds l = flat_map ddmIds acc ++ flat_map dsIds tf.
Proof.
  induction tf as [|bc rest IH]; intros sh acc sh' l Hne; cbn [formatAll].
  - intros [= _ <-]. cbn. now rewrite app_nil_r.
  - inversion Hne as [|? ? Hbc Hrest]; subst.
    destruct (DDformatMessage cfg bc sh) as [sh1 [m|]] eqn:E; [|discriminate].
    intros H. apply IH in H; [|assumption].
    rewrite H, flat_map_app. cbn [flat_map].
    rewrite (DDformatMessage_ids _ _ _ _ _ Hbc E).
    now rewrite app_nil_r, <- app_assoc.
Qed.

Lemma formatAll_sent cfg : forall tf sh acc,
  sent (fst (formatAll cfg tf sh acc)) = sent sh.
Proof.
  induction tf as [|bc rest IH]; intros sh acc; cbn [formatAll]; [reflexivity|].
  pose proof (DDformatMessage_sent cfg bc sh) as Hs.
  destruct (DDformatMessage cfg bc sh) as [sh1 [m|]]; cbn in Hs.
  - now rewrite IH.
  - exact Hs.
Qed.

Lemma DDsendMessage_sentIds cfg m sh :
  exists l, subseq l (ddmIds m) /\
    sentIds (fst (DDsendMessage cfg m sh)) = sentIds sh ++ l.
Proof.
  unfold DDsendMessage. destruct (channelSend cfg _).
  - exists (ddmIds m). split; [apply subseq_refl|].
    unfold sentIds. cbn. rewrite flat_map_app. cbn. now rewrite app_nil_r.
  - exists []. split; [apply subseq_nil_l|]. cbn. now rewrite app_nil_r.
Qed.

Lemma sendAll_sentIds cfg : forall msglist sh isError,
  exists l, subseq l (flat_map ddmIds msglist) /\
    sentIds (fst (sendAll cfg msglist sh isError)) = sentIds sh ++ l.
Proof.
  induction msglist as [|m rest IH]; intros sh isError; cbn [sendAll].
  - exists []. split; [constructor|]. cbn. now rewrite app_nil_r.
  - destruct (DDsendMessage_sentIds cfg m sh) as (l1 & Hl1 & Hs1).
    destruct (DDsendMessage cfg m sh) as [sh1 []]; cbn [fst] in Hs1.
    + destruct (IH sh1 isError) as (l2 & Hl2 & Hs2).
      exists (l1 ++ l2). split; [now apply subseq_app|].
      now rewrite Hs2, Hs1, app_assoc.
    + destruct (IH sh1 true) as (l2 & Hl2 & Hs2).
      exists (l1 ++ l2). split; [now apply subseq_app|].
      now rewrite Hs2, Hs1, app_assoc.
Qed.

Lemma sentIds_pushError sh : sentIds (pushError sh) = sentIds sh.
Proof. reflexivity. Qed.

Section Order.

Variable cfg : Config.
Hypothesis threaded : 0 < nwThreads cfg.
Hypothesis mode_sending : disableSending cfg = false.
Hypothesis mode_raw : enableRawFormat cfg = false.
Hypothesis mode_datablock : enableRawFormatDatablock cfg = false.
Hypothesis mode_superpage : enableStfSuperpage cfg = false.

Let N : nat := Z.to_nat (nwThreads cfg).

Definition bufferIds (c : Consumer) : list Z :=
  match currentTimeframeBuffer c with
  | Some b => flat_map dsIds b
  | None => []
  end.

Definition nonEmptySets (tf : list DataSet) : Prop :=
  Forall (fun bc => bc <> []) tf.

Definition inputsOk (w : wThread) : Prop :=
  Forall (fun tf => tf <> [] /\ nonEmptySets tf) (input w).

(** The state of the worker pool against its history: [P] lists the
    timeframes handed to the workers so far (by their ids), [j] counts those
    the sender has taken, [pushed] lists the ids of the data sets pushed. *)
Record Inv (c : Consumer) (P : list (list Z)) (j : nat) (pushed : list Z)
  : Prop := mkInv {
  inv_len : List.length (wThreads c) = N;
  inv_write : wThreadIxWrite c = Z.of_nat (List.length P mod N);
  inv_read : thIxRead c = Z.of_nat (j mod N);
  inv_j : (j <= List.length P)%nat;
  inv_lanes : forall i w, nth_error (wThreads c) i = Some w ->
              laneIds w = lane N (skipn j P) j i /\ inputsOk w;
  inv_buffer : forall b, currentTimeframeBuffer c = Some b ->
               b <> [] /\ nonEmptySets b;
  inv_sent : subseq (sentIds (shared c)) (List.concat (firstn j P));
  inv_pushed : subseq (List.concat P ++ bufferIds c) pushed
}.

Lemma N_pos : (0 < N)%nat.
Proof. subst N. lia. Qed.

Lemma nextIx_mod k :
  nextIx cfg (Z.of_nat (k mod N)) = Z.of_nat (S k mod N).
Proof.
  pose proof N_pos as HN.
  pose proof (Nat.mod_upper_bound k N ltac:(lia)) as Hk.
  unfold nextIx.
  replace (S k) with (k + 1)%nat by lia.
  rewrite <- Nat.Div0.add_mod_idemp_l.
  set (m := (k mod N)%nat) in *. clearbody m.
  assert (HNz : Z.of_nat N = nwThreads cfg) by (subst N; lia).
  destruct (Z.eqb_spec (Z.of_nat m + 1) (nwThreads cfg)) as [E|E].
  - replace (m + 1)%nat with N by lia.
    now rewrite Nat.Div0.mod_same.
  - rewrite Nat.mod_small by lia. lia.
Qed.

Lemma Inv_transfer c c' P j pushed pushed' :
  Inv c P j pushed ->
  wThreads c' = wThreads c ->
  wThreadIxWrite c' = wThreadIxWrite c ->
  thIxRead c' = thIxRead c ->
  sentIds (shared c') = sentIds (shared c) ->
  (forall b, currentTimeframeBuffer c' = Some b -> b <> [] /\ nonEmptySets b) ->
  subseq (List.concat P ++ bufferIds c') pushed' ->
  Inv c' P j pushed'.
Proof.
  intros [] Hw Hi Hr Hs Hb Hp.
  constructor; try assumption; try congruence.
  now rewrite Hw.
Qed.

Lemma Inv_pushError c P j pushed pushed' :
  Inv c P j pushed -> subseq pushed pushed' ->
  Inv (with_shared (pushError (shared c)) c) P j pushed'.
Proof.
  intros H Hp. apply (Inv_transfer c _ P j pushed); try reflexivity; try assumption.
  - apply (inv_buffer _ _ _ _ H).
  - eapply subseq_trans; [apply (inv_pushed _ _ _ _ H) | exact Hp].
Qed.

Lemma pushCurrentTimeframe_inv c P j pushed :
  Inv c P j pushed ->
  exists P', Inv (fst (pushCurrentTimeframe cfg c)) P' j pushed.
Proof.
  intros H. pose proof N_pos as HN. unfold pushCurrentTimeframe.
  destruct (currentTimeframeBuffer c) as [buffer|] eqn:Eb; [|now exists P].
  destruct (nth_error (wThreads c) (Z.to_nat (wThreadIxWrite c)))
    as [w|] eqn:Ew; [|now exists P].
  destruct (fifoFull cfg (input w)).
  - exists P. cbn [fst].
    exact (Inv_pushError c P j pushed pushed H (subseq_refl _)).
  - exists (P ++ [flat_map dsIds buffer]). cbn [fst].
    destruct H as [Hlen Hwr Hrd Hj Hlanes Hbuf Hsent Hpushed].
    rewrite Hwr, Nat2Z.id in *.
    destruct (Hbuf buffer Eb) as [Hne Hsets].
    constructor; cbn [wThreads wThreadIxWrite thIxRead currentTimeframeBuffer
                      shared].
    + now rewrite updateAt_length.
    + rewrite length_app. cbn [List.length].
      replace (List.length P + 1)%nat with (S (List.length P)) by lia.
      apply nextIx_mod.
    + assumption.
    + rewrite length_app. lia.
    + intros i w' Hi.
      rewrite skipn_app.
      replace (j - List.length P)%nat with O by lia. cbn [skipn].
      rewrite lane_snoc, length_skipn.
      replace (j + (List.length P - j))%nat with (List.length P) by lia.
      destruct (Nat.eq_dec i (List.length P mod N)) as [->|Hneq].
      * rewrite (updateAt_same _ _ _ _ Ew) in Hi. injection Hi as <-.
        destruct (Hlanes _ _ Ew) as [Hl Hok].
        rewrite Nat.eqb_refl. split.
        -- unfold laneIds in *. cbn [input output].
           now rewrite map_app, app_assoc, Hl.
        -- unfold inputsOk in *. cbn [input]. apply Forall_app.
           split; [assumption|]. now repeat constructor.
      * rewrite updateAt_other in Hi by assumption.
        destruct (Hlanes _ _ Hi) as [Hl Hok].
        destruct (Nat.eqb_spec (List.length P mod N) i); [congruence|].
        now rewrite app_nil_r.
    + discriminate.
    + rewrite firstn_app.
      replace (j - List.length P)%nat with O by lia.
      cbn [firstn]. now rewrite app_nil_r.
    + unfold bufferIds in *. cbn [currentTimeframeBuffer].
      rewrite Eb in Hpushed.
      rewrite concat_app. cbn [List.concat].
      now rewrite !app_nil_r.
Qed.

Lemma Inv_buffer_set c P j pushed pushed' sh tfid b :
  Inv c P j pushed ->
  sentIds sh = sentIds (shared c) ->
  b <> [] -> nonEmptySets b ->
  subseq (List.concat P ++ flat_map dsIds b) pushed' ->
  Inv (mkConsumer sh tfid (Some b) (wThreads c) (wThreadIxWrite c)
         (thIxRead c)) P j pushed'.
Proof.
  intros H Hs Hne Hsets Hp.
  apply (Inv_transfer c _ P j pushed); try reflexivity; try assumption.
  cbn. intros b' [= <-]. auto.
Qed.

Lemma processForDataDistribution_inv bc c P j pushed :
  bc <> [] ->
  Inv c P j pushed ->
  exists P',
    Inv (fst (processForDataDistribution cfg bc c)) P' j (pushed ++ dsIds bc).
Proof.
  intros Hbc H. unfold processForDataDistribution.
  destruct (Z.eqb_spec (nwThreads cfg) 0) as [E|_]; [lia|].
  destruct bc as [|front rest] eqn:Ebc; [contradiction|]. rewrite <- Ebc in *.
  assert (Hweak : subseq pushed (pushed ++ dsIds bc)) by apply subseq_app_l.
  destruct (negb (_ =? _)).
  { exists P. cbn [fst]. now apply (Inv_pushError c P j pushed). }
  set (tfid := timeframeId (header (getData front))).
  destruct (negb (tfid =? currentTimeframeId c)).
  - destruct (pushCurrentTimeframe_inv c P j pushed H) as [P1 H1].
    set (c' := fst (pushCurrentTimeframe cfg c)) in *.
    cbn [currentTimeframeBuffer app].
    assert (H2 : Inv (mkConsumer (shared c') tfid (Some [bc]) (wThreads c')
                        (wThreadIxWrite c') (thIxRead c'))
                   P1 j (pushed ++ dsIds bc)).
    { apply (Inv_buffer_set c' P1 j pushed); try assumption; try reflexivity.
      - discriminate.
      - now repeat constructor.
      - cbn [flat_map]. rewrite app_nil_r. apply subseq_app; [|apply subseq_refl].
        eapply subseq_trans; [apply subseq_app_l|apply (inv_pushed _ _ _ _ H1)]. }
    destruct (flagEndOfTimeframe _); cbn [fst].
    + exact (pushCurrentTimeframe_inv _ _ _ _ H2).
    + now exists P1.
  - destruct (currentTimeframeBuffer c) as [buffer|] eqn:Eb.
    + destruct (inv_buffer _ _ _ _ H buffer Eb) as [Hne Hsets].
      assert (H2 : Inv (mkConsumer (shared c) (currentTimeframeId c)
                          (Some (buffer ++ [bc])) (wThreads c)
                          (wThreadIxWrite c) (thIxRead c))
                     P j (pushed ++ dsIds bc)).
      { apply (Inv_buffer_set c P j pushed); try assumption; try reflexivity.
        - destruct buffer; discriminate.
        - apply Forall_app. split; [assumption|now repeat constructor].
        - rewrite flat_map_app. cbn [flat_map]. rewrite app_nil_r, app_assoc.
          apply subseq_app; [|apply subseq_refl].
          pose proof (inv_pushed _ _ _ _ H) as Hp. unfold bufferIds in Hp.
          now rewrite Eb in Hp. }
      destruct (flagEndOfTimeframe _); cbn [fst].
      * exact (pushCurrentTimeframe_inv _ _ _ _ H2).
      * now exists P.
    + exists P. cbn [fst]. now apply (Inv_pushError c P j pushed).
Qed.

(** A data set the STF/HBF format takes: not empty, first page in RDH
    format. *)
Definition rdhDataSet (bc : DataSet) : Prop :=
  exists front rest,
    bc = front :: rest /\ isRdhFormat (header (getData front)) = true.

Lemma pushData_inv bc c P j pushed :
  rdhDataSet bc ->
  Inv c P j pushed ->
  exists P', Inv (fst (pushData cfg bc c)) P' j (pushed ++ dsIds bc).
Proof.
  intros (front & rest & -> & Hrdh) H. unfold pushData.
  rewrite mode_sending, mode_raw, mode_datablock, mode_superpage, Hrdh.
  cbn [orb negb].
  apply (processForDataDistribution_inv _ _ P); [discriminate|].
  apply (Inv_transfer c _ P j pushed); try reflexivity; try assumption.
  - apply (inv_buffer _ _ _ _ H).
  - apply (inv_pushed _ _ _ _ H).
Qed.

(** The turn of worker [thIx] in state [c] would end on a formatting
    error. *)
Definition workerFails (thIx : nat) (c : Consumer) : bool :=
  match nth_error (wThreads c) thIx with
  | None => false
  | Some w =>
      if fifoFull cfg (output w) then false
      else
        match input w with
        | [] => false
        | tf :: _ =>
            match formatAll cfg tf (shared c) [] with
            | (_, None) => true
            | (_, Some _) => false
            end
        end
  end.

Lemma wThreadLoop_inv thIx c P j pushed :
  workerFails thIx c = false ->
  Inv c P j pushed -> Inv (wThreadLoop cfg thIx c) P j pushed.
Proof.
  intros Hok H. unfold wThreadLoop, workerFails in *.
  destruct (nth_error (wThreads c) thIx) as [w|] eqn:Ew; [|assumption].
  destruct (fifoFull cfg (output w)); [assumption|].
  destruct (input w) as [|tf rest] eqn:Ein; [assumption|].
  destruct (inv_lanes _ _ _ _ H _ _ Ew) as [Hl Hin].
  unfold inputsOk in Hin. rewrite Ein in Hin.
  inversion Hin as [|? ? [Hne Hsets] Hrest]; subst.
  destruct tf as [|bc tf'] eqn:Etf; [contradiction|]. rewrite <- Etf in *.
  pose proof (formatAll_sent cfg tf (shared c) []) as Hsent.
  destruct (formatAll cfg tf (shared c) []) as [sh1 [msglist|]] eqn:Ef;
    [|discriminate].
  cbn [fst] in Hsent.
  apply formatAll_ids in Ef; [|assumption]. cbn [flat_map app] in Ef.
  destruct H as [Hlen Hwr Hrd Hj Hlanes Hbuf Hs Hpushed].
  constructor; cbn [wThreads wThreadIxWrite thIxRead currentTimeframeBuffer
                    shared]; try assumption.
  - now rewrite updateAt_length.
  - intros i w' Hi.
    destruct (Nat.eq_dec i thIx) as [->|Hneq].
    + rewrite (updateAt_same _ _ _ _ Ew) in Hi. injection Hi as <-.
      split; [|exact Hrest].
      rewrite <- Hl. unfold laneIds. cbn [input output]. rewrite Ein.
      rewrite map_app. cbn [map]. rewrite Ef, <- app_assoc. reflexivity.
    + rewrite updateAt_other in Hi by assumption. now apply Hlanes.
  - unfold sentIds in *. now rewrite Hsent.
Qed.

Lemma senderThreadLoop_inv c P j pushed :
  Inv c P j pushed ->
  exists j', Inv (senderThreadLoop cfg c) P j' pushed.
Proof.
  intros H. pose proof N_pos as HN. unfold senderThreadLoop.
  destruct H as [Hlen Hwr Hrd Hj Hlanes Hbuf Hs Hpushed].
  rewrite Hrd, Nat2Z.id.
  destruct (nth_error (wThreads c) (j mod N)) as [w|] eqn:Ew.
  2:{ exists j. now constructor. }
  destruct (output w) as [|msglist rest] eqn:Eout.
  { exists j. now constructor. }
  destruct (Hlanes _ _ Ew) as [Hl Hin].
  unfold laneIds in Hl. rewrite Eout in Hl. cbn [map app] in Hl.
  destruct (skipn j P) as [|x r] eqn:Esk; [discriminate|].
  cbn [lane] in Hl. rewrite Nat.eqb_refl in Hl. cbn [app] in Hl.
  injection Hl as Hx Hr.
  assert (Hjlt : (j < List.length P)%nat).
  { pose proof (f_equal (@List.length _) Esk) as Hk.
    rewrite length_skipn in Hk. cbn in Hk. clear - Hk. lia. }
  assert (Hsk' : skipn (S j) P = r).
  { change (S j) with (1 + j)%nat. rewrite <- skipn_skipn, Esk. reflexivity. }
  assert (Hfn : firstn (S j) P = firstn j P ++ [x]).
  { replace (S j) with (j + 1)%nat by lia.
    rewrite firstn_plus, Esk. reflexivity. }
  destruct (sendAll_sentIds cfg msglist (shared c) false) as (l & Hsub & Hsent).
  destruct (sendAll cfg msglist (shared c) false) as [sh1 isError].
  cbn [fst] in Hsent.
  exists (S j).
  constructor; cbn [wThreads wThreadIxWrite thIxRead currentTimeframeBuffer
                    shared]; try assumption.
  - now rewrite updateAt_length.
  - apply nextIx_mod.
  - intros i w' Hi. rewrite Hsk'.
    destruct (Nat.eq_dec i (j mod N)) as [->|Hneq].
    + rewrite (updateAt_same _ _ _ _ Ew) in Hi. injection Hi as <-.
      split; [|exact Hin]. unfold laneIds. cbn [input output]. exact Hr.
    + rewrite updateAt_other in Hi by assumption.
      destruct (Hlanes _ _ Hi) as [Hl' Hin'].
      split; [|exact Hin']. rewrite Hl'. cbn [lane].
      destruct (Nat.eqb_spec (j mod N) i); [congruence|reflexivity].
  - rewrite Hfn, concat_app. cbn [List.concat]. rewrite app_nil_r.
    replace (sentIds (if isError then pushError sh1 else sh1))
      with (sentIds sh1) by (destruct isError; reflexivity).
    rewrite Hsent. apply subseq_app; [assumption|]. now rewrite <- Hx.
Qed.

(** Along the turns, no worker meets a formatting error and the data sets
    pushed are of the kind the STF/HBF format takes. *)
Definition turnOk (t : Turn) (c : Consumer) : Prop :=
  match t with
  | Push bc => rdhDataSet bc
  | Worker thIx => workerFails thIx c = false
  | Sender => True
  end.

Fixpoint scheduleOk (ts : list Turn) (c : Consumer) : Prop :=
  match ts with
  | [] => True
  | t :: rest => turnOk t c /\ scheduleOk rest (turn cfg t c)
  end.

Lemma pushedTimeframeIds_cons t ts :
  pushedTimeframeIds (t :: ts)
  = match t with Push bc => dsIds bc | _ => [] end ++ pushedTimeframeIds ts.
Proof.
  destruct t as [[|front rest]| |]; reflexivity.
Qed.

Lemma schedule_inv : forall ts c P j pushed,
  scheduleOk ts c ->
  Inv c P j pushed ->
  exists P' j',
    Inv (schedule cfg ts c) P' j' (pushed ++ pushedTimeframeIds ts).
Proof.
  induction ts as [|t ts IH]; intros c P j pushed Hok H.
  - exists P, j. cbn. now rewrite app_nil_r.
  - destruct Hok as [Ht Hrest]. rewrite pushedTimeframeIds_cons, app_assoc.
    unfold schedule. cbn [fold_left]. fold (schedule cfg ts (turn cfg t c)).
    destruct t as [bc|thIx|]; cbn [turn] in *.
    + destruct (pushData_inv bc c P j pushed Ht H) as [P1 H1]. eauto.
    + rewrite app_nil_r. eauto using wThreadLoop_inv.
    + rewrite app_nil_r.
      destruct (senderThreadLoop_inv c P j pushed H) as [j1 H1]. eauto.
Qed.

(** The consumer as its constructor leaves it. *)
Definition freshConsumer (c : Consumer) : Prop :=
  wThreads c = repeat (mkWThread [] []) N /\
  wThreadIxWrite c = 0 /\ thIxRead c = 0 /\
  currentTimeframeBuffer c = None /\ sent (shared c) = [].

Lemma freshConsumer_inv c : freshConsumer c -> Inv c [] 0 [].
Proof.
  intros (Hw & Hi & Hr & Hb & Hs). pose proof N_pos as HN.
  constructor.
  - rewrite Hw. apply repeat_length.
  - cbn. now rewrite Nat.Div0.mod_0_l.
  - now rewrite Nat.Div0.mod_0_l.
  - cbn. lia.
  - intros i w Hn. rewrite Hw in Hn. apply nth_error_In, repeat_spec in Hn.
    subst w. cbn. split; [reflexivity|constructor].
  - rewrite Hb. discriminate.
  - unfold sentIds. rewrite Hs. constructor.
  - unfold bufferIds. rewrite Hb. constructor.
Qed.

Lemma subseq_concat_firstn {A} (P : list (list A)) j :
  subseq (List.concat (firstn j P)) (List.concat P).
Proof.
  rewrite <- (firstn_skipn j P) at 2. rewrite concat_app. apply subseq_app_l.
Qed.

(** With worker threads, in the STF/HBF format, and as long as no worker
    meets a formatting error: the timeframe ids sent are, in order, ids of
    the data sets pushed, so they never decrease when those do not. *)
Theorem egress_order_kept (ts : list Turn) (c : Consumer) :
  freshConsumer c ->
  scheduleOk ts c ->
  subseq (sentTimeframeIds (schedule cfg ts c)) (pushedTimeframeIds ts) /\
  (StronglySorted Z.le (pushedTimeframeIds ts) ->
   StronglySorted Z.le (sentTimeframeIds (schedule cfg ts c))).
Proof.
  intros Hfresh Hok.
  destruct (schedule_inv ts c [] 0%nat [] Hok (freshConsumer_inv c Hfresh))
    as (P & j & H).
  cbn [app] in H.
  assert (Hsub : subseq (sentTimeframeIds (schedule cfg ts c))
                   (pushedTimeframeIds ts)).
  { rewrite sentTimeframeIds_sentIds.
    eapply subseq_trans; [apply (inv_sent _ _ _ _ H)|].
    eapply subseq_trans; [apply subseq_concat_firstn|].
    eapply subseq_trans; [apply subseq_app_l|apply (inv_pushed _ _ _ _ H)]. }
  split; [exact Hsub|]. now apply subseq_sorted.
Qed.

End Order.

(** The turns of the example, with pool pages of 256 bytes: nothing fails,
    and the theorem applies. *)
Lemma egress_order_kept_witness :
  StronglySorted Z.le
    (sentTimeframeIds
       (schedule (exampleConfig false 256 2) (exampleTurns ++ [Sender])
          (emptyConsumer (repeat (repeat Byte.x00 256) 4) 2))).
Proof.
  apply (egress_order_kept (exampleConfig false 256 2)); try reflexivity.
  - repeat split.
  - repeat split; try (vm_compute; reflexivity);
      do 2 eexists; split; reflexivity.
  - change (StronglySorted Z.le [1; 2; 3]). repeat constructor; lia.
Defined.

(** The configuration of the examples with the packed copy off. *)
Definition plainCopyConfig : Config :=
  mkConfig exampleLayout 40 exampleDefaults false false false false false
    2048 0 0 (fun _ => true).


(** *** The sizes accounted for a message *)

Definition partsSize (cfg : Config) (l : list Part) : Z :=
  fold_right (fun p a => partSize cfg p + a) 0 l.

(** Bytes queued as parts plus bytes of the frames still pending. *)
Definition queuedSize (s : Fmt) : Z :=
  subTimeframeFMQSize s + totalSizeOf (pendingFrames s).

Definition sizesAgree (cfg : Config) (s : Fmt) : Prop :=
  subTimeframeFMQSize s = partsSize cfg (messagesToSend s).

Lemma partsSize_app cfg a b :
  partsSize cfg (a ++ b) = partsSize cfg a + partsSize cfg b.
Proof.
  induction a as [|p a IH]; cbn [app partsSize fold_right]; [reflexivity|].
  fold (partsSize cfg (a ++ b)). fold (partsSize cfg a). lia.
Qed.

Lemma totalSizeOf_snoc fs f :
  totalSizeOf (fs ++ [f]) = totalSizeOf fs + HBlength f.
Proof.
  unfold totalSizeOf. rewrite fold_left_app. reflexivity.
Qed.

Lemma sumDataSize_acc bc : forall acc,
  fold_left (fun a br => a + dataSize (header (getData br))) bc acc
  = acc + sumDataSize bc.
Proof.
  unfold sumDataSize. induction bc as [|br bc IH]; intros acc; cbn [fold_left].
  - lia.
  - rewrite IH, (IH (0 + _)). lia.
Qed.

Lemma sumDataSize_cons br bc :
  sumDataSize (br :: bc) = dataSize (header (getData br)) + sumDataSize bc.
Proof.
  unfold sumDataSize at 1. cbn [fold_left]. rewrite sumDataSize_acc. lia.
Qed.

Lemma pendingFramesCollect_sizes cfg s s' :
  pendingFramesCollect cfg s = Done s' ->
  sizesAgree cfg s ->
  sizesAgree cfg s' /\ subTimeframeFMQSize s' = queuedSize s /\
  pendingFrames s' = [].
Proof.
  unfold pendingFramesCollect, sizesAgree, queuedSize.
  destruct (pendingFrames s) as [|f1 [|f2 fs]] eqn:Efs.
  - intros [= <-] Ha. rewrite Efs. cbn. split; [exact Ha|]. split; [lia|reflexivity].
  - intros [= <-] Ha. cbn [messagesToSend subTimeframeFMQSize pendingFrames].
    rewrite partsSize_app, <- Ha. cbn. split; [lia|]. split; [lia|reflexivity].
  - destruct (_ <? _); [discriminate|].
    destruct (a_copyBlock _); [|discriminate].
    destruct (copyFrames _ _ _) as [filled ix].
    intros [= <-] Ha. cbn [messagesToSend subTimeframeFMQSize pendingFrames].
    rewrite partsSize_app, <- Ha. cbn [partsSize fold_right partSize].
    split; [lia|]. split; [lia|reflexivity].
Qed.

Section Sizes.

Variable cfg : Config.
Hypothesis sizeofRDH_nonneg : 0 <= sizeofRDH (layout cfg).

Lemma hbfWalk_sizes (br : DataBlockContainer) :
  forall fuel offset HBstart lastHBid s s' hs lh,
  HBstart <= dataSize (header (getData br)) ->
  sizesAgree cfg s ->
  hbfWalk cfg fuel br offset HBstart lastHBid s = WDone s' hs lh ->
  sizesAgree cfg s' /\
  queuedSize s' = queuedSize s + (hs - HBstart) /\
  hs <= dataSize (header (getData br)).
Proof.
  induction fuel as [|fuel IH];
    intros offset HBstart lastHBid s s' hs lh Hsd Ha; cbn [hbfWalk].
  - intros [= <- <- _]. repeat split; auto; lia.
  - destruct (Z.leb_spec (offset + sizeofRDH (layout cfg))
                (dataSize (header (getData br)))) as [Hle|Hgt].
    2:{ intros [= <- <- _]. repeat split; auto; lia. }
    match goal with |- context [negb (?a =? lastHBid)] =>
      destruct (negb (a =? lastHBid)) end.
    + set (s1 := if negb (offset - HBstart =? 0) then _ else s).
      assert (H1 : sizesAgree cfg s1 /\
                   queuedSize s1 = queuedSize s + (offset - HBstart)).
      { subst s1. destruct (Z.eqb_spec (offset - HBstart) 0) as [E|E];
          cbn [negb].
        - split; [exact Ha | lia].
        - split; [exact Ha|]. unfold queuedSize, pendingFramesAppend.
          cbn [subTimeframeFMQSize pendingFrames].
          rewrite totalSizeOf_snoc. cbn. lia. }
      destruct H1 as [Ha1 Hq1].
      destruct (pendingFramesCollect cfg s1) as [s2|] eqn:Ec; [|discriminate].
      destruct (pendingFramesCollect_sizes cfg s1 s2 Ec Ha1) as (Ha2 & Hf2 & He2).
      assert (Hq2 : queuedSize s2 = queuedSize s1).
      { unfold queuedSize at 1. rewrite He2, Hf2. cbn. lia. }
      match goal with |- context [u16 ?x =? 0] =>
        destruct (Z.eqb_spec (u16 x) 0) as [En|En] end.
      * intros [= <- <- _]. repeat split; auto; lia.
      * intros Hw. apply IH in Hw; [|lia|assumption].
        destruct Hw as (Ha3 & Hq3 & Hh3). repeat split; auto; lia.
    + match goal with |- context [u16 ?x =? 0] =>
        destruct (Z.eqb_spec (u16 x) 0) as [En|En] end.
      * intros [= <- <- _]. repeat split; auto; lia.
      * intros Hw. apply IH in Hw; assumption.
Qed.

Lemma formatBlocks_sizes : forall bc lastHBid s s',
  Forall (fun br => 0 <= dataSize (header (getData br))) bc ->
  sizesAgree cfg s ->
  formatBlocks cfg bc lastHBid s = Done s' ->
  sizesAgree cfg s' /\
  subTimeframeFMQSize s' = queuedSize s + sumDataSize bc.
Proof.
  induction bc as [|br rest IH]; intros lastHBid s s' Hnn Ha;
    cbn [formatBlocks].
  - intros Hc. destruct (pendingFramesCollect_sizes cfg s s' Hc Ha)
      as (Ha' & Hf & _). split; [exact Ha'|]. unfold sumDataSize. cbn. lia.
  - inversion Hnn as [|? ? Hbr Hrest]; subst.
    destruct (hbfWalk cfg _ br 0 0 lastHBid s) as [s1 hs lh|] eqn:Ew;
      [|discriminate].
    apply hbfWalk_sizes in Ew; [|exact Hbr|exact Ha].
    destruct Ew as (Ha1 & Hq1 & Hh1).
    set (D := dataSize (header (getData br))) in *.
    set (s2 := if hs <? D then _ else s1).
    assert (H2 : sizesAgree cfg s2 /\ queuedSize s2 = queuedSize s + D).
    { subst s2. destruct (Z.ltb_spec hs D) as [Hlt|Hge].
      - split; [exact Ha1|]. unfold queuedSize, pendingFramesAppend.
        cbn [subTimeframeFMQSize pendingFrames].
        rewrite totalSizeOf_snoc. cbn. unfold queuedSize in Hq1. lia.
      - split; [exact Ha1 | lia]. }
    destruct H2 as [Ha2 Hq2]. intros Hf.
    destruct (IH lh s2 s' Hrest Ha2 Hf) as [Ha3 Hq3].
    split; [exact Ha3|]. rewrite sumDataSize_cons. fold D. lia.
Qed.

End Sizes.

(** The two size accountings of a message formatted without error agree:
    [subTimeframeFMQSize], added up as the parts are queued, is the sum of
    the sizes of the parts of the message, and it equals
    [subTimeframeTotalSize], the size of the STF header plus the payload
    sizes of the pages, however the payload was cut and repacked. *)
Theorem format_sizes_agree
  (cfg : Config) (bc : DataSet) (sh sh' : Shared) (ddm : DDMessage) :
  0 <= sizeofRDH (layout cfg) ->
  Forall (fun br => 0 <= dataSize (header (getData br))) bc ->
  DDformatMessage cfg bc sh = (sh', Some ddm) ->
  dd_subTimeframeFMQSize ddm = partsSize cfg (dd_messagesToSend ddm) /\
  dd_subTimeframeFMQSize ddm = dd_subTimeframeTotalSize ddm /\
  dd_subTimeframeTotalSize ddm = sizeofSubTimeframe cfg + sumDataSize bc.
Proof.
  intros Hrdh Hnn. unfold DDformatMessage.
  destruct (_ <? _); [discriminate|].
  destruct (getNewDataBlockContainer (sh_mp sh)) as [[headerBlock|] mp1];
    [|discriminate].
  destruct (formatBlocks cfg bc lastHBidInit _) as [s|] eqn:Ef; [|discriminate].
  intros [= _ <-].
  cbn [dd_subTimeframeFMQSize dd_messagesToSend dd_subTimeframeTotalSize].
  apply (formatBlocks_sizes cfg Hrdh) in Ef; [|exact Hnn|].
  - destruct Ef as [Ha Hq]. unfold queuedSize in Hq. cbn in Hq.
    split; [exact Ha|]. split; [lia | reflexivity].
  - unfold sizesAgree. cbn. lia.
Qed.

Lemma format_sizes_agree_witness :
  match DDformatMessage (exampleConfig false 2048 0) [pageA; pageB]
          (emptyShared [repeat Byte.x00 2048; repeat Byte.x00 2048]) with
  | (_, Some ddm) =>
      dd_subTimeframeFMQSize ddm = 1240 /\
      partsSize (exampleConfig false 2048 0) (dd_messagesToSend ddm) = 1240
  | (_, None) => False
  end.
Proof.
  destruct (DDformatMessage (exampleConfig false 2048 0) [pageA; pageB]
              (emptyShared [repeat Byte.x00 2048; repeat Byte.x00 2048]))
    as [sh' [ddm|]] eqn:E; [|vm_compute in E; discriminate].
  destruct (format_sizes_agree (exampleConfig false 2048 0) [pageA; pageB]
              (emptyShared [repeat Byte.x00 2048; repeat Byte.x00 2048])
              sh' ddm) as (H1 & H2 & H3).
  - cbn. lia.
  - repeat constructor; vm_compute; intro; discriminate.
  - exact E.
  - rewrite <- H1, H2, H3. split; reflexivity.
Defined.


(** *** A data set of one page *)

(** A part that points into the page of [br]. *)
Definition refersTo (br : DataBlockContainer) (p : Part) : Prop :=
  exists ix l, p = PagePart (getData br) ix l.

(** The pool, the scratch page and the copy counters are the same. *)
Definition sameResources (s s' : Fmt) : Prop :=
  mp s' = mp s /\ copyBlockBuffer s' = copyBlockBuffer s /\
  ddHBFRepacked s' = ddHBFRepacked s /\ ddBytesCopied s' = ddBytesCopied s /\
  nPagesUsedForRepack s' = nPagesUsedForRepack s /\
  subTimeframeMemorySize s' = subTimeframeMemorySize s.

Lemma pendingFramesCollect_one cfg br s :
  (List.length (pendingFrames s) <= 1)%nat ->
  Forall (fun f => blockRef f = br) (pendingFrames s) ->
  exists s' l,
    pendingFramesCollect cfg s = Done s' /\
    pendingFrames s' = [] /\ sameResources s s' /\
    messagesToSend s' = messagesToSend s ++ l /\ Forall (refersTo br) l.
Proof.
  intros Hlen Hall. unfold pendingFramesCollect.
  destruct (pendingFrames s) as [|f [|f2 fs]] eqn:Efs; cbn in Hlen; [| |lia].
  - exists s, []. rewrite app_nil_r. repeat split; auto.
  - eexists _, _. split; [reflexivity|]. cbn. repeat split.
    constructor; [|constructor]. inversion Hall as [|? ? Hf _]; subst.
    red. eauto.
Qed.

Lemma hbfWalk_one cfg br :
  forall fuel offset HBstart lastHBid s,
  pendingFrames s = [] ->
  exists s' hs lh l,
    hbfWalk cfg fuel br offset HBstart lastHBid s = WDone s' hs lh /\
    pendingFrames s' = [] /\ sameResources s s' /\
    messagesToSend s' = messagesToSend s ++ l /\ Forall (refersTo br) l.
Proof.
  assert (Hstay : forall s hs lh, pendingFrames s = [] ->
            exists s' hs' lh' l,
              WDone s hs lh = WDone s' hs' lh' /\
              pendingFrames s' = [] /\ sameResources s s' /\
              messagesToSend s' = messagesToSend s ++ l /\
              Forall (refersTo br) l).
  { intros s hs lh He. exists s, hs, lh, []. rewrite app_nil_r.
    repeat split; auto. }
  induction fuel as [|fuel IH]; intros offset HBstart lastHBid s He;
    cbn [hbfWalk]; [now apply Hstay|].
  destruct (_ <=? _); [|now apply Hstay].
  match goal with |- context [negb (?a =? lastHBid)] =>
    destruct (negb (a =? lastHBid)) end.
  - set (s1 := if negb (offset - HBstart =? 0) then _ else s).
    assert (H1 : (List.length (pendingFrames s1) <= 1)%nat /\
                 Forall (fun f => blockRef f = br) (pendingFrames s1) /\
                 sameResources s s1 /\ messagesToSend s1 = messagesToSend s).
    { subst s1. destruct (negb _).
      - unfold pendingFramesAppend. cbn. rewrite He. cbn.
        repeat split; auto.
      - rewrite He. cbn. repeat split; auto. }
    destruct H1 as (Hl1 & Hb1 & Hr1 & Hm1).
    destruct (pendingFramesCollect_one cfg br s1 Hl1 Hb1)
      as (s2 & l2 & -> & He2 & Hr2 & Hm2 & Hf2).
    assert (Hr : sameResources s s2).
    { destruct Hr1 as (?&?&?&?&?&?), Hr2 as (?&?&?&?&?&?).
      repeat split; congruence. }
    match goal with |- context [u16 ?x =? 0] =>
      destruct (Z.eqb_spec (u16 x) 0) as [En|En] end.
    + exists s2, offset, (heartbeatOrbit (layout cfg) (data (getData br)) offset), l2.
      repeat split; try apply Hr; try assumption. congruence.
    + edestruct (IH (offset + u16 (offsetNextPacket (layout cfg)
                                     (data (getData br)) offset))
                   offset
                   (heartbeatOrbit (layout cfg) (data (getData br)) offset)
                   s2 He2)
        as (s3 & hs & lh & l3 & Hw & He3 & Hr3 & Hm3 & Hf3).
      exists s3, hs, lh, (l2 ++ l3). split; [exact Hw|]. split; [exact He3|].
      split.
      { destruct Hr as (?&?&?&?&?&?), Hr3 as (?&?&?&?&?&?).
        repeat split; congruence. }
      split; [rewrite Hm3, Hm2, Hm1; now rewrite app_assoc|].
      apply Forall_app. auto.
  - match goal with |- context [u16 ?x =? 0] =>
      destruct (Z.eqb_spec (u16 x) 0) as [En|En] end.
    + now apply Hstay.
    + now apply IH.
Qed.

(** A data set of a single page is never copied and never fails for lack
    of scratch pages: given a pool page for the STF header, it is formatted
    into the STF header followed by parts that all point into the page
    itself; the pool gives that one page only, and the repack counters do
    not move. *)
Theorem single_page_sent_by_reference
  (cfg : Config) (br : DataBlockContainer) (sh : Shared)
  (headerBlock : list Byte.byte) (rest : Pool) :
  sizeofSubTimeframe cfg <= memoryPoolPageSize cfg ->
  sh_mp sh = headerBlock :: rest ->
  exists sh' ddm parts,
    DDformatMessage cfg [br] sh = (sh', Some ddm) /\
    dd_messagesToSend ddm = StfPart (dd_stfHeader ddm) :: parts /\
    Forall (refersTo br) parts /\
    sh_mp sh' = rest /\
    sh_ddHBFRepacked sh' = sh_ddHBFRepacked sh /\
    sh_ddBytesCopied sh' = sh_ddBytesCopied sh /\
    sh_nPagesUsedForRepack sh' = sh_nPagesUsedForRepack sh /\
    totalPushError sh' = totalPushError sh.
Proof.
  intros Hsz Hpool. unfold DDformatMessage.
  destruct (Z.ltb_spec (memoryPoolPageSize cfg) (sizeofSubTimeframe cfg));
    [lia|].
  rewrite Hpool. cbn [getNewDataBlockContainer formatBlocks].
  set (s0 := mkFmt rest None [] _ _ _ _ _ _).
  destruct (hbfWalk_one cfg br (walkFuel br) 0 0 lastHBidInit s0 eq_refl)
    as (s1 & hs & lh & l1 & -> & He1 & Hr1 & Hm1 & Hf1).
  set (s2 := if hs <? _ then _ else s1).
  assert (H2 : (List.length (pendingFrames s2) <= 1)%nat /\
               Forall (fun f => blockRef f = br) (pendingFrames s2) /\
               sameResources s1 s2 /\ messagesToSend s2 = messagesToSend s1).
  { subst s2. destruct (_ <? _).
    - unfold pendingFramesAppend. cbn. rewrite He1. cbn. repeat split; auto.
    - rewrite He1. cbn. repeat split; auto. }
  destruct H2 as (Hl2 & Hb2 & Hr2 & Hm2).
  destruct (pendingFramesCollect_one cfg br s2 Hl2 Hb2)
    as (s3 & l3 & -> & He3 & Hr3 & Hm3 & Hf3).
  eexists _, _, (l1 ++ l3). split; [reflexivity|].
  cbn [dd_messagesToSend dd_stfHeader afterFormat sh_mp sh_ddHBFRepacked
       sh_ddBytesCopied sh_nPagesUsedForRepack totalPushError].
  destruct Hr1 as (?&?&?&?&?&?), Hr2 as (?&?&?&?&?&?), Hr3 as (?&?&?&?&?&?).
  split; [rewrite Hm3, Hm2, Hm1; subst s0; cbn; reflexivity|].
  split; [apply Forall_app; auto|].
  repeat split; subst s0; cbn in *; congruence.
Qed.

(** Two heartbeat frames of 256 and 128 bytes in one page. *)
Definition pageTwoFrames : DataBlockContainer :=
  page 7 true (packet 100 256 256 Byte.xaa ++ packet 101 0 128 Byte.xbb).

Lemma single_page_sent_by_reference_witness :
  exists sh' ddm,
    DDformatMessage (exampleConfig false 2048 0) [pageTwoFrames]
      (emptyShared [repeat Byte.x00 2048]) = (sh', Some ddm) /\
    sh_mp sh' = [] /\
    List.length (dd_messagesToSend ddm) = 3%nat.
Proof.
  destruct (single_page_sent_by_reference (exampleConfig false 2048 0)
              pageTwoFrames (emptyShared [repeat Byte.x00 2048])
              (repeat Byte.x00 2048) [])
    as (sh' & ddm & parts & E & Hm & _ & Hp & _).
  - cbn. lia.
  - reflexivity.
  - exists sh', ddm. split; [exact E|]. split; [exact Hp|].
    assert (E' : DDformatMessage (exampleConfig false 2048 0) [pageTwoFrames]
                   (emptyShared [repeat Byte.x00 2048])
                 = (sh', Some ddm)) by exact E.
    vm_compute in E'. injection E' as _ <-. reflexivity.
Defined.


(** *** The FIFOs of the worker threads *)

(** No FIFO of a worker holds more entries than [wThreadFifoSize]. *)
Definition fifosBounded (cfg : Config) (c : Consumer) : Prop :=
  Forall (fun w =>
            Z.of_nat (List.length (input w)) <= wThreadFifoSize cfg /\
            Z.of_nat (List.length (output w)) <= wThreadFifoSize cfg)
         (wThreads c).

Lemma updateAt_Forall {A} (P : A -> Prop) (x : A) : forall l n,
  Forall P l -> P x -> Forall P (updateAt n x l).
Proof.
  induction l as [|y l IH]; intros [|n] Hl Hx; cbn; auto;
    inversion Hl; subst; constructor; auto.
Qed.

Lemma nth_error_Forall {A} (P : A -> Prop) l n (w : A) :
  Forall P l -> nth_error l n = Some w -> P w.
Proof.
  intros Hl Hn. rewrite Forall_forall in Hl. apply Hl.
  eapply nth_error_In; eassumption.
Qed.

Section Fifos.

Variable cfg : Config.

Lemma pushCurrentTimeframe_bounded c :
  fifosBounded cfg c -> fifosBounded cfg (fst (pushCurrentTimeframe cfg c)).
Proof.
  intros Hb. unfold pushCurrentTimeframe.
  destruct (currentTimeframeBuffer c) as [buffer|]; [|exact Hb].
  destruct (nth_error (wThreads c) _) as [w|] eqn:En; [|exact Hb].
  unfold fifoFull.
  destruct (Z.leb_spec (wThreadFifoSize cfg) (Z.of_nat (List.length (input w))))
    as [Hfull|Hroom]; [exact Hb|].
  cbn [fst]. unfold fifosBounded. cbn [wThreads].
  apply updateAt_Forall; [exact Hb|].
  pose proof (nth_error_Forall _ _ _ _ Hb En) as [_ Ho].
  cbn [input output]. rewrite length_app. cbn. split; lia.
Qed.

Lemma processForDataDistribution_bounded bc c :
  fifosBounded cfg c ->
  fifosBounded cfg (fst (processForDataDistribution cfg bc c)).
Proof.
  intros Hb. unfold processForDataDistribution.
  destruct (nwThreads cfg =? 0).
  { destruct (DDformatMessage cfg bc (shared c)) as [sh1 [msg|]];
      [|exact Hb].
    destruct (DDsendMessage cfg msg sh1) as [sh2 []]; exact Hb. }
  destruct bc as [|front rest]; [exact Hb|].
  destruct (negb _); [exact Hb|].
  set (c1 := if negb _ then _ else c).
  assert (Hb1 : fifosBounded cfg c1).
  { subst c1. destruct (negb _); [|exact Hb].
    apply pushCurrentTimeframe_bounded in Hb. exact Hb. }
  destruct (currentTimeframeBuffer c1) as [buffer|]; [|exact Hb1].
  destruct (flagEndOfTimeframe _); [|exact Hb1].
  cbn [fst]. apply pushCurrentTimeframe_bounded. exact Hb1.
Qed.

Lemma pushData_bounded bc c :
  fifosBounded cfg c -> fifosBounded cfg (fst (pushData cfg bc c)).
Proof.
  intros Hb. unfold pushData.
  destruct (disableSending cfg); [exact Hb|].
  destruct (enableRawFormat cfg); [exact Hb|].
  destruct (enableRawFormatDatablock cfg); [exact Hb|].
  destruct (_ || _).
  - destruct (getNewDataBlockContainer _) as [[headerBlock|] mp1]; exact Hb.
  - apply processForDataDistribution_bounded. exact Hb.
Qed.

Lemma wThreadLoop_bounded thIx c :
  fifosBounded cfg c -> fifosBounded cfg (wThreadLoop cfg thIx c).
Proof.
  intros Hb. unfold wThreadLoop.
  destruct (nth_error (wThreads c) thIx) as [w|] eqn:En; [|exact Hb].
  pose proof (nth_error_Forall _ _ _ _ Hb En) as [Hi Ho].
  unfold fifoFull.
  destruct (Z.leb_spec (wThreadFifoSize cfg) (Z.of_nat (List.length (output w))))
    as [Hfull|Hroom]; [exact Hb|].
  destruct (input w) as [|tf rest] eqn:Ei; [exact Hb|].
  cbn [List.length] in Hi.
  destruct tf as [|bc tf].
  - unfold fifosBounded. cbn [wThreads].
    apply updateAt_Forall; [exact Hb|]. cbn. split; lia.
  - destruct (formatAll cfg (bc :: tf) (shared c) []) as [sh1 [msglist|]];
      unfold fifosBounded; cbn [wThreads];
      (apply updateAt_Forall; [exact Hb|]); cbn [input output].
    + rewrite length_app. cbn. split; lia.
    + split; lia.
Qed.

Lemma senderThreadLoop_bounded c :
  fifosBounded cfg c -> fifosBounded cfg (senderThreadLoop cfg c).
Proof.
  intros Hb. unfold senderThreadLoop.
  destruct (nth_error (wThreads c) _) as [w|] eqn:En; [|exact Hb].
  pose proof (nth_error_Forall _ _ _ _ Hb En) as [Hi Ho].
  destruct (output w) as [|msglist rest] eqn:Eo; [exact Hb|].
  destruct (sendAll cfg msglist (shared c) false) as [sh1 isError].
  unfold fifosBounded. cbn [wThreads].
  apply updateAt_Forall; [exact Hb|]. cbn in *. split; lia.
Qed.

Lemma schedule_bounded : forall ts c,
  fifosBounded cfg c -> fifosBounded cfg (schedule cfg ts c).
Proof.
  induction ts as [|t ts IH]; intros c Hb; [exact Hb|].
  unfold schedule. cbn [fold_left]. apply IH.
  destruct t as [bc|thIx|]; cbn [turn].
  - now apply pushData_bounded.
  - now apply wThreadLoop_bounded.
  - now apply senderThreadLoop_bounded.
Qed.

End Fifos.

(** Under any interleaving of the pushing thread, the workers and the
    sender, and in every format, no input or output FIFO of a worker ever
    holds more than [wThreadFifoSize] entries: a timeframe is handed to a
    worker, and a worker formats one, only when there is room for it. *)
Theorem worker_fifos_never_overflow
  (cfg : Config) (ts : list Turn) (c : Consumer) :
  fifosBounded cfg c -> fifosBounded cfg (schedule cfg ts c).
Proof. apply schedule_bounded. Qed.

(** Two workers with FIFOs of one entry. *)
Definition tightConfig : Config :=
  mkConfig exampleLayout 40 exampleDefaults false false false false true
    256 2 1 (fun _ => true).

Lemma worker_fifos_never_overflow_witness :
  map (fun w => (List.length (input w), List.length (output w)))
    (wThreads (schedule tightConfig
                 [Push tf1; Push tf2; Push tf3; Push tf1; Push tf2; Worker 1]
                 (emptyConsumer (repeat (repeat Byte.x00 256) 4) 2)))
  = [(1, 0); (0, 1)]%nat /\
  fifosBounded tightConfig
    (schedule tightConfig
       [Push tf1; Push tf2; Push tf3; Push tf1; Push tf2; Worker 1]
       (emptyConsumer (repeat (repeat Byte.x00 256) 4) 2)).
Proof.
  split; [vm_compute; reflexivity|].
  apply (worker_fifos_never_overflow tightConfig).
  repeat constructor; cbn; lia.
Defined.


(** *** Sending without worker threads, and the raw format *)

Lemma DDformatMessage_counters cfg bc sh :
  totalPushSuccess (fst (DDformatMessage cfg bc sh)) = totalPushSuccess sh /\
  bytesFairMQ (fst (DDformatMessage cfg bc sh)) = bytesFairMQ sh /\
  timeframeIdFairMQ (fst (DDformatMessage cfg bc sh)) = timeframeIdFairMQ sh /\
  totalPushError (fst (DDformatMessage cfg bc sh))
  = match snd (DDformatMessage cfg bc sh) with
    | Some _ => totalPushError sh
    | None => u64 (totalPushError sh + 1)
    end /\
  match snd (DDformatMessage cfg bc sh) with
  | Some ddm =>
      dd_subTimeframeTotalSize ddm = sizeofSubTimeframe cfg + sumDataSize bc
  | None => True
  end.
Proof.
  unfold DDformatMessage.
  destruct (_ <? _); [cbn; auto|].
  destruct (getNewDataBlockContainer (sh_mp sh)) as [[headerBlock|] mp1];
    [|cbn; auto].
  destruct (formatBlocks cfg bc lastHBidInit _); cbn; auto.
Qed.

(** Without worker threads a data set is sent whole or not at all.  If it
    is formatted and the channel takes the message, the call returns 0, the
    channel has been given exactly that message, one success is counted and
    the transport gauges are set from it.  If the channel refuses it, the
    call returns -1, nothing is recorded as sent and one error is counted.
    If the formatting fails the call returns -1, nothing is sent, and two
    errors are counted: one by [DDformatMessage] and one by the caller. *)
Theorem inline_push_all_or_nothing
  (cfg : Config) (bc : DataSet) (c : Consumer) :
  nwThreads cfg = 0 ->
  let '(c', r) := processForDataDistribution cfg bc c in
  wThreads c' = wThreads c /\
  totalPushSuccess (shared c')
  = (if Z.eqb r 0 then u64 (totalPushSuccess (shared c) + 1)
     else totalPushSuccess (shared c)) /\
  match snd (DDformatMessage cfg bc (shared c)) with
  | Some ddm =>
      if channelSend cfg (dd_messagesToSend ddm) then
        r = 0 /\
        sent (shared c') = sent (shared c) ++ [dd_messagesToSend ddm] /\
        totalPushError (shared c') = totalPushError (shared c) /\
        timeframeIdFairMQ (shared c')
        = STF.timeframeId (firstPass true bc (stfhDefaults cfg)) /\
        bytesFairMQ (shared c')
        = u64 (bytesFairMQ (shared c)
               + (sizeofSubTimeframe cfg + sumDataSize bc))
      else
        r = -1 /\ sent (shared c') = sent (shared c) /\
        totalPushError (shared c') = u64 (totalPushError (shared c) + 1)
  | None =>
      r = -1 /\ sent (shared c') = sent (shared c) /\
      totalPushError (shared c')
      = u64 (u64 (totalPushError (shared c) + 1) + 1)
  end.
Proof.
  intros Hn. unfold processForDataDistribution. rewrite Hn. cbn [Z.eqb].
  pose proof (DDformatMessage_sent cfg bc (shared c)) as Hs.
  pose proof (DDformatMessage_counters cfg bc (shared c))
    as (Hok & Hby & Htf & Herr & Hsz).
  destruct (DDformatMessage cfg bc (shared c)) as [sh1 [ddm|]] eqn:E;
    cbn [fst snd] in *.
  - apply DDformatMessage_header in E. destruct E as [Hh _].
    unfold DDsendMessage.
    destruct (channelSend cfg (dd_messagesToSend ddm)); cbn.
    + repeat split; congruence.
    + repeat split; congruence.
  - cbn. repeat split; congruence.
Qed.

Lemma inline_push_all_or_nothing_witness :
  snd (processForDataDistribution (exampleConfig false 2048 0) [pageTwoFrames]
         (emptyConsumer [repeat Byte.x00 2048] 0)) = 0 /\
  List.length
    (sent (shared (fst (processForDataDistribution (exampleConfig false 2048 0)
                          [pageTwoFrames]
                          (emptyConsumer [repeat Byte.x00 2048] 0))))) = 1%nat /\
  totalPushSuccess
    (shared (fst (processForDataDistribution (exampleConfig false 2048 0)
                    [pageTwoFrames]
                    (emptyConsumer [repeat Byte.x00 2048] 0)))) = 1.
Proof.
  pose proof (inline_push_all_or_nothing (exampleConfig false 2048 0)
                [pageTwoFrames] (emptyConsumer [repeat Byte.x00 2048] 0)
                eq_refl) as H.
  destruct (processForDataDistribution _ _ _) as [c' r].
  destruct H as (_ & Hok & H).
  destruct (snd (DDformatMessage _ _ _)) as [ddm|] eqn:E;
    [|vm_compute in E; discriminate].
  change (channelSend (exampleConfig false 2048 0) (dd_messagesToSend ddm))
    with true in H.
  destruct H as (-> & Hs & _). cbn [fst snd].
  split; [reflexivity|]. split.
  - rewrite Hs. reflexivity.
  - rewrite Hok. reflexivity.
Defined.

Lemma rawFormat_fold cfg : forall bc sh,
  let sh' :=
    fold_left
      (fun sh br =>
         countBytes (dataSize (header (getData br)))
           (logSend cfg [wholePage br] sh))
      bc sh in
  sent sh' = sent sh
             ++ filter (channelSend cfg) (map (fun br => [wholePage br]) bc) /\
  sh_mp sh' = sh_mp sh /\
  totalPushSuccess sh' = totalPushSuccess sh /\
  totalPushError sh' = totalPushError sh.
Proof.
  induction bc as [|br bc IH]; intros sh; cbn [fold_left map filter].
  - cbv zeta. rewrite app_nil_r. auto.
  - specialize (IH (countBytes (dataSize (header (getData br)))
                      (logSend cfg [wholePage br] sh))).
    cbv zeta in *. destruct IH as (Hs & Hm & Hok & Herr).
    rewrite Hs, Hm, Hok, Herr. unfold logSend, countBytes.
    destruct (channelSend cfg [wholePage br]); cbn.
    + rewrite <- app_assoc. auto.
    + auto.
Qed.

(** In the raw format [pushData] gives the channel one message per page, in
    the order of the pages, each made of one part that points to the whole
    payload of the page; only the messages the channel takes are recorded.
    The call takes no page from the pool, counts one success and returns 0
    whatever the channel answered. *)
Theorem raw_format_one_message_per_page
  (cfg : Config) (bc : DataSet) (c : Consumer) :
  disableSending cfg = false ->
  enableRawFormat cfg = true ->
  let '(c', r) := pushData cfg bc c in
  r = 0 /\
  sent (shared c')
  = sent (shared c)
    ++ filter (channelSend cfg) (map (fun br => [wholePage br]) bc) /\
  sh_mp (shared c') = sh_mp (shared c) /\
  totalPushSuccess (shared c') = u64 (totalPushSuccess (shared c) + 1) /\
  totalPushError (shared c') = totalPushError (shared c) /\
  wThreads c' = wThreads c.
Proof.
  intros Hd Hr. unfold pushData. rewrite Hd, Hr.
  pose proof (rawFormat_fold cfg bc
                (shared (with_shared
                           (countInput (Z.of_nat (List.length bc)) (shared c))
                           c))) as H.
  cbv zeta in H. destruct H as (Hs & Hm & Hok & Herr).
  cbn [shared with_shared pushSuccess sent sh_mp totalPushSuccess
       totalPushError wThreads].
  cbn [shared with_shared] in Hs, Hm, Hok, Herr.
  rewrite Hs, Hm, Hok, Herr. cbn. repeat split.
Qed.

Definition rawConfig : Config :=
  mkConfig exampleLayout 40 exampleDefaults false true false false true
    2048 0 0 (fun _ => true).

Lemma raw_format_one_message_per_page_witness :
  sent (shared (fst (pushData rawConfig [pageA; pageB] (emptyConsumer [] 0))))
  = [[wholePage pageA]; [wholePage pageB]].
Proof.
  pose proof (raw_format_one_message_per_page rawConfig [pageA; pageB]
                (emptyConsumer [] 0) eq_refl eq_refl) as H.
  destruct (pushData rawConfig [pageA; pageB] (emptyConsumer [] 0)) as [c' r].
  destruct H as (_ & H & _). cbn [fst]. rewrite H. reflexivity.
Defined.


(** *** The repack counters and the pool *)

(** The number of parts of a message that are copies, and their bytes. *)
Definition nCopies (l : list Part) : Z :=
  fold_right (fun p a => match p with CopyPart _ _ => 1 + a | _ => a end) 0 l.

Definition copiedBytes (l : list Part) : Z :=
  fold_right (fun p a => match p with CopyPart _ t => t + a | _ => a end) 0 l.

Lemma nCopies_app a b : nCopies (a ++ b) = nCopies a + nCopies b.
Proof.
  induction a as [|p a IH]; cbn [app nCopies fold_right]; [reflexivity|].
  fold (nCopies (a ++ b)). fold (nCopies a). destruct p; lia.
Qed.

Lemma copiedBytes_app a b : copiedBytes (a ++ b) = copiedBytes a + copiedBytes b.
Proof.
  induction a as [|p a IH]; cbn [app copiedBytes fold_right]; [reflexivity|].
  fold (copiedBytes (a ++ b)). fold (copiedBytes a). destruct p; lia.
Qed.

(** From [s] to [s']: parts were added, and the counters and the pool have
    moved by what the copies among them account for. *)
Definition repackAccounted (cfg : Config) (s s' : Fmt) : Prop :=
  exists l,
    messagesToSend s' = messagesToSend s ++ l /\
    u64 (ddBytesCopied s') = u64 (ddBytesCopied s + copiedBytes l) /\
    u64 (ddHBFRepacked s') = u64 (ddHBFRepacked s + nCopies l) /\
    (enablePackedCopy cfg = false ->
     Z.of_nat (List.length (mp s')) + nCopies l = Z.of_nat (List.length (mp s))).

Lemma repackAccounted_refl cfg s s' :
  messagesToSend s' = messagesToSend s -> ddBytesCopied s' = ddBytesCopied s ->
  ddHBFRepacked s' = ddHBFRepacked s -> mp s' = mp s ->
  repackAccounted cfg s s'.
Proof.
  intros Hm Hb Hr Hp. exists []. rewrite Hm, Hb, Hr, Hp, app_nil_r.
  cbn. rewrite !Z.add_0_r. auto.
Qed.

Lemma repackAccounted_trans cfg s1 s2 s3 :
  repackAccounted cfg s1 s2 -> repackAccounted cfg s2 s3 ->
  repackAccounted cfg s1 s3.
Proof.
  intros (l1 & Hm1 & Hb1 & Hr1 & Hp1) (l2 & Hm2 & Hb2 & Hr2 & Hp2).
  exists (l1 ++ l2). rewrite Hm2, Hm1, app_assoc, copiedBytes_app, nCopies_app.
  split; [reflexivity|]. split; [|split].
  - rewrite Hb2, <- Equipment.u64_add_idemp, Hb1, Equipment.u64_add_idemp.
    f_equal. lia.
  - rewrite Hr2, <- Equipment.u64_add_idemp, Hr1, Equipment.u64_add_idemp.
    f_equal. lia.
  - intros Hoff. specialize (Hp1 Hoff). specialize (Hp2 Hoff). lia.
Qed.

Lemma u64_idemp x : u64 (u64 x) = u64 x.
Proof. unfold u64, wrap. apply Z.mod_mod. lia. Qed.

Lemma pendingFramesCollect_accounted cfg s s' :
  pendingFramesCollect cfg s = Done s' -> repackAccounted cfg s s'.
Proof.
  unfold pendingFramesCollect.
  destruct (pendingFrames s) as [|f1 [|f2 fs]].
  - intros [= <-]. now apply repackAccounted_refl.
  - intros [= <-]. eexists [_]. split; [reflexivity|]. cbn.
    rewrite ?Z.add_0_r. auto.
  - destruct (_ <? _); [discriminate|].
    set (a0 := mkAlloc (mp s) _ false 0 _ None).
    destruct (a_copyBlock _) as [newBlock|] eqn:Ea; [|discriminate].
    destruct (copyFrames _ _ _) as [filled ix].
    intros [= <-]. eexists [_]. split; [reflexivity|].
    cbn [messagesToSend ddBytesCopied ddHBFRepacked mp copiedBytes nCopies
         fold_right].
    rewrite ?u64_idemp, ?Z.add_0_r.
    repeat split. intros Hoff. rewrite Hoff in *.
    apply allocPlain_region in Ea. destruct Ea as [rest Ea].
    unfold allocPlain. rewrite Ea. cbn [getNewDataBlockContainer a_mp].
    subst a0. cbn [a_mp] in Ea. rewrite Ea. cbn [List.length]. lia.
Qed.

Lemma hbfWalk_accounted cfg br :
  forall fuel offset HBstart lastHBid s s' hs lh,
  hbfWalk cfg fuel br offset HBstart lastHBid s = WDone s' hs lh ->
  repackAccounted cfg s s'.
Proof.
  induction fuel as [|fuel IH]; intros offset HBstart lastHBid s s' hs lh;
    cbn [hbfWalk].
  - intros [= <- _ _]. now apply repackAccounted_refl.
  - destruct (_ <=? _).
    2:{ intros [= <- _ _]. now apply repackAccounted_refl. }
    match goal with |- context [negb (?a =? lastHBid)] =>
      destruct (negb (a =? lastHBid)) end.
    + set (s1 := if negb (offset - HBstart =? 0) then _ else s).
      assert (H1 : repackAccounted cfg s s1).
      { subst s1. destruct (negb _); now apply repackAccounted_refl. }
      destruct (pendingFramesCollect cfg s1) as [s2|] eqn:Ec; [|discriminate].
      apply pendingFramesCollect_accounted in Ec.
      pose proof (repackAccounted_trans cfg s s1 s2 H1 Ec) as H2.
      match goal with |- context [u16 ?x =? 0] => destruct (u16 x =? 0) end.
      * intros [= <- _ _]. exact H2.
      * intros H. apply IH in H. eapply repackAccounted_trans; eassumption.
    + match goal with |- context [u16 ?x =? 0] => destruct (u16 x =? 0) end.
      * intros [= <- _ _]. now apply repackAccounted_refl.
      * apply IH.
Qed.

Lemma formatBlocks_accounted cfg : forall bc lastHBid s s',
  formatBlocks cfg bc lastHBid s = Done s' -> repackAccounted cfg s s'.
Proof.
  induction bc as [|br rest IH]; intros lastHBid s s'; cbn [formatBlocks].
  - apply pendingFramesCollect_accounted.
  - destruct (hbfWalk cfg _ br 0 0 lastHBid s) as [s1 hs lh|] eqn:Ew;
      [|discriminate].
    apply hbfWalk_accounted in Ew.
    set (s2 := if hs <? _ then _ else s1).
    assert (H2 : repackAccounted cfg s1 s2).
    { subst s2. destruct (_ <? _); now apply repackAccounted_refl. }
    intros H. apply IH in H.
    eapply repackAccounted_trans; [exact Ew|].
    eapply repackAccounted_trans; eassumption.
Qed.

(** The repack statistics agree with the message formatted: modulo 2^64,
    [ddHBFRepacked] has gone up by the number of parts of the message that
    are copies and [ddBytesCopied] by the sum of their sizes.  Without the
    packed copy the pool has given exactly one page for the STF header and
    one for each copy. *)
Theorem repack_counters_match_message
  (cfg : Config) (bc : DataSet) (sh sh' : Shared) (ddm : DDMessage) :
  DDformatMessage cfg bc sh = (sh', Some ddm) ->
  u64 (sh_ddHBFRepacked sh')
  = u64 (sh_ddHBFRepacked sh + nCopies (dd_messagesToSend ddm)) /\
  u64 (sh_ddBytesCopied sh')
  = u64 (sh_ddBytesCopied sh + copiedBytes (dd_messagesToSend ddm)) /\
  (enablePackedCopy cfg = false ->
   Z.of_nat (List.length (sh_mp sh')) + 1 + nCopies (dd_messagesToSend ddm)
   = Z.of_nat (List.length (sh_mp sh))).
Proof.
  unfold DDformatMessage.
  destruct (_ <? _); [discriminate|].
  destruct (sh_mp sh) as [|headerBlock mp1] eqn:Ep; [discriminate|].
  cbn [getNewDataBlockContainer].
  destruct (formatBlocks cfg bc lastHBidInit _) as [s|] eqn:Ef; [|discriminate].
  intros [= <- <-]. apply formatBlocks_accounted in Ef.
  destruct Ef as (l & Hm & Hb & Hr & Hp).
  cbn [messagesToSend ddBytesCopied ddHBFRepacked mp] in Hm, Hb, Hr, Hp.
  cbn [afterFormat sh_ddHBFRepacked sh_ddBytesCopied sh_mp dd_messagesToSend].
  rewrite Hm. cbn [app nCopies copiedBytes fold_right].
  fold (nCopies l). fold (copiedBytes l).
  split; [exact Hr|]. split; [exact Hb|].
  intros Hoff. specialize (Hp Hoff). cbn [List.length]. lia.
Qed.

Lemma repack_counters_match_message_witness :
  match DDformatMessage plainCopyConfig [pageA; pageB]
          (emptyShared [repeat Byte.x00 2048; repeat Byte.x00 2048]) with
  | (sh', Some ddm) =>
      nCopies (dd_messagesToSend ddm) = 1 /\
      u64 (sh_ddBytesCopied sh') = 1200 /\
      sh_mp sh' = []
  | (_, None) => False
  end.
Proof.
  destruct (DDformatMessage plainCopyConfig [pageA; pageB]
              (emptyShared [repeat Byte.x00 2048; repeat Byte.x00 2048]))
    as [sh' [ddm|]] eqn:E; [|vm_compute in E; discriminate].
  destruct (repack_counters_match_message plainCopyConfig [pageA; pageB]
              (emptyShared [repeat Byte.x00 2048; repeat Byte.x00 2048])
              sh' ddm E) as (_ & Hb & Hp).
  assert (E' := E). vm_compute in E'. injection E' as <- <-.
  split; [reflexivity|]. split; [exact Hb | reflexivity].
Defined.


(** *** Timeframes handed to the workers *)

(** A timeframe is closed by the data set that carries the end-of-timeframe
    flag: it goes to the worker whose turn it is, and a data set of the same
    timeframe that comes after it (from another link, say) is turned down:
    the call returns -1, one error is counted, and the data set is neither
    buffered nor handed to a worker. *)
Theorem data_set_after_end_of_timeframe_rejected
  (cfg : Config) (front1 : DataBlockContainer) (rest1 : DataSet)
  (front2 : DataBlockContainer) (rest2 : DataSet) (c : Consumer) (w : wThread) :
  nwThreads cfg <> 0 ->
  timeframeId (header (getData (last (front1 :: rest1) front1)))
  = timeframeId (header (getData front1)) ->
  flagEndOfTimeframe (header (getData (last (front1 :: rest1) front1))) = true ->
  timeframeId (header (getData front1)) <> currentTimeframeId c ->
  currentTimeframeBuffer c = None ->
  nth_error (wThreads c) (Z.to_nat (wThreadIxWrite c)) = Some w ->
  fifoFull cfg (input w) = false ->
  timeframeId (header (getData front2)) = timeframeId (header (getData front1)) ->
  timeframeId (header (getData (last (front2 :: rest2) front2)))
  = timeframeId (header (getData front1)) ->
  let '(c1, r1) := processForDataDistribution cfg (front1 :: rest1) c in
  let '(c2, r2) := processForDataDistribution cfg (front2 :: rest2) c1 in
  r1 = 0 /\
  nth_error (wThreads c1) (Z.to_nat (wThreadIxWrite c))
  = Some (mkWThread (input w ++ [[front1 :: rest1]]) (output w)) /\
  r2 = -1 /\
  wThreads c2 = wThreads c1 /\
  currentTimeframeBuffer c2 = None /\
  totalPushError (shared c2) = u64 (totalPushError (shared c1) + 1).
Proof.
  intros Hn Hl1 He1 Hne Hb Hw Hroom Hf2 Hl2.
  assert (E1 : processForDataDistribution cfg (front1 :: rest1) c
               = (mkConsumer (shared c) (timeframeId (header (getData front1)))
                    None
                    (updateAt (Z.to_nat (wThreadIxWrite c))
                       (mkWThread (input w ++ [[front1 :: rest1]]) (output w))
                       (wThreads c))
                    (nextIx cfg (wThreadIxWrite c)) (thIxRead c), 0)).
  { unfold processForDataDistribution.
    destruct (Z.eqb_spec (nwThreads cfg) 0); [contradiction|].
    rewrite Hl1, Z.eqb_refl. cbn [negb].
    destruct (Z.eqb_spec (timeframeId (header (getData front1)))
                (currentTimeframeId c)); [contradiction|].
    cbn [negb].
    assert (Hp : pushCurrentTimeframe cfg c = (c, 0))
      by (unfold pushCurrentTimeframe; now rewrite Hb).
    rewrite Hp. cbn [fst].
    cbn [currentTimeframeBuffer shared currentTimeframeId wThreads
         wThreadIxWrite thIxRead].
    rewrite He1. unfold pushCurrentTimeframe.
    cbn [currentTimeframeBuffer shared currentTimeframeId wThreads
         wThreadIxWrite thIxRead].
    rewrite Hw, Hroom. reflexivity. }
  rewrite E1.
  assert (E2 : forall c1 : Consumer,
             currentTimeframeId c1 = timeframeId (header (getData front1)) ->
             currentTimeframeBuffer c1 = None ->
             processForDataDistribution cfg (front2 :: rest2) c1
             = (with_shared (pushError (shared c1)) c1, -1)).
  { intros c1 Hid Hbuf. unfold processForDataDistribution.
    destruct (Z.eqb_spec (nwThreads cfg) 0); [contradiction|].
    rewrite Hl2, Hf2, Z.eqb_refl. cbn [negb].
    rewrite Hid, Z.eqb_refl. cbn [negb]. rewrite Hbuf. reflexivity. }
  rewrite E2 by reflexivity.
  cbn [wThreads with_shared currentTimeframeBuffer shared pushError
       totalPushError].
  repeat split. eapply updateAt_same. exact Hw.
Qed.

Definition closingSet : DataSet := [page 4 true (packet 900 0 128 Byte.xaa)].
Definition lateSet : DataSet := [page 4 false (packet 900 0 128 Byte.xbb)].

Lemma data_set_after_end_of_timeframe_rejected_witness :
  snd (processForDataDistribution (exampleConfig false 256 2) lateSet
         (fst (processForDataDistribution (exampleConfig false 256 2)
                 closingSet (emptyConsumer [] 2)))) = -1.
Proof.
  pose proof (data_set_after_end_of_timeframe_rejected
                (exampleConfig false 256 2)
                (page 4 true (packet 900 0 128 Byte.xaa)) []
                (page 4 false (packet 900 0 128 Byte.xbb)) []
                (emptyConsumer [] 2) (mkWThread [] [])) as H.
  fold closingSet lateSet in H.
  destruct (processForDataDistribution _ closingSet _) as [c1 r1].
  cbn [fst].
  destruct (processForDataDistribution _ lateSet c1) as [c2 r2].
  destruct H as (_ & _ & H & _); try reflexivity; try discriminate.
  exact H.
Defined.

(** The two ways a data set meets the hand-over of a timeframe: it closes
    the current timeframe while the worker's input FIFO is full, or it
    opens a new timeframe while one is still in the buffer. *)
Lemma processForDataDistribution_handover
  (cfg : Config) (front : DataBlockContainer) (rest : DataSet)
  (c : Consumer) (buffer : list DataSet) (w : wThread) :
  nwThreads cfg <> 0 ->
  timeframeId (header (getData (last (front :: rest) front)))
  = timeframeId (header (getData front)) ->
  currentTimeframeBuffer c = Some buffer ->
  nth_error (wThreads c) (Z.to_nat (wThreadIxWrite c)) = Some w ->
  (timeframeId (header (getData front)) = currentTimeframeId c ->
   flagEndOfTimeframe (header (getData (last (front :: rest) front))) = true ->
   fifoFull cfg (input w) = true ->
   processForDataDistribution cfg (front :: rest) c
   = (mkConsumer (pushError (shared c)) (currentTimeframeId c)
        (Some (buffer ++ [front :: rest])) (wThreads c) (wThreadIxWrite c)
        (thIxRead c), 0)) /\
  (timeframeId (header (getData front)) <> currentTimeframeId c ->
   flagEndOfTimeframe (header (getData (last (front :: rest) front))) = false ->
   processForDataDistribution cfg (front :: rest) c
   = if fifoFull cfg (input w)
     then (mkConsumer (pushError (shared c))
             (timeframeId (header (getData front)))
             (Some [front :: rest]) (wThreads c) (wThreadIxWrite c)
             (thIxRead c), 0)
     else (mkConsumer (shared c) (timeframeId (header (getData front)))
             (Some [front :: rest])
             (updateAt (Z.to_nat (wThreadIxWrite c))
                (mkWThread (input w ++ [buffer]) (output w)) (wThreads c))
             (nextIx cfg (wThreadIxWrite c)) (thIxRead c), 0)).
Proof.
  intros Hn Hl Hb Hw. split.
  - intros Hid He Hfull. unfold processForDataDistribution.
    destruct (Z.eqb_spec (nwThreads cfg) 0); [contradiction|].
    rewrite Hl, Z.eqb_refl. cbn [negb]. rewrite Hid, Z.eqb_refl. cbn [negb].
    rewrite Hb, <- Hid, <- Hl, He. unfold pushCurrentTimeframe.
    cbn [currentTimeframeBuffer shared currentTimeframeId wThreads
         wThreadIxWrite thIxRead].
    rewrite Hw, Hfull. reflexivity.
  - intros Hid He. unfold processForDataDistribution.
    destruct (Z.eqb_spec (nwThreads cfg) 0); [contradiction|].
    rewrite Hl, Z.eqb_refl. cbn [negb].
    destruct (Z.eqb_spec (timeframeId (header (getData front)))
                (currentTimeframeId c)); [contradiction|].
    cbn [negb]. rewrite <- Hl, He.
    unfold pushCurrentTimeframe. rewrite Hb, Hw.
    destruct (fifoFull cfg (input w)); reflexivity.
Qed.

(** When the input FIFO of the worker is full at the end of a timeframe,
    the call still returns 0: one error is counted, no worker gets anything
    and the timeframe stays in the buffer, the data set included.  If the
    worker has room again when the first data set of the next timeframe
    comes, the timeframe kept is handed over then, whole, and the new data
    set starts the next buffer. *)
Theorem full_pipeline_keeps_timeframe_until_next
  (cfg : Config) (front1 : DataBlockContainer) (rest1 : DataSet)
  (front2 : DataBlockContainer) (rest2 : DataSet)
  (c : Consumer) (buffer : list DataSet) (w w' : wThread)
  (threads' : list wThread) :
  nwThreads cfg <> 0 ->
  timeframeId (header (getData (last (front1 :: rest1) front1)))
  = timeframeId (header (getData front1)) ->
  timeframeId (header (getData front1)) = currentTimeframeId c ->
  flagEndOfTimeframe (header (getData (last (front1 :: rest1) front1))) = true ->
  currentTimeframeBuffer c = Some buffer ->
  nth_error (wThreads c) (Z.to_nat (wThreadIxWrite c)) = Some w ->
  fifoFull cfg (input w) = true ->
  timeframeId (header (getData (last (front2 :: rest2) front2)))
  = timeframeId (header (getData front2)) ->
  timeframeId (header (getData front2)) <> currentTimeframeId c ->
  flagEndOfTimeframe (header (getData (last (front2 :: rest2) front2))) = false ->
  nth_error threads' (Z.to_nat (wThreadIxWrite c)) = Some w' ->
  fifoFull cfg (input w') = false ->
  let '(c1, r1) := processForDataDistribution cfg (front1 :: rest1) c in
  r1 = 0 /\
  totalPushError (shared c1) = u64 (totalPushError (shared c) + 1) /\
  wThreads c1 = wThreads c /\
  let '(c2, r2) :=
    processForDataDistribution cfg (front2 :: rest2)
      (mkConsumer (shared c1) (currentTimeframeId c1)
         (currentTimeframeBuffer c1) threads' (wThreadIxWrite c1)
         (thIxRead c1)) in
  r2 = 0 /\
  nth_error (wThreads c2) (Z.to_nat (wThreadIxWrite c))
  = Some (mkWThread (input w' ++ [buffer ++ [front1 :: rest1]]) (output w')) /\
  currentTimeframeBuffer c2 = Some [front2 :: rest2] /\
  totalPushError (shared c2) = totalPushError (shared c1).
Proof.
  intros Hn Hl1 Hid1 He1 Hb Hw Hfull Hl2 Hid2 He2 Hw' Hroom.
  destruct (processForDataDistribution_handover cfg front1 rest1 c buffer w
              Hn Hl1 Hb Hw) as [H1 _].
  rewrite (H1 Hid1 He1 Hfull).
  cbn [shared currentTimeframeId currentTimeframeBuffer wThreads
       wThreadIxWrite thIxRead pushError totalPushError].
  split; [reflexivity|]. split; [reflexivity|]. split; [reflexivity|].
  set (c1' := mkConsumer _ (currentTimeframeId c) _ threads' _ _).
  destruct (processForDataDistribution_handover cfg front2 rest2 c1'
              (buffer ++ [front1 :: rest1]) w' Hn Hl2 eq_refl Hw') as [_ H2].
  rewrite (H2 Hid2 He2), Hroom.
  cbn [shared currentTimeframeId currentTimeframeBuffer wThreads
       wThreadIxWrite thIxRead pushError totalPushError c1'].
  repeat split. eapply updateAt_same. exact Hw'.
Qed.

Definition openingSet : DataSet := [page 5 false (packet 950 0 128 Byte.xcc)].

Definition stalledConsumer : Consumer :=
  mkConsumer (emptyShared []) 4 (Some [lateSet])
    [mkWThread [[tf1]] []; mkWThread [] []] 0 0.

Lemma full_pipeline_keeps_timeframe_until_next_witness :
  let '(c1, r1) := processForDataDistribution tightConfig closingSet
                     stalledConsumer in
  r1 = 0 /\
  totalPushError (shared c1) = u64 (totalPushError (shared stalledConsumer) + 1) /\
  wThreads c1 = wThreads stalledConsumer /\
  let '(c2, r2) :=
    processForDataDistribution tightConfig openingSet
      (mkConsumer (shared c1) (currentTimeframeId c1)
         (currentTimeframeBuffer c1) [mkWThread [] []; mkWThread [] []]
         (wThreadIxWrite c1) (thIxRead c1)) in
  r2 = 0 /\
  nth_error (wThreads c2) (Z.to_nat (wThreadIxWrite stalledConsumer))
  = Some (mkWThread ([] ++ [[lateSet] ++ [closingSet]]) []) /\
  currentTimeframeBuffer c2 = Some [openingSet] /\
  totalPushError (shared c2) = totalPushError (shared c1).
Proof.
  exact (full_pipeline_keeps_timeframe_until_next tightConfig
           (page 4 true (packet 900 0 128 Byte.xaa)) []
           (page 5 false (packet 950 0 128 Byte.xcc)) []
           stalledConsumer [lateSet] (mkWThread [[tf1]] []) (mkWThread [] [])
           [mkWThread [] []; mkWThread [] []]
           ltac:(discriminate) eq_refl eq_refl eq_refl eq_refl eq_refl
           eq_refl eq_refl ltac:(discriminate) eq_refl eq_refl eq_refl).
Defined.

End Dispatcher.
